(** * The validating-admission-policy controller: reconcile loops and cache

    A shallow embedding of
    [staging/src/k8s.io/apiserver/pkg/admission/plugin/validatingadmissionpolicy/controller_reconcile.go]
    and the properties of its dependency index, parameter watch entries and
    lazily rebuilt policy cache. *)

From stdpp Require Import gmap strings list fin_maps fin_sets.

#[local] Set Warnings "-clear-no-such-hyp".
Open Scope string_scope.
Open Scope list_scope.

(** ** Identities and API objects *)

(** Modelled from the spec: the declaration of [namespacedName] is not in the
    reconcile file; section 3 has "all identity keys are a pair of
    {namespace, name}" and [getNamespaceName] fills the two fields. *)
Record namespacedName := mkNamespacedName {
  namespace : string;
  name : string;
}.

Definition getNamespaceName (namespace name : string) : namespacedName :=
  {| namespace := namespace; name := name |}.

(** The zero value of [namespacedName], what [var x namespacedName] holds. *)
Definition zeroNamespacedName : namespacedName := getNamespaceName "" "".

#[global] Instance namespacedName_eq_dec : EqDecision namespacedName.
Proof. solve_decision. Defined.

#[global] Instance namespacedName_countable : Countable namespacedName.
Proof.
  refine (inj_countable' (λ n, (namespace n, name n))
                         (λ p, getNamespaceName p.1 p.2) _).
  by intros [].
Defined.

(** [v1alpha1.ParamKind], the key type of [paramsCRDControllers]. *)
Record ParamKind := mkParamKind {
  APIVersion : string;
  Kind : string;
}.

#[global] Instance ParamKind_eq_dec : EqDecision ParamKind.
Proof. solve_decision. Defined.

#[global] Instance ParamKind_countable : Countable ParamKind.
Proof.
  refine (inj_countable' (λ k, (APIVersion k, Kind k))
                         (λ p, mkParamKind p.1 p.2) _).
  by intros [].
Defined.

(** [v1alpha1.ValidatingAdmissionPolicy].  The reconciler reads
    [Spec.ParamKind] (a pointer, here an option); the validations are
    carried along for the compiler. *)
Record ValidatingAdmissionPolicy := mkPolicy {
  Spec_ParamKind : option ParamKind;
  Spec_Validations : list string;
}.

(** [v1alpha1.ValidatingAdmissionPolicyBinding]: [Spec.PolicyName] names the
    definition the binding targets. *)
Record ValidatingAdmissionPolicyBinding := mkBinding {
  Spec_PolicyName : string;
  Spec_ParamRef : string;
}.

(** ** Results of the resource-kind resolution service *)

Record GroupVersion := mkGroupVersion { gvGroup : string; gvVersion : string }.
Record GroupKind := mkGroupKind { gkGroup : string; gkKind : string }.
Record GroupVersionKind := mkGroupVersionKind {
  gvkGroup : string; gvkVersion : string; gvkKind : string;
}.
Record GroupVersionResource := mkGroupVersionResource {
  gvrGroup : string; gvrVersion : string; gvrResource : string;
}.

(** [schema.GroupVersion.WithKind]. *)
Definition WithKind (gv : GroupVersion) (kind : string) : GroupVersionKind :=
  {| gvkGroup := gvGroup gv; gvkVersion := gvVersion gv; gvkKind := kind |}.

(** [meta.RESTMapping]; the controller uses its [Resource]. *)
Record RESTMapping := mkRESTMapping { Resource : GroupVersionResource }.

(** Go [error] values.  The two [fmt.Errorf] calls of
    [reconcilePolicyDefinition] are constructors of their own; errors made by
    collaborators are [errorString]. *)
Inductive error :=
| errorString (msg : string)
| errParseAPIVersion (paramKind : ParamKind) (err : error)
| errFindResource (gvk : GroupVersionKind).

(** A Go pair [(value, err)] of which exactly one side is meaningful. *)
Inductive result (A : Type) :=
| Ok (a : A)
| Err (e : error).
Arguments Ok {A} a.
Arguments Err {A} e.

(** [c.restMapper.RESTMapping(groupKind, version)].  What it answers changes
    while the controller runs (a kind may be registered later), so every
    reconcile call receives the mapper of its moment. *)
Definition RESTMapper := GroupKind → string → result RESTMapping.

(** ** Records of the controller *)

(** Modelled from the spec: the struct [definitionInfo] is declared outside
    the reconcile file; section 3 gives DefinitionRecord as
    [{lastValue, configurationError}], and the code reads and writes
    [lastReconciledValue] and [configurationError].  (The type is capitalised
    because the controller also has a field called [definitionInfo].) *)
Record DefinitionInfo := mkDefinitionInfo {
  lastReconciledValue : option ValidatingAdmissionPolicy;
  configurationError : option error;
}.

(** The handle of one dynamic watch+reconcile loop: the child context it runs
    under, the resource its informer watches and the name given in
    [generic.ControllerOptions]. *)
Record paramController := mkParamController {
  ctlContext : nat;
  ctlResource : GroupVersionResource;
  ctlName : string;
}.

(** Modelled from the spec: the struct [paramInfo] is declared outside the
    reconcile file; section 3 gives ParamWatchEntry as
    [{loop, cancel, dependents}].  [stop] is the cancel function of a child
    context, named by the number of that context. *)
Record paramInfo := mkParamInfo {
  controller : paramController;
  stop : nat;
  dependentDefinitions : gset namespacedName;
}.

(** ** The collaborators of the controller *)

(** What the reconcile file takes from outside itself: the injected
    [ValidatorCompiler], [schema.ParseGroupVersion], the generated
    [ParamKind.String], and the order in which Go's [range] visits a map,
    which the language leaves open: any enumeration of the entries is
    allowed, so the two [range] functions are only known to be permutations
    of the entries. *)
Record Environment (Validator : Type) := mkEnvironment {
  Compile : option ValidatingAdmissionPolicy → option Validator;
  ParseGroupVersion : string → result GroupVersion;
  ParamKindString : ParamKind → string;
  rangeDefinitions :
    gmap namespacedName DefinitionInfo → list (namespacedName * DefinitionInfo);
  rangeBindings : gset namespacedName → list namespacedName;
  rangeDefinitions_perm : ∀ m, rangeDefinitions m ≡ₚ map_to_list m;
  rangeBindings_perm : ∀ s, rangeBindings s ≡ₚ elements s;
}.
Arguments Compile {Validator} _ _.
Arguments ParseGroupVersion {Validator} _ _.
Arguments ParamKindString {Validator} _ _.
Arguments rangeDefinitions {Validator} _ _.
Arguments rangeBindings {Validator} _ _.
Arguments rangeDefinitions_perm {Validator} _ _.
Arguments rangeBindings_perm {Validator} _ _.

(** A concrete parser in the shape of apimachinery's: at most one slash,
    group before it and version after it.  Used to run the model. *)
Fixpoint splitSlash (s : string) : option (string * string) :=
  match s with
  | EmptyString => None
  | String a rest =>
      if decide (String a "" = "/") then Some ("", rest)
      else '(g, v) ← splitSlash rest; Some (String a g, v)
  end.

Definition sampleParseGroupVersion (gv : string) : result GroupVersion :=
  if decide (gv = "" ∨ gv = "/") then Ok (mkGroupVersion "" "")
  else match splitSlash gv with
       | None => Ok (mkGroupVersion "" gv)
       | Some (g, v) =>
           match splitSlash v with
           | None => Ok (mkGroupVersion g v)
           | Some _ => Err (errorString "unexpected GroupVersion string")
           end
       end.

(** A compiler whose validator is the list of validations it was given. *)
Definition sampleCompile (p : option ValidatingAdmissionPolicy) : option (list string) :=
  Some (from_option Spec_Validations [] p).

Definition sampleParamKindString (k : ParamKind) : string :=
  APIVersion k +:+ "/" +:+ Kind k.

Definition sampleEnvironment : Environment (list string) :=
  {| Compile := sampleCompile;
     ParseGroupVersion := sampleParseGroupVersion;
     ParamKindString := sampleParamKindString;
     rangeDefinitions := map_to_list;
     rangeBindings := elements;
     rangeDefinitions_perm := λ m, reflexivity (map_to_list m);
     rangeBindings_perm := λ s, reflexivity (elements s) |}.

(** A mapper that knows one kind, and one that knows none. *)
Definition mapperKnowing (kind : string) : RESTMapper :=
  λ gk version,
    if decide (gkKind gk = kind)
    then Ok (mkRESTMapping (mkGroupVersionResource (gkGroup gk) version (kind +:+ "s")))
    else Err (errorString "no matches for kind").

Definition mapperKnowingNothing : RESTMapper :=
  λ _ _, Err (errorString "no matches for kind").

Section Controller.
Context {Validator : Type} (env : Environment Validator).

(** Modelled from the spec: the struct [bindingInfo] is declared outside the
    reconcile file; section 3 gives BindingRecord as
    [{lastValue, compiledValidator}].  Its [lastReconciledValue] field is
    [lastReconciledBinding] here, the name being taken by [DefinitionInfo]. *)
Record bindingInfo := mkBindingInfo {
  validator : option Validator;
  lastReconciledBinding : option ValidatingAdmissionPolicyBinding;
}.

(** Modelled from the spec: the struct [policyData] is declared outside the
    reconcile file; section 3 gives PolicyDataSnapshot as
    [{definition, paramLoop, bindings}], the three fields [latestPolicyData]
    fills.  Records are stored by value, as [*definitionInfo] and
    [*bindingInfo] are copied into it. *)
Record policyData := mkPolicyData {
  pdDefinitionInfo : DefinitionInfo;
  pdParamController : option paramController;
  pdBindings : list bindingInfo;
}.

(** The fields of [policyController] that the mutex protects, followed by a
    record of what the controller did to its surroundings: the loops it
    started with [go], the child contexts it cancelled, the calls it made to
    the compiler (definition and binding identity of each) and the
    definitions it reported to the metrics. *)
Record policyController := mkPolicyController {
  cachedPolicies : list policyData;
  paramsCRDControllers : gmap ParamKind paramInfo;
  definitionInfo : gmap namespacedName DefinitionInfo;
  bindingInfos : gmap namespacedName bindingInfo;
  definitionsToBindings : gmap namespacedName (gset namespacedName);
  startedLoops : list paramController;
  cancelledContexts : gset nat;
  compileCalls : list (namespacedName * namespacedName);
  observedDefinitions : nat;
}.

Definition newPolicyController : policyController :=
  {| cachedPolicies := [];
     paramsCRDControllers := ∅;
     definitionInfo := ∅;
     bindingInfos := ∅;
     definitionsToBindings := ∅;
     startedLoops := [];
     cancelledContexts := ∅;
     compileCalls := [];
     observedDefinitions := 0 |}.

Definition set_cachedPolicies (v : list policyData) (c : policyController) :=
  mkPolicyController v (paramsCRDControllers c) (definitionInfo c)
    (bindingInfos c) (definitionsToBindings c) (startedLoops c)
    (cancelledContexts c) (compileCalls c) (observedDefinitions c).

Definition set_paramsCRDControllers (v : gmap ParamKind paramInfo) (c : policyController) :=
  mkPolicyController (cachedPolicies c) v (definitionInfo c)
    (bindingInfos c) (definitionsToBindings c) (startedLoops c)
    (cancelledContexts c) (compileCalls c) (observedDefinitions c).

Definition set_definitionInfo (v : gmap namespacedName DefinitionInfo) (c : policyController) :=
  mkPolicyController (cachedPolicies c) (paramsCRDControllers c) v
    (bindingInfos c) (definitionsToBindings c) (startedLoops c)
    (cancelledContexts c) (compileCalls c) (observedDefinitions c).

Definition set_bindingInfos (v : gmap namespacedName bindingInfo) (c : policyController) :=
  mkPolicyController (cachedPolicies c) (paramsCRDControllers c) (definitionInfo c)
    v (definitionsToBindings c) (startedLoops c)
    (cancelledContexts c) (compileCalls c) (observedDefinitions c).

Definition set_definitionsToBindings (v : gmap namespacedName (gset namespacedName))
    (c : policyController) :=
  mkPolicyController (cachedPolicies c) (paramsCRDControllers c) (definitionInfo c)
    (bindingInfos c) v (startedLoops c)
    (cancelledContexts c) (compileCalls c) (observedDefinitions c).

Definition set_startedLoops (v : list paramController) (c : policyController) :=
  mkPolicyController (cachedPolicies c) (paramsCRDControllers c) (definitionInfo c)
    (bindingInfos c) (definitionsToBindings c) v
    (cancelledContexts c) (compileCalls c) (observedDefinitions c).

Definition set_cancelledContexts (v : gset nat) (c : policyController) :=
  mkPolicyController (cachedPolicies c) (paramsCRDControllers c) (definitionInfo c)
    (bindingInfos c) (definitionsToBindings c) (startedLoops c)
    v (compileCalls c) (observedDefinitions c).

Definition set_compileCalls (v : list (namespacedName * namespacedName))
    (c : policyController) :=
  mkPolicyController (cachedPolicies c) (paramsCRDControllers c) (definitionInfo c)
    (bindingInfos c) (definitionsToBindings c) (startedLoops c)
    (cancelledContexts c) v (observedDefinitions c).

Definition set_observedDefinitions (v : nat) (c : policyController) :=
  mkPolicyController (cachedPolicies c) (paramsCRDControllers c) (definitionInfo c)
    (bindingInfos c) (definitionsToBindings c) (startedLoops c)
    (cancelledContexts c) (compileCalls c) v.

(** ** [reconcilePolicyDefinition] *)

(** [c.definitionsToBindings[nn]]: a missing key reads as the nil set, over
    which [range] runs no iteration. *)
Definition dependentBindings (c : policyController) (nn : namespacedName)
    : gset namespacedName :=
  default ∅ (definitionsToBindings c !! nn).

(** Lines 164-182.  When the previous value declared a parameter kind and the
    new one declares none or another one, [nn] leaves the dependents of the
    old kind; an entry left without dependents is stopped and deleted. *)
Definition releaseOldParamSource (nn : namespacedName) (info : DefinitionInfo)
    (paramSource : option ParamKind) (c : policyController) : policyController :=
  match lastReconciledValue info ≫= Spec_ParamKind with
  | None => c
  | Some oldParamSource =>
      if decide (paramSource = None ∨ paramSource ≠ Some oldParamSource) then
        match paramsCRDControllers c !! oldParamSource with
        | None => c
        | Some oldParamInfo =>
            let dependents := dependentDefinitions oldParamInfo ∖ {[nn]} in
            if decide (size dependents = 0) then
              set_paramsCRDControllers
                (delete oldParamSource (paramsCRDControllers c))
                (set_cancelledContexts
                   ({[stop oldParamInfo]} ∪ cancelledContexts c) c)
            else
              set_paramsCRDControllers
                (<[oldParamSource :=
                     mkParamInfo (controller oldParamInfo) (stop oldParamInfo)
                       dependents]> (paramsCRDControllers c)) c
        end
      else c
  end.

(** [bindingInfo.validator = nil]. *)
Definition clearValidator (info : bindingInfo) : bindingInfo :=
  mkBindingInfo None (lastReconciledBinding info).

(** Lines 184-190.  The assignment dereferences the pointer read from
    [c.bindingInfos]; for a key without a record that pointer is nil and the
    assignment panics ([None]). *)
Fixpoint resetValidators (keys : list namespacedName)
    (infos : gmap namespacedName bindingInfo)
    : option (gmap namespacedName bindingInfo) :=
  match keys with
  | [] => Some infos
  | key :: keys =>
      bindingInfo ← infos !! key;
      resetValidators keys (<[key := clearValidator bindingInfo]> infos)
  end.

(** Lines 232-263: the entry of a kind not watched yet, with a loop under a
    fresh child context and [nn] as its only dependent. *)
Definition startParamController (nn : namespacedName) (paramSource : ParamKind)
    (paramsGVR : RESTMapping) (c : policyController) : policyController :=
  let instanceContext := length (startedLoops c) in
  let controller :=
    mkParamController instanceContext (Resource paramsGVR)
      (ParamKindString env paramSource +:+ "-controller") in
  set_startedLoops (startedLoops c ++ [controller])
    (set_paramsCRDControllers
       (<[paramSource := mkParamInfo controller instanceContext {[nn]}]>
          (paramsCRDControllers c)) c).

(** Lines 151-157: the record of [nn], made (and reported to the metrics)
    when there is none. *)
Definition fetchDefinitionInfo (nn : namespacedName) (c : policyController)
    : DefinitionInfo * policyController :=
  match definitionInfo c !! nn with
  | Some info => (info, c)
  | None =>
      let info := mkDefinitionInfo None None in
      (info,
       set_observedDefinitions (S (observedDefinitions c))
         (set_definitionInfo (<[nn := info]> (definitionInfo c)) c))
  end.

(** Lines 192-265: a deletion removes the record; otherwise the value is
    stored without error, and a declared parameter kind is parsed, resolved
    and watched.  The second component is the returned error. *)
Definition storeDefinition (restMapper : RESTMapper) (nn : namespacedName)
    (definition : option ValidatingAdmissionPolicy) (c : policyController)
    : policyController * option error :=
  match definition with
  | None => (set_definitionInfo (delete nn (definitionInfo c)) c, None)
  | Some definition =>
      let store err c :=
        set_definitionInfo
          (<[nn := mkDefinitionInfo (Some definition) err]> (definitionInfo c)) c in
      let c := store None c in
      match Spec_ParamKind definition with
      | None => (c, None)
      | Some paramSource =>
          match ParseGroupVersion env (APIVersion paramSource) with
          | Err err =>
              (store (Some (errParseAPIVersion paramSource err)) c, None)
          | Ok paramSourceGV =>
              match restMapper
                      (mkGroupKind (gvGroup paramSourceGV) (Kind paramSource))
                      (gvVersion paramSourceGV) with
              | Err _ =>
                  let err :=
                    errFindResource (WithKind paramSourceGV (Kind paramSource)) in
                  (store (Some err) c, Some err)
              | Ok paramsGVR =>
                  match paramsCRDControllers c !! paramSource with
                  | Some _ => (c, None)
                  | None =>
                      (startParamController nn paramSource paramsGVR c, None)
                  end
              end
          end
      end
  end.

(** The result is [None] when the call panics, and otherwise the new state
    with the returned error ([None] for nil). *)
Definition reconcilePolicyDefinition (restMapper : RESTMapper)
    (namespace name : string) (definition : option ValidatingAdmissionPolicy)
    (c : policyController) : option (policyController * option error) :=
  let c := set_cachedPolicies [] c in
  let nn := getNamespaceName namespace name in
  let '(info, c) := fetchDefinitionInfo nn c in
  let paramSource := definition ≫= Spec_ParamKind in
  let c := releaseOldParamSource nn info paramSource c in
  infos ← resetValidators (rangeBindings env (dependentBindings c nn))
             (bindingInfos c);
  Some (storeDefinition restMapper nn definition (set_bindingInfos infos c)).

(** ** [reconcilePolicyBinding] *)

(** The definition a binding value refers to; policies are cluster-scoped, so
    the namespace is empty.  Without a value the variable keeps its zero
    value. *)
Definition definitionNameOf (binding : option ValidatingAdmissionPolicyBinding)
    : namespacedName :=
  match binding with
  | Some binding => getNamespaceName "" (Spec_PolicyName binding)
  | None => zeroNamespacedName
  end.

(** Lines 296-308. *)
Definition removeFromOldDefinition (nn oldNamespacedDefinitionName : namespacedName)
    (c : policyController) : policyController :=
  match definitionsToBindings c !! oldNamespacedDefinitionName with
  | None => c
  | Some dependentBindings =>
      let dependentBindings := dependentBindings ∖ {[nn]} in
      if decide (size dependentBindings = 0) then
        set_definitionsToBindings
          (delete oldNamespacedDefinitionName (definitionsToBindings c)) c
      else
        set_definitionsToBindings
          (<[oldNamespacedDefinitionName := dependentBindings]>
             (definitionsToBindings c)) c
  end.

(** Lines 315-320. *)
Definition addToNewDefinition (nn namespacedDefinitionName : namespacedName)
    (c : policyController) : policyController :=
  match definitionsToBindings c !! namespacedDefinitionName with
  | Some dependentBindings =>
      set_definitionsToBindings
        (<[namespacedDefinitionName := {[nn]} ∪ dependentBindings]>
           (definitionsToBindings c)) c
  | None =>
      set_definitionsToBindings
        (<[namespacedDefinitionName := {[nn]}]> (definitionsToBindings c)) c
  end.

(** No statement of this function can panic; it always returns nil. *)
Definition reconcilePolicyBinding (namespace name : string)
    (binding : option ValidatingAdmissionPolicyBinding)
    (c : policyController) : policyController * option error :=
  let c := set_cachedPolicies [] c in
  let nn := getNamespaceName namespace name in
  let '(info, c) :=
    match bindingInfos c !! nn with
    | Some info => (info, c)
    | None =>
        let info := mkBindingInfo None None in
        (info, set_bindingInfos (<[nn := info]> (bindingInfos c)) c)
    end in
  let oldNamespacedDefinitionName := definitionNameOf (lastReconciledBinding info) in
  let namespacedDefinitionName := definitionNameOf binding in
  let c :=
    if decide (oldNamespacedDefinitionName ≠ namespacedDefinitionName)
    then removeFromOldDefinition nn oldNamespacedDefinitionName c
    else c in
  match binding with
  | None => (set_bindingInfos (delete nn (bindingInfos c)) c, None)
  | Some binding =>
      let c := addToNewDefinition nn namespacedDefinitionName c in
      (set_bindingInfos
         (<[nn := mkBindingInfo None (Some binding)]> (bindingInfos c)) c,
       None)
  end.

(** ** [latestPolicyData] *)

(** Lines 356-362, the inner loop for one definition.  A binding key without
    a record dereferences a nil pointer. *)
Fixpoint compileBindings (definitionNN : namespacedName) (info : DefinitionInfo)
    (keys : list namespacedName) (c : policyController)
    : option (list bindingInfo * policyController) :=
  match keys with
  | [] => Some ([], c)
  | bindingNN :: keys =>
      bindingInfo ← bindingInfos c !! bindingNN;
      let '(bindingInfo, c) :=
        if decide (validator bindingInfo = None ∧ configurationError info = None)
        then
          let bindingInfo :=
            mkBindingInfo (Compile env (lastReconciledValue info))
              (lastReconciledBinding bindingInfo) in
          (bindingInfo,
           set_compileCalls (compileCalls c ++ [(definitionNN, bindingNN)])
             (set_bindingInfos (<[bindingNN := bindingInfo]> (bindingInfos c)) c))
        else (bindingInfo, c) in
      '(rest, c) ← compileBindings definitionNN info keys c;
      Some (bindingInfo :: rest, c)
  end.

(** Lines 354-376, the outer loop.  [lastReconciledValue.Spec] dereferences
    the stored pointer. *)
Fixpoint buildPolicyData (definitions : list (namespacedName * DefinitionInfo))
    (c : policyController) : option (list policyData * policyController) :=
  match definitions with
  | [] => Some ([], c)
  | (definitionNN, info) :: definitions =>
      '(bindings, c) ←
        compileBindings definitionNN info
          (rangeBindings env (dependentBindings c definitionNN)) c;
      definition ← lastReconciledValue info;
      let paramController :=
        match Spec_ParamKind definition with
        | Some paramKind => controller <$> paramsCRDControllers c !! paramKind
        | None => None
        end in
      '(rest, c) ← buildPolicyData definitions c;
      Some (mkPolicyData info paramController bindings :: rest, c)
  end.

(** Lines 350-379: what runs under the exclusive lock once the cache was
    seen absent. *)
Definition rebuildPolicyData (c : policyController)
    : option (list policyData * policyController) :=
  '(res, c) ← buildPolicyData (rangeDefinitions env (definitionInfo c)) c;
  Some (res, set_cachedPolicies res c).

(** The cache is a slice: nil is the empty list, and nothing ever stores an
    empty slice that is not nil. *)
Definition latestPolicyData (c : policyController)
    : option (list policyData * policyController) :=
  match cachedPolicies c with
  | [] => rebuildPolicyData c
  | existing => Some (existing, c)
  end.

(** ** Runs of the controller *)

(** The calls that reach the shared state.  Each holds the mutex for its
    whole effect; a reader that saw the cache absent and lost the race for
    the lock rebuilds whatever the cache holds by then, which is
    [RebuildPolicyData]. *)
Inductive event :=
| ReconcileDefinition (restMapper : RESTMapper) (namespace name : string)
    (definition : option ValidatingAdmissionPolicy)
| ReconcileBinding (namespace name : string)
    (binding : option ValidatingAdmissionPolicyBinding)
| LatestPolicyData
| RebuildPolicyData.

Definition step (e : event) (c : policyController) : option policyController :=
  match e with
  | ReconcileDefinition restMapper namespace name definition =>
      fst <$> reconcilePolicyDefinition restMapper namespace name definition c
  | ReconcileBinding namespace name binding =>
      Some (fst (reconcilePolicyBinding namespace name binding c))
  | LatestPolicyData => snd <$> latestPolicyData c
  | RebuildPolicyData => snd <$> rebuildPolicyData c
  end.

Fixpoint run (events : list event) (c : policyController) : option policyController :=
  match events with
  | [] => Some c
  | e :: events => c ← step e c; run events c
  end.

(** The states the controller can be in: those some run reaches from
    [newPolicyController]. *)
Definition reachable (c : policyController) : Prop :=
  ∃ events, run events newPolicyController = Some c.

(** ** Invariants *)

(** The record of a binding once the inner loop of [latestPolicyData] has
    passed it, and whether that pass calls the compiler. *)
Definition compiledSlot (info : DefinitionInfo) (b : bindingInfo) : bindingInfo :=
  if decide (validator b = None ∧ configurationError info = None)
  then mkBindingInfo (Compile env (lastReconciledValue info)) (lastReconciledBinding b)
  else b.

Definition needsCompile (info : DefinitionInfo)
    (infos : gmap namespacedName bindingInfo) (bindingNN : namespacedName) : bool :=
  match infos !! bindingNN with
  | Some b => bool_decide (validator b = None ∧ configurationError info = None)
  | None => false
  end.

(** The definition the record of binding [nn] points at: what
    [reconcilePolicyBinding] computes as [oldNamespacedDefinitionName].  A
    binding without a record, or with a record without a value, has the zero
    name. *)
Definition recordedDefinitionNameOf (c : policyController) (nn : namespacedName)
    : namespacedName :=
  definitionNameOf (bindingInfos c !! nn ≫= lastReconciledBinding).

(** The two sentences on [definitionsToBindings] in the struct (lines 74-75):
    "All keys must have at least one dependent binding" and "All binding
    names MUST exist as a key bindingInfos". *)
Definition keysHaveDependents (c : policyController) : Prop :=
  ∀ k dependents, definitionsToBindings c !! k = Some dependents → dependents ≠ ∅.

Definition dependentsHaveRecords (c : policyController) : Prop :=
  ∀ k dependents b,
    definitionsToBindings c !! k = Some dependents → b ∈ dependents →
    is_Some (bindingInfos c !! b).

(** The second one for the dependents of one definition.  It is what lines
    184-190 need of the state in order not to dereference nil. *)
Definition dependentsOfHaveRecords (c : policyController) (nn : namespacedName)
    : Prop :=
  ∀ b, b ∈ dependentBindings c nn → is_Some (bindingInfos c !! b).

(** Both as boolean tests, to evaluate them on a state. *)
Definition keysHaveDependentsb (c : policyController) : bool :=
  forallb (λ kv, negb (bool_decide (size kv.2 = 0)))
    (map_to_list (definitionsToBindings c)).

Definition dependentsHaveRecordsb (c : policyController) : bool :=
  forallb (λ kv, forallb (λ b, bool_decide (is_Some (bindingInfos c !! b)))
                   (elements kv.2))
    (map_to_list (definitionsToBindings c)).

(** What holds of the index in every reachable state, whatever the events
    were: a listed binding is listed under the definition its record points
    at (the zero name when it has no record). *)
Definition dependentsPointBack (c : policyController) : Prop :=
  ∀ k b, b ∈ dependentBindings c k → recordedDefinitionNameOf c b = k.

(** Every binding record holds a value and is listed under its target. *)
Definition bindingsAreListed (c : policyController) : Prop :=
  ∀ b info, bindingInfos c !! b = Some info →
    ∃ v, lastReconciledBinding info = Some v ∧
         b ∈ dependentBindings c (definitionNameOf (Some v)).

(** Every definition record holds a value. *)
Definition definitionsHaveValues (c : policyController) : Prop :=
  ∀ d info, definitionInfo c !! d = Some info → is_Some (lastReconciledValue info).

(** A binding of a definition with a configuration error has no compiled
    validator. *)
Definition erroredAreUncompiled (c : policyController) : Prop :=
  ∀ d dinfo b binfo,
    definitionInfo c !! d = Some dinfo → is_Some (configurationError dinfo) →
    b ∈ dependentBindings c d → bindingInfos c !! b = Some binfo →
    validator binfo = None.

Record consistent (c : policyController) : Prop := mkConsistent {
  consistent_keys : keysHaveDependents c;
  consistent_back : dependentsPointBack c;
  consistent_listed : bindingsAreListed c;
  consistent_values : definitionsHaveValues c;
  consistent_errored : erroredAreUncompiled c;
}.

(** The compiler calls a pass over [definitions] makes, from the state
    before the pass: for each definition in turn, its listed bindings that
    need compiling. *)
Definition callsOf (c : policyController)
    (definitions : list (namespacedName * DefinitionInfo))
    : list (namespacedName * namespacedName) :=
  definitions ≫= λ '(d, info),
    (λ key, (d, key)) <$>
      filter (needsCompile info (bindingInfos c))
        (rangeBindings env (dependentBindings c d)).

(** The snapshot entry of one definition, against the state the pass ends
    in. *)
Definition entryOf (c c' : policyController)
    (entry : namespacedName * DefinitionInfo) (data : policyData) : Prop :=
  pdDefinitionInfo data = entry.2 ∧
  pdParamController data =
    (paramKind ← lastReconciledValue entry.2 ≫= Spec_ParamKind;
     controller <$> paramsCRDControllers c !! paramKind) ∧
  Forall2 (λ key b, bindingInfos c' !! key = Some b)
    (rangeBindings env (dependentBindings c entry.1)) (pdBindings data).

(** Two states that differ at most in binding records and compiler calls. *)
Definition sameOutsideBindings (c c' : policyController) : Prop :=
  cachedPolicies c' = cachedPolicies c ∧
  paramsCRDControllers c' = paramsCRDControllers c ∧
  definitionInfo c' = definitionInfo c ∧
  definitionsToBindings c' = definitionsToBindings c ∧
  startedLoops c' = startedLoops c ∧
  cancelledContexts c' = cancelledContexts c ∧
  observedDefinitions c' = observedDefinitions c.

(** A compiled validator held by a binding record is the compilation of the
    value now stored for the definition the record points at, and that
    definition has no configuration error. *)
Definition validatorsAreCurrent (c : policyController) : Prop :=
  ∀ b binfo v,
    bindingInfos c !! b = Some binfo → validator binfo = Some v →
    ∃ dinfo,
      definitionInfo c !! recordedDefinitionNameOf c b = Some dinfo ∧
      configurationError dinfo = None ∧
      Compile env (lastReconciledValue dinfo) = Some v.

(** What holds of [paramsCRDControllers] in every reachable state.  An entry
    has at least one dependent, and each dependent is a known definition
    whose stored value declares the kind of the entry. *)
Definition entriesHaveDependents (c : policyController) : Prop :=
  ∀ k entry, paramsCRDControllers c !! k = Some entry →
    dependentDefinitions entry ≠ ∅.

Definition dependentsDeclareKind (c : policyController) : Prop :=
  ∀ k entry d,
    paramsCRDControllers c !! k = Some entry → d ∈ dependentDefinitions entry →
    ∃ info v, definitionInfo c !! d = Some info ∧
              lastReconciledValue info = Some v ∧ Spec_ParamKind v = Some k.

(** The loops started so far are numbered by their contexts; an entry holds
    a started loop whose context is not cancelled, two entries hold different
    loops, and a started loop that no entry holds is cancelled. *)
Record loopsAccounted (c : policyController) : Prop := mkLoopsAccounted {
  loops_numbered :
    ∀ i ctl, startedLoops c !! i = Some ctl → ctlContext ctl = i;
  loops_cancelled_started :
    ∀ i, i ∈ cancelledContexts c → i < length (startedLoops c);
  loops_entry_running :
    ∀ k entry, paramsCRDControllers c !! k = Some entry →
      startedLoops c !! stop entry = Some (controller entry) ∧
      stop entry ∉ cancelledContexts c;
  loops_entry_distinct :
    ∀ k1 k2 entry1 entry2,
      paramsCRDControllers c !! k1 = Some entry1 →
      paramsCRDControllers c !! k2 = Some entry2 →
      stop entry1 = stop entry2 → k1 = k2;
  loops_unheld_cancelled :
    ∀ i ctl, startedLoops c !! i = Some ctl → i ∉ cancelledContexts c →
      ∃ k entry, paramsCRDControllers c !! k = Some entry ∧ stop entry = i;
}.

(** A snapshot entry that agrees with state [c]: it carries the record of
    its definition, the controller of the entry of the declared kind if
    there is one, and, for the bindings listed under the definition, their
    records in [c], whose validator is absent when the definition has a
    configuration error and is otherwise what the compiler returns for the
    stored value. *)
Definition currentEntry (c : policyController)
    (entry : namespacedName * DefinitionInfo) (data : policyData) : Prop :=
  pdDefinitionInfo data = entry.2 ∧
  pdParamController data =
    (paramKind ← lastReconciledValue entry.2 ≫= Spec_ParamKind;
     controller <$> paramsCRDControllers c !! paramKind) ∧
  Forall2
    (λ key b,
       bindingInfos c !! key = Some b ∧
       validator b =
         match configurationError entry.2 with
         | Some _ => None
         | None => Compile env (lastReconciledValue entry.2)
         end)
    (rangeBindings env (dependentBindings c entry.1)) (pdBindings data).

(** The cache is absent or agrees with the state. *)
Definition cacheIsCurrent (c : policyController) : Prop :=
  cachedPolicies c = [] ∨
  Forall2 (currentEntry c) (rangeDefinitions env (definitionInfo c))
    (cachedPolicies c).

(** Events as the API server delivers them: it rejects a binding whose
    [policyName] is empty. *)
Definition accepted (e : event) : Prop :=
  match e with
  | ReconcileBinding _ _ (Some binding) => Spec_PolicyName binding ≠ ""
  | _ => True
  end.

End Controller.

(** ** Sample runs *)

Definition configMap : ParamKind := mkParamKind "v1" "ConfigMap".
Definition malformedKind : ParamKind := mkParamKind "a/b/c" "ConfigMap".

Definition policyDeclaring (k : ParamKind) : ValidatingAdmissionPolicy :=
  mkPolicy (Some k) ["object.spec.replicas <= 5"].

Definition bindingTo (policyName : string) : ValidatingAdmissionPolicyBinding :=
  mkBinding policyName "params".

(** The state a run of the sample environment ends in (the new controller if
    it panics). *)
Definition stateAfter (events : list event) : @policyController (list string) :=
  default newPolicyController (run sampleEnvironment events newPolicyController).

(** Two definitions declare the same kind; then the first is deleted. *)
Definition twoDeclarers : list event :=
  [ReconcileDefinition (mapperKnowing "ConfigMap") "" "p1"
     (Some (policyDeclaring configMap));
   ReconcileDefinition (mapperKnowing "ConfigMap") "" "p2"
     (Some (policyDeclaring configMap))].

Definition firstDeclarerDeleted : list event :=
  twoDeclarers ++ [ReconcileDefinition (mapperKnowing "ConfigMap") "" "p1" None].

(** A binding with an empty [policyName] is reconciled and then deleted. *)
Definition unnamedTargetDeleted : list event :=
  [ReconcileBinding "" "b" (Some (bindingTo ""));
   ReconcileBinding "" "b" None].

(** The example of section 8 of the specification, up to the first read. *)
Definition boundAndRead : list event :=
  [ReconcileDefinition (mapperKnowing "ConfigMap") "" "policy-A"
     (Some (policyDeclaring configMap));
   ReconcileBinding "" "binding-1" (Some (bindingTo "policy-A"));
   LatestPolicyData].

(** A definition that resolves and one whose [apiVersion] does not parse,
    each with a binding; the cache is absent. *)
Definition oneBroken : list event :=
  [ReconcileDefinition (mapperKnowing "ConfigMap") "" "policy-A"
     (Some (policyDeclaring configMap));
   ReconcileDefinition (mapperKnowing "ConfigMap") "" "policy-B"
     (Some (policyDeclaring malformedKind));
   ReconcileBinding "" "binding-1" (Some (bindingTo "policy-A"));
   ReconcileBinding "" "binding-2" (Some (bindingTo "policy-B"))].

(** * Properties *)

Section Properties.
Context {Validator : Type} (env : Environment Validator).
Implicit Types (c : @policyController Validator) (nn : namespacedName).

Lemma size_zero_empty (X : gset namespacedName) : size X = 0 ↔ X = ∅.
Proof. rewrite size_empty_iff. by unfold_leibniz. Qed.

Lemma dependentBindings_lookup c k :
  dependentBindings c k = default ∅ (definitionsToBindings c !! k).
Proof. reflexivity. Qed.

Lemma removeFromOldDefinition_lookup nn old c k :
  definitionsToBindings (removeFromOldDefinition nn old c) !! k =
    if decide (k = old) then
      match definitionsToBindings c !! old with
      | Some deps => if decide (deps ∖ {[nn]} = ∅) then None else Some (deps ∖ {[nn]})
      | None => None
      end
    else definitionsToBindings c !! k.
Proof.
  unfold removeFromOldDefinition.
  destruct (definitionsToBindings c !! old) as [deps|] eqn:Hold.
  - destruct (decide (size (deps ∖ {[nn]}) = 0)) as [Hz|Hz]; simpl.
    + apply size_zero_empty in Hz.
      destruct (decide (k = old)) as [->|Hne].
      * rewrite lookup_delete_eq. by rewrite decide_True.
      * by rewrite lookup_delete_ne.
    + rewrite size_zero_empty in Hz.
      destruct (decide (k = old)) as [->|Hne].
      * rewrite lookup_insert_eq. by rewrite decide_False.
      * by rewrite lookup_insert_ne.
  - destruct (decide (k = old)) as [->|Hne]; done.
Qed.

Lemma addToNewDefinition_lookup nn new c k :
  definitionsToBindings (addToNewDefinition nn new c) !! k =
    if decide (k = new) then Some ({[nn]} ∪ dependentBindings c new)
    else definitionsToBindings c !! k.
Proof.
  unfold addToNewDefinition, dependentBindings.
  destruct (definitionsToBindings c !! new) as [deps|] eqn:Hnew; simpl;
    destruct (decide (k = new)) as [->|Hne];
    rewrite ?lookup_insert_eq, ?lookup_insert_ne by done; try done.
  by rewrite union_empty_r_L.
Qed.

Lemma reconcilePolicyBinding_bindingInfos ns nm binding c :
  bindingInfos (reconcilePolicyBinding ns nm binding c).1 =
    match binding with
    | Some b => <[getNamespaceName ns nm := mkBindingInfo None (Some b)]> (bindingInfos c)
    | None => delete (getNamespaceName ns nm) (bindingInfos c)
    end.
Proof.
  unfold reconcilePolicyBinding.
  set (nn := getNamespaceName ns nm).
  destruct (bindingInfos (set_cachedPolicies [] c) !! nn) as [info|] eqn:Hinfo;
    simpl in Hinfo; simpl.
  - case_decide; destruct binding; simpl;
      unfold removeFromOldDefinition, addToNewDefinition;
      repeat (case_match; simpl in *; simplify_eq); done.
  - case_decide; destruct binding; simpl;
      unfold removeFromOldDefinition, addToNewDefinition;
      repeat (case_match; simpl); rewrite ?insert_insert_eq, ?delete_insert_eq; done.
Qed.

Lemma reconcilePolicyBinding_d2b ns nm binding c :
  let nn := getNamespaceName ns nm in
  let old := recordedDefinitionNameOf c nn in
  let new := definitionNameOf binding in
  let c1 := if decide (old ≠ new) then removeFromOldDefinition nn old c else c in
  definitionsToBindings (reconcilePolicyBinding ns nm binding c).1 =
    match binding with
    | Some _ => definitionsToBindings (addToNewDefinition nn new c1)
    | None => definitionsToBindings c1
    end.
Proof.
  unfold reconcilePolicyBinding, recordedDefinitionNameOf.
  set (nn := getNamespaceName ns nm). simpl.
  destruct (bindingInfos c !! nn) as [info|] eqn:Hinfo; simpl.
  - case_decide; destruct binding; simpl;
      unfold removeFromOldDefinition, addToNewDefinition; simpl;
      repeat (case_match; simpl in *; simplify_eq); done.
  - case_decide; destruct binding; simpl;
      unfold removeFromOldDefinition, addToNewDefinition; simpl;
      repeat (case_match; simpl in *; simplify_eq); done.
Qed.

Lemma reconcilePolicyBinding_frame ns nm binding c :
  let c' := (reconcilePolicyBinding ns nm binding c).1 in
  (reconcilePolicyBinding ns nm binding c).2 = None ∧
  cachedPolicies c' = [] ∧
  paramsCRDControllers c' = paramsCRDControllers c ∧
  definitionInfo c' = definitionInfo c ∧
  startedLoops c' = startedLoops c ∧
  cancelledContexts c' = cancelledContexts c ∧
  compileCalls c' = compileCalls c ∧
  observedDefinitions c' = observedDefinitions c.
Proof.
  unfold reconcilePolicyBinding.
  set (nn := getNamespaceName ns nm). simpl.
  destruct (bindingInfos c !! nn) as [info|] eqn:Hinfo; simpl;
    case_decide; destruct binding; simpl;
      unfold removeFromOldDefinition, addToNewDefinition; simpl;
      repeat (case_match; simpl in *; simplify_eq); done.
Qed.

Lemma dependentBindings_removeFromOldDefinition nn old c k :
  dependentBindings (removeFromOldDefinition nn old c) k =
    if decide (k = old) then dependentBindings c old ∖ {[nn]}
    else dependentBindings c k.
Proof.
  unfold dependentBindings. rewrite removeFromOldDefinition_lookup.
  destruct (decide (k = old)) as [->|]; [|done].
  destruct (definitionsToBindings c !! old) as [deps|]; simpl.
  - case_decide; simpl; congruence.
  - set_solver.
Qed.

Lemma dependentBindings_addToNewDefinition nn new c k :
  dependentBindings (addToNewDefinition nn new c) k =
    if decide (k = new) then {[nn]} ∪ dependentBindings c new
    else dependentBindings c k.
Proof.
  unfold dependentBindings at 1. rewrite addToNewDefinition_lookup.
  by destruct (decide (k = new)).
Qed.

Lemma elem_of_dependentBindings_reconcilePolicyBinding ns nm binding c b k :
  let nn := getNamespaceName ns nm in
  let old := recordedDefinitionNameOf c nn in
  let new := definitionNameOf binding in
  b ∈ dependentBindings (reconcilePolicyBinding ns nm binding c).1 k ↔
    (b = nn ∧ k = new ∧ is_Some binding) ∨
    (b ∈ dependentBindings c k ∧ ¬ (b = nn ∧ k = old ∧ old ≠ new)).
Proof.
  intros nn old new.
  unfold dependentBindings at 1. rewrite reconcilePolicyBinding_d2b.
  fold nn old new.
  destruct binding as [v|].
  - change (default ∅ (definitionsToBindings ?c !! k)) with (dependentBindings c k).
    rewrite dependentBindings_addToNewDefinition.
    destruct (decide (old ≠ new)) as [Hne|Heq].
    + rewrite !dependentBindings_removeFromOldDefinition.
      repeat case_decide; subst; set_solver.
    + repeat case_decide; subst; set_solver.
  - change (default ∅ (definitionsToBindings ?c !! k)) with (dependentBindings c k).
    destruct (decide (old ≠ new)) as [Hne|Heq].
    + rewrite !dependentBindings_removeFromOldDefinition.
      repeat case_decide; subst; set_solver by eauto using is_Some_None.
    + set_solver by eauto using is_Some_None.
Qed.

(** *** [reconcilePolicyBinding] keeps the invariants *)

Lemma recordedDefinitionNameOf_reconcilePolicyBinding ns nm binding c b :
  recordedDefinitionNameOf (reconcilePolicyBinding ns nm binding c).1 b =
    if decide (b = getNamespaceName ns nm) then definitionNameOf binding
    else recordedDefinitionNameOf c b.
Proof.
  unfold recordedDefinitionNameOf.
  rewrite reconcilePolicyBinding_bindingInfos.
  destruct binding as [v|]; case_decide; subst;
    rewrite ?lookup_insert_eq, ?lookup_insert_ne,
            ?lookup_delete_eq, ?lookup_delete_ne by done; done.
Qed.

Lemma reconcilePolicyBinding_keysHaveDependents ns nm binding c :
  keysHaveDependents c →
  keysHaveDependents (reconcilePolicyBinding ns nm binding c).1.
Proof.
  intros Hkeys k deps. rewrite reconcilePolicyBinding_d2b.
  set (nn := getNamespaceName ns nm).
  set (c1 := if decide _ then _ else c).
  assert (keysHaveDependents c1) as Hc1.
  { subst c1. case_decide; [|done].
    intros k' deps'. rewrite removeFromOldDefinition_lookup.
    case_decide; [|by apply Hkeys].
    destruct (definitionsToBindings c !! _); [|done].
    case_decide; [done|]. congruence. }
  destruct binding as [v|]; [|by apply Hc1].
  rewrite addToNewDefinition_lookup.
  case_decide; [|by apply Hc1].
  intros [= <-]. set_solver.
Qed.

Lemma reconcilePolicyBinding_dependentsPointBack ns nm binding c :
  dependentsPointBack c →
  dependentsPointBack (reconcilePolicyBinding ns nm binding c).1.
Proof.
  intros Hback k b.
  rewrite elem_of_dependentBindings_reconcilePolicyBinding,
          recordedDefinitionNameOf_reconcilePolicyBinding.
  intros [(-> & -> & _)|[Hb Hnot]].
  - by rewrite decide_True.
  - specialize (Hback _ _ Hb). case_decide as Heq; [|done]. subst b.
    destruct (decide (recordedDefinitionNameOf c (getNamespaceName ns nm)
                      = definitionNameOf binding)) as [Hsame|Hdiff].
    + congruence.
    + destruct Hnot. by rewrite <- Hback.
Qed.

Lemma reconcilePolicyBinding_bindingsAreListed ns nm binding c :
  dependentsPointBack c → bindingsAreListed c →
  bindingsAreListed (reconcilePolicyBinding ns nm binding c).1.
Proof.
  intros Hback Hlisted b info.
  rewrite reconcilePolicyBinding_bindingInfos.
  set (nn := getNamespaceName ns nm).
  destruct (decide (b = nn)) as [->|Hne].
  - destruct binding as [v|].
    + rewrite lookup_insert_eq. intros [= <-]. exists v. split; [done|].
      apply elem_of_dependentBindings_reconcilePolicyBinding. left. eauto.
    + by rewrite lookup_delete_eq.
  - intros Hinfo.
    assert (bindingInfos c !! b = Some info) as Hold.
    { destruct binding;
        by rewrite ?lookup_insert_ne, ?lookup_delete_ne in Hinfo. }
    destruct (Hlisted _ _ Hold) as (v & Hv & Hin). exists v. split; [done|].
    apply elem_of_dependentBindings_reconcilePolicyBinding. right.
    split; [done|]. intros (? & _); done.
Qed.

Lemma reconcilePolicyBinding_erroredAreUncompiled ns nm binding c :
  erroredAreUncompiled c →
  erroredAreUncompiled (reconcilePolicyBinding ns nm binding c).1.
Proof.
  intros Herr d dinfo b binfo.
  destruct (reconcilePolicyBinding_frame ns nm binding c)
    as (_ & _ & _ & -> & _).
  rewrite reconcilePolicyBinding_bindingInfos,
          elem_of_dependentBindings_reconcilePolicyBinding.
  set (nn := getNamespaceName ns nm).
  intros Hd He Hin Hb.
  destruct (decide (b = nn)) as [->|Hne].
  - destruct binding as [v|].
    + rewrite lookup_insert_eq in Hb. by injection Hb as <-.
    + by rewrite lookup_delete_eq in Hb.
  - destruct Hin as [(? & _)|[Hin _]]; [done|].
    eapply Herr; [done..|].
    destruct binding; by rewrite ?lookup_insert_ne, ?lookup_delete_ne in Hb.
Qed.

Lemma reconcilePolicyBinding_consistent ns nm binding c :
  consistent c → consistent (reconcilePolicyBinding ns nm binding c).1.
Proof.
  intros [Hk Hb Hl Hv He]. split.
  - by apply reconcilePolicyBinding_keysHaveDependents.
  - by apply reconcilePolicyBinding_dependentsPointBack.
  - by apply reconcilePolicyBinding_bindingsAreListed.
  - intros d info.
    destruct (reconcilePolicyBinding_frame ns nm binding c)
      as (_ & _ & _ & -> & _). apply Hv.
  - by apply reconcilePolicyBinding_erroredAreUncompiled.
Qed.

(** *** The pieces of [reconcilePolicyDefinition] *)

Lemma elem_of_rangeBindings (deps : gset namespacedName) b :
  b ∈ rangeBindings env deps ↔ b ∈ deps.
Proof. by rewrite (rangeBindings_perm env deps), elem_of_elements. Qed.

Lemma NoDup_rangeBindings (deps : gset namespacedName) :
  NoDup (rangeBindings env deps).
Proof. rewrite (rangeBindings_perm env deps). apply NoDup_elements. Qed.

Lemma elem_of_rangeDefinitions (m : gmap namespacedName DefinitionInfo) d info :
  (d, info) ∈ rangeDefinitions env m ↔ m !! d = Some info.
Proof. by rewrite (rangeDefinitions_perm env m), elem_of_map_to_list. Qed.

Lemma NoDup_fst_rangeDefinitions (m : gmap namespacedName DefinitionInfo) :
  NoDup (rangeDefinitions env m).*1.
Proof. rewrite (rangeDefinitions_perm env m). apply NoDup_fst_map_to_list. Qed.

Lemma clearValidator_idemp (info : @bindingInfo Validator) :
  clearValidator (clearValidator info) = clearValidator info.
Proof. done. Qed.

Lemma resetValidators_Some keys (infos infos' : gmap namespacedName (@bindingInfo Validator)) :
  resetValidators keys infos = Some infos' →
  (∀ key, key ∈ keys → is_Some (infos !! key)) ∧
  (∀ b, infos' !! b =
        if decide (b ∈ keys) then clearValidator <$> infos !! b else infos !! b).
Proof.
  revert infos. induction keys as [|key keys IH]; intros infos;
    cbn [resetValidators].
  - intros [= <-]. split; [by intros ? ?%elem_of_nil|].
    intros b. by destruct (decide _) as [?%elem_of_nil|].
  - destruct (infos !! key) as [info|] eqn:Hkey; [|done].
    cbn [mbind option_bind]. intros [Hdom Hlook]%IH. split.
    + intros key' [->|Hin]%elem_of_cons; [by rewrite Hkey|].
      specialize (Hdom _ Hin). destruct (decide (key' = key)) as [->|Hne].
      * by rewrite Hkey.
      * by rewrite lookup_insert_ne in Hdom.
    + intros b. rewrite Hlook. destruct (decide (b = key)) as [->|Hne].
      * rewrite lookup_insert_eq, Hkey, (decide_True _ _ (list_elem_of_here _ _)).
        by case_decide.
      * rewrite lookup_insert_ne by done.
        destruct (decide (b ∈ keys)) as [Hin|Hnin].
        -- by rewrite decide_True by (by apply list_elem_of_further).
        -- rewrite decide_False; [done|]. by intros [?|?]%elem_of_cons.
Qed.

Lemma resetValidators_is_Some keys (infos : gmap namespacedName (@bindingInfo Validator)) :
  (∀ key, key ∈ keys → is_Some (infos !! key)) →
  is_Some (resetValidators keys infos).
Proof.
  revert infos. induction keys as [|key keys IH]; intros infos Hdom; simpl.
  - done.
  - destruct (Hdom key) as [info Hkey]; [apply list_elem_of_here|].
    rewrite Hkey. simpl. apply IH. intros key' Hin.
    destruct (decide (key' = key)) as [->|Hne].
    + by rewrite lookup_insert_eq.
    + rewrite lookup_insert_ne by done. apply Hdom. by apply list_elem_of_further.
Qed.

Lemma releaseOldParamSource_frame nn info paramSource c :
  let c' := releaseOldParamSource nn info paramSource c in
  cachedPolicies c' = cachedPolicies c ∧
  definitionInfo c' = definitionInfo c ∧
  bindingInfos c' = bindingInfos c ∧
  definitionsToBindings c' = definitionsToBindings c ∧
  startedLoops c' = startedLoops c ∧
  compileCalls c' = compileCalls c ∧
  observedDefinitions c' = observedDefinitions c.
Proof.
  unfold releaseOldParamSource. repeat case_match; done.
Qed.

Lemma storeDefinition_frame rm nn definition c :
  let c' := (storeDefinition env rm nn definition c).1 in
  cachedPolicies c' = cachedPolicies c ∧
  bindingInfos c' = bindingInfos c ∧
  definitionsToBindings c' = definitionsToBindings c ∧
  cancelledContexts c' = cancelledContexts c ∧
  compileCalls c' = compileCalls c ∧
  observedDefinitions c' = observedDefinitions c ∧
  (∀ d, d ≠ nn → definitionInfo c' !! d = definitionInfo c !! d).
Proof.
  unfold storeDefinition, startParamController.
  repeat case_match; simpl; repeat split; try done;
    intros d Hd; by rewrite ?lookup_insert_ne, ?lookup_delete_ne.
Qed.

(** The record [storeDefinition] leaves for [nn]: none after a deletion,
    and otherwise the value with the error it returned or recorded. *)
Lemma storeDefinition_record rm nn definition c :
  ∃ cfgErr,
    definitionInfo (storeDefinition env rm nn definition c).1 !! nn =
      (λ v, mkDefinitionInfo (Some v) cfgErr) <$> definition ∧
    (is_Some ((storeDefinition env rm nn definition c).2) →
       (storeDefinition env rm nn definition c).2 = cfgErr).
Proof.
  unfold storeDefinition, startParamController.
  destruct definition as [v|]; simpl.
  - repeat case_match; simpl; eexists;
      rewrite ?lookup_insert_eq, ?lookup_insert_ne; split; try done;
      by intros [? [=]].
  - exists None. by rewrite lookup_delete_eq.
Qed.

Lemma fetchDefinitionInfo_frame nn c :
  let c' := (fetchDefinitionInfo nn c).2 in
  (fetchDefinitionInfo nn c).1 =
    default (mkDefinitionInfo None None) (definitionInfo c !! nn) ∧
  cachedPolicies c' = cachedPolicies c ∧
  paramsCRDControllers c' = paramsCRDControllers c ∧
  bindingInfos c' = bindingInfos c ∧
  definitionsToBindings c' = definitionsToBindings c ∧
  startedLoops c' = startedLoops c ∧
  cancelledContexts c' = cancelledContexts c ∧
  compileCalls c' = compileCalls c ∧
  (∀ d, d ≠ nn → definitionInfo c' !! d = definitionInfo c !! d).
Proof.
  unfold fetchDefinitionInfo. case_match; simpl; repeat split; try done.
  intros d Hd. by rewrite lookup_insert_ne.
Qed.

(** What a returning call of [reconcilePolicyDefinition] did to the binding
    records, the index and the definition records. *)
Lemma reconcilePolicyDefinition_inv rm ns nm definition c c' err :
  reconcilePolicyDefinition env rm ns nm definition c = Some (c', err) →
  let nn := getNamespaceName ns nm in
  cachedPolicies c' = [] ∧
  definitionsToBindings c' = definitionsToBindings c ∧
  compileCalls c' = compileCalls c ∧
  (∀ b, b ∈ dependentBindings c nn → is_Some (bindingInfos c !! b)) ∧
  (∀ b, bindingInfos c' !! b =
        if decide (b ∈ dependentBindings c nn)
        then clearValidator <$> bindingInfos c !! b else bindingInfos c !! b) ∧
  (∀ d, d ≠ nn → definitionInfo c' !! d = definitionInfo c !! d) ∧
  ∃ cfgErr,
    definitionInfo c' !! nn =
      (λ v, mkDefinitionInfo (Some v) cfgErr) <$> definition ∧
    (is_Some err → err = cfgErr).
Proof.
  intros Hrun nn. unfold reconcilePolicyDefinition in Hrun. fold nn in Hrun.
  destruct (fetchDefinitionInfo nn (set_cachedPolicies [] c)) as [info c0] eqn:Hfetch.
  pose proof (fetchDefinitionInfo_frame nn (set_cachedPolicies [] c)) as Hf.
  rewrite Hfetch in Hf. simpl in Hf.
  destruct Hf as (_ & Hc0 & _ & Hb0 & Hi0 & _ & _ & Hl0 & Hd0).
  set (c1 := releaseOldParamSource nn info (definition ≫= Spec_ParamKind) c0) in *.
  destruct (releaseOldParamSource_frame nn info (definition ≫= Spec_ParamKind) c0)
    as (Hc1 & Hd1 & Hb1 & Hi1 & _ & Hl1 & _). fold c1 in Hc1, Hd1, Hb1, Hi1, Hl1.
  assert (dependentBindings c1 nn = dependentBindings c nn) as Hdeps.
  { unfold dependentBindings. by rewrite Hi1, Hi0. }
  rewrite Hdeps, Hb1, Hb0 in Hrun.
  destruct (resetValidators _ _) as [infos|] eqn:Hreset; [|done].
  simpl in Hrun. injection Hrun as Hrun.
  apply resetValidators_Some in Hreset as [Hdom Hlook].
  set (c2 := set_bindingInfos infos c1) in *.
  destruct (storeDefinition_frame rm nn definition c2)
    as (Hc & Hb & Hi & _ & Hl & _ & Hd).
  destruct (storeDefinition_record rm nn definition c2) as (cfgErr & Hrec & Herr).
  rewrite Hrun in *. simpl in *.
  repeat split.
  - by rewrite Hc, Hc1, Hc0.
  - by rewrite Hi, Hi1, Hi0.
  - by rewrite Hl, Hl1, Hl0.
  - intros b Hin. apply Hdom. by apply elem_of_rangeBindings.
  - intros b. rewrite Hb, Hlook.
    destruct (decide (b ∈ dependentBindings c nn)) as [Hin|Hnin].
    + by rewrite decide_True by (by apply elem_of_rangeBindings).
    + rewrite decide_False; [done|]. by rewrite elem_of_rangeBindings.
  - intros d Hne. by rewrite Hd, Hd1, Hd0.
  - eauto.
Qed.

(** [reconcilePolicyDefinition] returns exactly when every binding listed
    under the definition has a record. *)
Lemma reconcilePolicyDefinition_is_Some rm ns nm definition c :
  is_Some (reconcilePolicyDefinition env rm ns nm definition c) ↔
  ∀ b, b ∈ dependentBindings c (getNamespaceName ns nm) →
       is_Some (bindingInfos c !! b).
Proof.
  split.
  - intros [[c' err] Hrun]. by apply reconcilePolicyDefinition_inv in Hrun as (_&_&_&?&_).
  - intros Hdom. unfold reconcilePolicyDefinition.
    set (nn := getNamespaceName ns nm) in *.
    destruct (fetchDefinitionInfo nn (set_cachedPolicies [] c)) as [info c0] eqn:Hfetch.
    pose proof (fetchDefinitionInfo_frame nn (set_cachedPolicies [] c)) as Hf.
    rewrite Hfetch in Hf. simpl in Hf.
    destruct Hf as (_ & _ & _ & Hb0 & Hi0 & _).
    set (c1 := releaseOldParamSource nn info (definition ≫= Spec_ParamKind) c0) in *.
    destruct (releaseOldParamSource_frame nn info (definition ≫= Spec_ParamKind) c0)
      as (_ & _ & Hb1 & Hi1 & _). fold c1 in Hb1, Hi1.
    assert (dependentBindings c1 nn = dependentBindings c nn) as Hdeps.
    { unfold dependentBindings. by rewrite Hi1, Hi0. }
    rewrite Hdeps, Hb1, Hb0.
    destruct (resetValidators_is_Some (rangeBindings env (dependentBindings c nn))
                (bindingInfos c)) as [infos ->]; [|done].
    intros key Hkey. apply Hdom. by apply elem_of_rangeBindings.
Qed.

(** *** [reconcilePolicyDefinition] keeps the invariants *)

Lemma recordedDefinitionNameOf_ext c c' b :
  lastReconciledBinding <$> bindingInfos c' !! b =
    lastReconciledBinding <$> bindingInfos c !! b →
  recordedDefinitionNameOf c' b = recordedDefinitionNameOf c b.
Proof.
  unfold recordedDefinitionNameOf. intros Heq.
  destruct (bindingInfos c' !! b), (bindingInfos c !! b); simpl in *;
    congruence.
Qed.

Lemma dependentBindings_ext c c' k :
  definitionsToBindings c' = definitionsToBindings c →
  dependentBindings c' k = dependentBindings c k.
Proof. unfold dependentBindings. by intros ->. Qed.

(** A step that leaves the index alone and changes at most validators keeps
    the three invariants of the index. *)
Lemma index_invariants_ext c c' :
  definitionsToBindings c' = definitionsToBindings c →
  (∀ b, lastReconciledBinding <$> bindingInfos c' !! b =
        lastReconciledBinding <$> bindingInfos c !! b) →
  keysHaveDependents c → dependentsPointBack c → bindingsAreListed c →
  keysHaveDependents c' ∧ dependentsPointBack c' ∧ bindingsAreListed c'.
Proof.
  intros Hidx Hlast Hk Hb Hl. repeat split.
  - intros k deps. rewrite Hidx. apply Hk.
  - intros k b. rewrite (dependentBindings_ext _ _ _ Hidx),
      (recordedDefinitionNameOf_ext _ _ _ (Hlast b)). apply Hb.
  - intros b info' Hinfo'. specialize (Hlast b). rewrite Hinfo' in Hlast.
    destruct (bindingInfos c !! b) as [info|] eqn:Hinfo; [|done].
    simpl in Hlast. injection Hlast as Hlast.
    destruct (Hl _ _ Hinfo) as (v & Hv & Hin). exists v.
    rewrite (dependentBindings_ext _ _ _ Hidx). split; congruence.
Qed.

Lemma reconcilePolicyDefinition_consistent rm ns nm definition c c' err :
  reconcilePolicyDefinition env rm ns nm definition c = Some (c', err) →
  consistent c → consistent c'.
Proof.
  intros (Hcache & Hidx & _ & Hdom & Hinfos & Hother & cfgErr & Hrec & _)
    %reconcilePolicyDefinition_inv [Hk Hb Hl Hv He].
  set (nn := getNamespaceName ns nm) in *.
  assert (∀ b, lastReconciledBinding <$> bindingInfos c' !! b =
               lastReconciledBinding <$> bindingInfos c !! b) as Hlast.
  { intros b. rewrite Hinfos. case_decide; [|done].
    by destruct (bindingInfos c !! b). }
  destruct (index_invariants_ext c c' Hidx Hlast Hk Hb Hl) as (? & ? & ?).
  split; try done.
  - intros d info. destruct (decide (d = nn)) as [->|Hne].
    + rewrite Hrec. destruct definition; [|done]. by intros [= <-].
    + rewrite Hother by done. apply Hv.
  - intros d dinfo b binfo Hd Herr.
    rewrite (dependentBindings_ext _ _ _ Hidx), Hinfos. intros Hin Hbinfo.
    destruct (decide (b ∈ dependentBindings c nn)) as [Hnn|Hnn].
    + destruct (bindingInfos c !! b); [|done]. by injection Hbinfo as <-.
    + destruct (decide (d = nn)) as [->|Hne]; [done|].
      rewrite Hother in Hd by done. eauto.
Qed.

(** *** The rebuild *)

Lemma compiledSlot_last info (b : @bindingInfo Validator) :
  lastReconciledBinding (compiledSlot env info b) = lastReconciledBinding b.
Proof. unfold compiledSlot. by case_decide. Qed.

Lemma compiledSlot_validator info (b : @bindingInfo Validator) :
  validator (compiledSlot env info b) =
    if bool_decide (validator b = None ∧ configurationError info = None)
    then Compile env (lastReconciledValue info) else validator b.
Proof. unfold compiledSlot. case_decide; by case_bool_decide. Qed.

Lemma filter_ext_elem_of {A} (P Q : A → Prop)
    `{!∀ x, Decision (P x), !∀ x, Decision (Q x)} (l : list A) :
  (∀ x, x ∈ l → P x ↔ Q x) → filter P l = filter Q l.
Proof.
  induction l as [|x l IH]; intros Hiff; [done|].
  rewrite !filter_cons, IH by (intros; apply Hiff; by apply list_elem_of_further).
  destruct (decide (P x)) as [HP|HP], (decide (Q x)) as [HQ|HQ]; try done;
    by apply (Hiff x (list_elem_of_here _ _)) in HP || apply (Hiff x (list_elem_of_here _ _)) in HQ.
Qed.

Lemma compileBindings_spec d info keys c bis c' :
  NoDup keys →
  compileBindings env d info keys c = Some (bis, c') →
  (cachedPolicies c' = cachedPolicies c ∧
   paramsCRDControllers c' = paramsCRDControllers c ∧
   definitionInfo c' = definitionInfo c ∧
   definitionsToBindings c' = definitionsToBindings c ∧
   startedLoops c' = startedLoops c ∧
   cancelledContexts c' = cancelledContexts c ∧
   observedDefinitions c' = observedDefinitions c) ∧
  (∀ b, bindingInfos c' !! b =
        if decide (b ∈ keys) then compiledSlot env info <$> bindingInfos c !! b
        else bindingInfos c !! b) ∧
  (∀ key, key ∈ keys → is_Some (bindingInfos c !! key)) ∧
  Forall2 (λ key b, bindingInfos c' !! key = Some b) keys bis ∧
  compileCalls c' =
    compileCalls c ++ ((λ key, (d, key)) <$> filter (needsCompile info (bindingInfos c)) keys).
Proof.
  intros Hnodup. revert c bis.
  induction Hnodup as [|key keys Hnotin Hnodup IH]; intros c bis;
    cbn [compileBindings].
  - intros [= <- <-]. repeat split; try done.
    + by intros ? ?%elem_of_nil.
    + cbn. by rewrite app_nil_r.
  - destruct (bindingInfos c !! key) as [b0|] eqn:Hkey; [|done].
    cbn [mbind option_bind].
    set (step := if decide _ then _ else _).
    destruct step as [b1 c1] eqn:Hstep. subst step.
    destruct (compileBindings env d info keys c1) as [[rest c2]|] eqn:Hrest;
      [|done].
    cbn. intros [= <- <-].
    apply IH in Hrest as (Hframe & Hlook & Hdom & Hout & Hcalls).
    assert (b1 = compiledSlot env info b0 ∧
            bindingInfos c1 = <[key := compiledSlot env info b0]> (bindingInfos c) ∧
            compileCalls c1 = compileCalls c ++
              (if needsCompile info (bindingInfos c) key then [(d, key)] else []) ∧
            cachedPolicies c1 = cachedPolicies c ∧
            paramsCRDControllers c1 = paramsCRDControllers c ∧
            definitionInfo c1 = definitionInfo c ∧
            definitionsToBindings c1 = definitionsToBindings c ∧
            startedLoops c1 = startedLoops c ∧
            cancelledContexts c1 = cancelledContexts c ∧
            observedDefinitions c1 = observedDefinitions c)
      as (-> & Hb1 & Hc1 & Hf1).
    { unfold compiledSlot, needsCompile. rewrite Hkey.
      case_decide; case_bool_decide; try done; injection Hstep as <- <-; simpl.
      - done.
      - rewrite app_nil_r. repeat split; try done. by rewrite insert_id. }
    repeat split; try (by destruct Hframe as (?&?&?&?&?&?&?), Hf1 as (?&?&?&?&?&?&?); congruence).
    + intros b. rewrite Hlook, Hb1.
      destruct (decide (b = key)) as [->|Hne].
      * rewrite decide_False by done. rewrite lookup_insert_eq, Hkey.
        by rewrite decide_True by apply list_elem_of_here.
      * rewrite lookup_insert_ne by done.
        destruct (decide (b ∈ keys)) as [Hin|Hnin].
        -- by rewrite decide_True by (by apply list_elem_of_further).
        -- rewrite decide_False; [done|]. by intros [?|?]%elem_of_cons.
    + intros key' [->|Hin]%elem_of_cons; [by rewrite Hkey|].
      specialize (Hdom _ Hin). rewrite Hb1 in Hdom.
      destruct (decide (key' = key)) as [->|Hne]; [by rewrite Hkey|].
      by rewrite lookup_insert_ne in Hdom.
    + constructor; [|done].
      by rewrite Hlook, decide_False, Hb1, lookup_insert_eq.
    + rewrite Hcalls, Hc1, <- app_assoc. f_equal.
      rewrite ?filter_cons.
      assert (filter (needsCompile info (bindingInfos c1)) keys =
              filter (needsCompile info (bindingInfos c)) keys) as ->.
      { apply filter_ext_elem_of. intros key' Hin.
        unfold needsCompile. rewrite Hb1, lookup_insert_ne; [done|].
        by intros ->. }
      by destruct (needsCompile info (bindingInfos c) key).
Qed.


Lemma Forall2_impl_elem_of {A B} (P Q : A → B → Prop) (l : list A) (k : list B) :
  Forall2 P l k → (∀ x y, x ∈ l → P x y → Q x y) → Forall2 Q l k.
Proof.
  induction 1 as [|x y l k HP _ IH]; intros Himpl; constructor.
  - apply Himpl; [apply list_elem_of_here|done].
  - apply IH. intros ????. apply Himpl; [by apply list_elem_of_further|done].
Qed.

Lemma callsOf_ext c c1 definitions :
  definitionsToBindings c1 = definitionsToBindings c →
  (∀ d info b, (d, info) ∈ definitions → b ∈ dependentBindings c d →
     bindingInfos c1 !! b = bindingInfos c !! b) →
  callsOf env c1 definitions = callsOf env c definitions.
Proof.
  intros Hidx. induction definitions as [|[d info] definitions IH]; intros Hsame;
    [done|].
  unfold callsOf in *. cbn [mbind list_bind]. f_equal.
  - rewrite (dependentBindings_ext c c1 d Hidx). f_equal.
    apply filter_ext_elem_of. intros key Hkey%elem_of_rangeBindings.
    unfold needsCompile.
    by rewrite (Hsame d info key (list_elem_of_here _ _) Hkey).
  - apply IH. intros d' info' b Hin. apply (Hsame d' info'). by apply list_elem_of_further.
Qed.

Lemma buildPolicyData_spec definitions c res c' :
  NoDup definitions.*1 →
  dependentsPointBack c →
  buildPolicyData env definitions c = Some (res, c') →
  (cachedPolicies c' = cachedPolicies c ∧
   paramsCRDControllers c' = paramsCRDControllers c ∧
   definitionInfo c' = definitionInfo c ∧
   definitionsToBindings c' = definitionsToBindings c ∧
   startedLoops c' = startedLoops c ∧
   cancelledContexts c' = cancelledContexts c ∧
   observedDefinitions c' = observedDefinitions c) ∧
  (∀ b, (∀ d info, (d, info) ∈ definitions → b ∉ dependentBindings c d) →
        bindingInfos c' !! b = bindingInfos c !! b) ∧
  (∀ d info b, (d, info) ∈ definitions → b ∈ dependentBindings c d →
        is_Some (lastReconciledValue info) ∧
        is_Some (bindingInfos c !! b) ∧
        bindingInfos c' !! b = compiledSlot env info <$> bindingInfos c !! b) ∧
  Forall2 (entryOf env c c') definitions res ∧
  compileCalls c' = compileCalls c ++ callsOf env c definitions.
Proof.
  revert c res. induction definitions as [|[d info] definitions IH];
    intros c res Hnodup Hback; cbn [buildPolicyData].
  - intros [= <- <-]. split_and!; try done.
    + by intros ??? ?%elem_of_nil.
    + cbn. by rewrite app_nil_r.
  - rewrite fmap_cons in Hnodup. apply NoDup_cons in Hnodup as [Hd Hnodup].
    destruct (compileBindings env d info _ c) as [[bis c1]|] eqn:Hinner; [|done].
    cbn [mbind option_bind].
    destruct (lastReconciledValue info) as [definition|] eqn:Hvalue; [|done].
    cbn [mbind option_bind].
    destruct (buildPolicyData env definitions c1) as [[rest c2]|] eqn:Hrest; [|done].
    cbn. intros [= <- <-].
    apply compileBindings_spec in Hinner
      as (Hf1 & Hlook1 & Hdom1 & Hout1 & Hcalls1); [|apply NoDup_rangeBindings].
    destruct Hf1 as (Hf1a & Hf1b & Hf1c & Hf1d & Hf1e & Hf1f & Hf1g).
    assert (∀ b, lastReconciledBinding <$> bindingInfos c1 !! b =
                 lastReconciledBinding <$> bindingInfos c !! b) as Hlast1.
    { intros b. rewrite Hlook1. case_decide; [|done].
      destruct (bindingInfos c !! b); [|done]. simpl.
      by rewrite compiledSlot_last. }
    assert (dependentsPointBack c1) as Hback1.
    { intros k b. rewrite (dependentBindings_ext _ _ _ Hf1d),
        (recordedDefinitionNameOf_ext _ _ _ (Hlast1 b)). apply Hback. }
    assert (∀ k, dependentBindings c1 k = dependentBindings c k) as Hdeps1.
    { intros k. by apply dependentBindings_ext. }
    apply IH in Hrest as (Hf2 & Hun2 & Hown2 & Hsnap2 & Hcalls2); [|done..].
    destruct Hf2 as (Hf2a & Hf2b & Hf2c & Hf2d & Hf2e & Hf2f & Hf2g).
    (* a binding listed under [d] is listed under no later definition *)
    assert (∀ b, b ∈ dependentBindings c d →
              ∀ d' info', (d', info') ∈ definitions → b ∉ dependentBindings c d')
      as Hdisj.
    { intros b Hb d' info' Hin Hb'.
      apply Hback in Hb, Hb'. apply Hd. rewrite <- Hb, Hb'.
      apply list_elem_of_fmap. by exists (d', info'). }
    assert (∀ b, (∀ d' info', (d', info') ∈ definitions → b ∉ dependentBindings c d') →
              bindingInfos c2 !! b = bindingInfos c1 !! b) as Hun2'.
    { intros b Hb. apply Hun2. intros d' info' Hin. rewrite Hdeps1. eauto. }
    split_and!; try congruence.
    + intros b Hb. rewrite Hun2'.
      * rewrite Hlook1, decide_False; [done|].
        rewrite elem_of_rangeBindings. eapply Hb, list_elem_of_here.
      * intros d' info' Hin. eapply Hb. by apply list_elem_of_further.
    + intros d0 info0 b [[= -> ->]|Hin]%elem_of_cons Hb.
      * split_and!.
        -- by rewrite Hvalue.
        -- apply Hdom1. by apply elem_of_rangeBindings.
        -- rewrite Hun2' by eauto.
           by rewrite Hlook1, decide_True by (by apply elem_of_rangeBindings).
      * destruct (Hown2 d0 info0 b Hin) as (Hv0 & Hsome & Heq);
          [by rewrite Hdeps1|].
        assert (b ∉ rangeBindings env (dependentBindings c d)) as Hnin.
        { rewrite elem_of_rangeBindings. intros Hb'. by eapply Hdisj. }
        rewrite Hlook1, decide_False in Hsome, Heq by done. done.
    + constructor.
      * repeat split; simpl; [by rewrite Hvalue; simpl; rewrite ?Hf1b|].
        eapply Forall2_impl_elem_of; [exact Hout1|]. simpl.
        intros key b Hin%elem_of_rangeBindings Hkey.
        (* later definitions leave this binding alone *)
        rewrite Hun2'; [done|]. by apply Hdisj.
      * eapply Forall2_impl; [exact Hsnap2|].
        intros [d' info'] data (? & ? & ?). unfold entryOf in *. simpl in *.
        rewrite <- Hf1b, <- Hdeps1. done.
    + rewrite Hcalls2, Hcalls1, <- app_assoc. f_equal.
      change (definitions ≫= _) with (callsOf env c definitions). f_equal.
      apply callsOf_ext; [done|].
      intros d' info' b Hin Hb. rewrite Hlook1, decide_False; [done|].
      rewrite elem_of_rangeBindings. intros Hb'. by eapply Hdisj.
Qed.

Lemma compileBindings_is_Some d info keys c :
  (∀ key, key ∈ keys → is_Some (bindingInfos c !! key)) →
  is_Some (compileBindings env d info keys c).
Proof.
  revert c. induction keys as [|key keys IH]; intros c Hdom;
    cbn [compileBindings]; [done|].
  destruct (Hdom key (list_elem_of_here _ _)) as [b0 Hkey]. rewrite Hkey.
  cbn [mbind option_bind].
  set (step := if decide _ then _ else _).
  assert (∀ key', key' ∈ keys → is_Some (bindingInfos step.2 !! key')) as Hdom1.
  { intros key' Hin. specialize (Hdom key' (list_elem_of_further _ _ _ Hin)).
    subst step. case_decide; simpl; [|done].
    destruct (decide (key' = key)) as [->|Hne].
    - by rewrite lookup_insert_eq.
    - by rewrite lookup_insert_ne. }
  destruct step as [b1 c1]. destruct (IH c1 Hdom1) as [[rest c2] ->]. done.
Qed.

Lemma buildPolicyData_is_Some definitions c :
  (∀ d info, (d, info) ∈ definitions → is_Some (lastReconciledValue info)) →
  (∀ d info b, (d, info) ∈ definitions → b ∈ dependentBindings c d →
     is_Some (bindingInfos c !! b)) →
  is_Some (buildPolicyData env definitions c).
Proof.
  revert c. induction definitions as [|[d info] definitions IH];
    intros c Hvalues Hdom; cbn [buildPolicyData]; [done|].
  destruct (compileBindings_is_Some d info
              (rangeBindings env (dependentBindings c d)) c) as [[bis c1] Hinner].
  { intros key Hkey%elem_of_rangeBindings.
    eapply Hdom; [apply list_elem_of_here|done]. }
  rewrite Hinner. cbn [mbind option_bind].
  destruct (Hvalues d info (list_elem_of_here _ _)) as [definition ->].
  cbn [mbind option_bind].
  apply compileBindings_spec in Hinner
    as (Hf1 & Hlook1 & _); [|apply NoDup_rangeBindings].
  destruct Hf1 as (_ & _ & _ & Hidx & _).
  destruct (IH c1) as [[rest c2] ->]; [| |done].
  - intros d' info' Hin. eapply Hvalues. by apply list_elem_of_further.
  - intros d' info' b Hin. rewrite (dependentBindings_ext _ _ _ Hidx).
    intros Hb. rewrite Hlook1.
    specialize (Hdom d' info' b (list_elem_of_further _ _ _ Hin) Hb).
    case_decide; [|done]. by apply fmap_is_Some.
Qed.

(** The rebuild returns in a state whose definition records hold values and
    whose listed bindings have records. *)
Lemma rebuildPolicyData_is_Some c :
  definitionsHaveValues c → dependentsHaveRecords c →
  is_Some (rebuildPolicyData env c).
Proof.
  intros Hvalues Hrecords. unfold rebuildPolicyData.
  destruct (buildPolicyData_is_Some (rangeDefinitions env (definitionInfo c)) c)
    as [[res c'] ->]; [| |done].
  - intros d info Hin%elem_of_rangeDefinitions. eauto.
  - intros d info b _. unfold dependentBindings.
    destruct (definitionsToBindings c !! d) as [deps|] eqn:Hd; simpl; [|set_solver].
    eauto.
Qed.

(** What a returning rebuild did, against the state it started from. *)
Lemma rebuildPolicyData_spec c res c' :
  dependentsPointBack c →
  rebuildPolicyData env c = Some (res, c') →
  (cachedPolicies c' = res ∧
   paramsCRDControllers c' = paramsCRDControllers c ∧
   definitionInfo c' = definitionInfo c ∧
   definitionsToBindings c' = definitionsToBindings c ∧
   startedLoops c' = startedLoops c ∧
   cancelledContexts c' = cancelledContexts c ∧
   observedDefinitions c' = observedDefinitions c) ∧
  (∀ b, (∀ d, is_Some (definitionInfo c !! d) → b ∉ dependentBindings c d) →
        bindingInfos c' !! b = bindingInfos c !! b) ∧
  (∀ d info b, definitionInfo c !! d = Some info → b ∈ dependentBindings c d →
        is_Some (lastReconciledValue info) ∧
        is_Some (bindingInfos c !! b) ∧
        bindingInfos c' !! b = compiledSlot env info <$> bindingInfos c !! b) ∧
  Forall2 (entryOf env c c') (rangeDefinitions env (definitionInfo c)) res ∧
  compileCalls c' =
    compileCalls c ++ callsOf env c (rangeDefinitions env (definitionInfo c)).
Proof.
  intros Hback. unfold rebuildPolicyData.
  destruct (buildPolicyData env _ c) as [[res0 c0]|] eqn:Hbuild; [|done].
  cbn. intros [= <- <-].
  apply buildPolicyData_spec in Hbuild
    as (Hf & Hun & Hown & Hsnap & Hcalls);
    [|apply NoDup_fst_rangeDefinitions|done].
  destruct Hf as (?&?&?&?&?&?&?).
  split_and!; try done.
  - intros b Hb. apply Hun. intros d info Hin%elem_of_rangeDefinitions. eauto.
  - intros d info b Hd. apply Hown. by apply elem_of_rangeDefinitions.
Qed.

Lemma rebuildPolicyData_consistent c res c' :
  rebuildPolicyData env c = Some (res, c') → consistent c → consistent c'.
Proof.
  intros Hrun [Hk Hb Hl Hv He].
  apply rebuildPolicyData_spec in Hrun
    as ((_ & _ & Hdefs & Hidx & _) & Hun & Hown & _); [|done].
  assert (∀ b, lastReconciledBinding <$> bindingInfos c' !! b =
               lastReconciledBinding <$> bindingInfos c !! b) as Hlast.
  { intros b.
    destruct (definitionInfo c !! recordedDefinitionNameOf c b) as [info|] eqn:Hd.
    - destruct (decide (b ∈ dependentBindings c (recordedDefinitionNameOf c b)))
        as [Hin|Hnin].
      + destruct (Hown _ _ _ Hd Hin) as (_ & _ & ->).
        destruct (bindingInfos c !! b); [|done]. simpl.
        by rewrite compiledSlot_last.
      + rewrite Hun; [done|]. intros d _ Hin. by rewrite (Hb _ _ Hin) in Hnin.
    - rewrite Hun; [done|]. intros d [info Hinfo] Hin.
      rewrite (Hb _ _ Hin) in Hd. congruence. }
  destruct (index_invariants_ext c c' Hidx Hlast Hk Hb Hl) as (? & ? & ?).
  split; try done.
  - intros d info. rewrite Hdefs. apply Hv.
  - intros d dinfo b binfo. rewrite Hdefs, (dependentBindings_ext _ _ _ Hidx).
    intros Hd Herr Hin. destruct (Hown _ _ _ Hd Hin) as (_ & _ & ->).
    destruct (bindingInfos c !! b) as [b0|] eqn:Hb0; [|done].
    simpl. intros [= <-]. rewrite compiledSlot_validator.
    case_bool_decide as Hneed; [|by eapply He].
    destruct Hneed as [_ Hnone]. rewrite Hnone in Herr. by destruct Herr.
Qed.

Lemma latestPolicyData_consistent c res c' :
  latestPolicyData env c = Some (res, c') → consistent c → consistent c'.
Proof.
  unfold latestPolicyData. destruct (cachedPolicies c).
  - apply rebuildPolicyData_consistent.
  - by intros [= _ <-].
Qed.

Lemma newPolicyController_consistent : consistent (@newPolicyController Validator).
Proof. split; by intros ?. Qed.

Lemma step_consistent e c c' :
  step env e c = Some c' → consistent c → consistent c'.
Proof.
  destruct e as [rm ns nm definition|ns nm binding| |]; simpl.
  - destruct (reconcilePolicyDefinition env rm ns nm definition c)
      as [[c1 err]|] eqn:Hrun; [|done].
    intros [= <-]. by eapply reconcilePolicyDefinition_consistent.
  - intros [= <-]. apply reconcilePolicyBinding_consistent.
  - destruct (latestPolicyData env c) as [[res c1]|] eqn:Hrun; [|done].
    intros [= <-]. by eapply latestPolicyData_consistent.
  - destruct (rebuildPolicyData env c) as [[res c1]|] eqn:Hrun; [|done].
    intros [= <-]. by eapply rebuildPolicyData_consistent.
Qed.

Lemma run_consistent events c c' :
  run env events c = Some c' → consistent c → consistent c'.
Proof.
  revert c. induction events as [|e events IH]; intros c; simpl.
  - by intros [= <-].
  - destruct (step env e c) as [c1|] eqn:Hstep; [|done]. simpl.
    intros Hrun Hc. eapply IH; [done|]. by eapply step_consistent.
Qed.

(** Every reachable state is consistent. *)
Lemma reachable_consistent c : reachable env c → consistent c.
Proof.
  intros [events Hrun].
  eapply run_consistent; [done|apply newPolicyController_consistent].
Qed.

(** *** What the rebuild never touches *)

Lemma sameOutsideBindings_trans c c1 c2 :
  sameOutsideBindings c c1 → sameOutsideBindings c1 c2 → sameOutsideBindings c c2.
Proof.
  intros (?&?&?&?&?&?&?) (?&?&?&?&?&?&?). unfold sameOutsideBindings.
  split_and!; congruence.
Qed.

Lemma compileBindings_frame d info keys c bis c' :
  compileBindings env d info keys c = Some (bis, c') → sameOutsideBindings c c'.
Proof.
  revert c bis. induction keys as [|key keys IH]; intros c bis;
    cbn [compileBindings].
  - by intros [= <- <-].
  - destruct (bindingInfos c !! key) as [b0|]; [|done].
    cbn [mbind option_bind].
    set (step := if decide _ then _ else _).
    assert (sameOutsideBindings c step.2) as Hstep.
    { subst step. by case_decide. }
    destruct step as [b1 c1].
    destruct (compileBindings env d info keys c1) as [[rest c2]|] eqn:Hrest;
      [|done].
    cbn. intros [= <- <-].
    eapply sameOutsideBindings_trans; [exact Hstep|]. by eapply IH.
Qed.

Lemma buildPolicyData_frame definitions c res c' :
  buildPolicyData env definitions c = Some (res, c') →
  sameOutsideBindings c c' ∧
  Forall2 (λ entry data, pdDefinitionInfo data = entry.2) definitions res.
Proof.
  revert c res. induction definitions as [|[d info] definitions IH];
    intros c res; cbn [buildPolicyData].
  - intros [= <- <-]. by split.
  - destruct (compileBindings env d info _ c) as [[bis c1]|] eqn:Hinner; [|done].
    cbn [mbind option_bind].
    destruct (lastReconciledValue info) as [definition|]; [|done].
    cbn [mbind option_bind].
    destruct (buildPolicyData env definitions c1) as [[rest c2]|] eqn:Hrest; [|done].
    cbn. intros [= <- <-].
    apply compileBindings_frame in Hinner. apply IH in Hrest as [Hrest Hall].
    split; [by eapply sameOutsideBindings_trans|]. by constructor.
Qed.

Lemma rebuildPolicyData_frame c res c' :
  rebuildPolicyData env c = Some (res, c') →
  cachedPolicies c' = res ∧
  paramsCRDControllers c' = paramsCRDControllers c ∧
  definitionInfo c' = definitionInfo c ∧
  definitionsToBindings c' = definitionsToBindings c ∧
  startedLoops c' = startedLoops c ∧
  cancelledContexts c' = cancelledContexts c ∧
  observedDefinitions c' = observedDefinitions c ∧
  Forall2 (λ entry data, pdDefinitionInfo data = entry.2)
    (rangeDefinitions env (definitionInfo c)) res.
Proof.
  unfold rebuildPolicyData.
  destruct (buildPolicyData env _ c) as [[res0 c0]|] eqn:Hbuild; [|done].
  cbn. intros [= <- <-].
  apply buildPolicyData_frame in Hbuild as [(?&?&?&?&?&?&?) ?].
  by split_and!.
Qed.

Lemma latestPolicyData_index c res c' :
  latestPolicyData env c = Some (res, c') →
  definitionsToBindings c' = definitionsToBindings c.
Proof.
  unfold latestPolicyData. destruct (cachedPolicies c).
  - by intros (_&_&_&?&_)%rebuildPolicyData_frame.
  - by intros [= _ <-].
Qed.

(** *** Runs of accepted events *)

(** In a consistent state, a listed binding without a record is listed under
    the zero name. *)
Lemma consistent_listed_record c k b :
  consistent c → b ∈ dependentBindings c k → k ≠ zeroNamespacedName →
  is_Some (bindingInfos c !! b).
Proof.
  intros Hc Hin Hk. apply (consistent_back _ Hc) in Hin.
  unfold recordedDefinitionNameOf in Hin.
  destruct (bindingInfos c !! b); [done|]. simpl in Hin. congruence.
Qed.

Lemma consistent_dependentsHaveRecords c :
  consistent c → dependentBindings c zeroNamespacedName = ∅ →
  dependentsHaveRecords c.
Proof.
  intros Hc Hzero k deps b Hk Hb.
  assert (b ∈ dependentBindings c k) as Hin.
  { unfold dependentBindings. by rewrite Hk. }
  destruct (decide (k = zeroNamespacedName)) as [->|Hne].
  - rewrite Hzero in Hin. set_solver.
  - by eapply consistent_listed_record.
Qed.

Lemma step_zero_unlisted e c c' :
  accepted e → step env e c = Some c' →
  dependentBindings c zeroNamespacedName = ∅ →
  dependentBindings c' zeroNamespacedName = ∅.
Proof.
  destruct e as [rm ns nm definition|ns nm binding| |]; simpl; intros Hadm.
  - destruct (reconcilePolicyDefinition env rm ns nm definition c)
      as [[c1 err]|] eqn:Hrun; [|done].
    intros [= <-]. apply reconcilePolicyDefinition_inv in Hrun as (_ & Hidx & _).
    by rewrite (dependentBindings_ext _ _ _ Hidx).
  - intros [= <-] Hzero. apply set_eq. intros b.
    rewrite elem_of_dependentBindings_reconcilePolicyBinding, Hzero.
    split; [|set_solver]. intros [(_ & Hnew & Hsome)|[? _]]; [|set_solver].
    destruct binding as [v|]; [|by destruct Hsome].
    simpl in Hnew. injection Hnew as Hnew. by destruct Hadm.
  - destruct (latestPolicyData env c) as [[res c1]|] eqn:Hrun; [|done].
    intros [= <-]. apply latestPolicyData_index in Hrun.
    by rewrite (dependentBindings_ext _ _ _ Hrun).
  - destruct (rebuildPolicyData env c) as [[res c1]|] eqn:Hrun; [|done].
    intros [= <-]. apply rebuildPolicyData_frame in Hrun as (_&_&_&Hidx&_).
    by rewrite (dependentBindings_ext _ _ _ Hidx).
Qed.

(** A run of accepted events keeps the zero name without dependents, does not
    panic, and ends in a state with both invariants of the index. *)
Lemma run_accepted events c :
  Forall accepted events →
  consistent c → dependentBindings c zeroNamespacedName = ∅ →
  ∃ c', run env events c = Some c' ∧ consistent c' ∧
        dependentBindings c' zeroNamespacedName = ∅.
Proof.
  intros Hadm. revert c. induction Hadm as [|e events He _ IH]; intros c Hc Hzero.
  - by exists c.
  - assert (is_Some (step env e c)) as [c1 Hstep].
    { pose proof (consistent_dependentsHaveRecords c Hc Hzero) as Hrec.
      destruct e as [rm ns nm definition|ns nm binding| |]; simpl.
      - apply fmap_is_Some, reconcilePolicyDefinition_is_Some.
        intros b Hb. unfold dependentBindings in Hb.
        destruct (definitionsToBindings c !! _) as [deps|] eqn:Hd; [|set_solver].
        by eapply Hrec.
      - done.
      - apply fmap_is_Some. unfold latestPolicyData.
        destruct (cachedPolicies c); [|done].
        apply rebuildPolicyData_is_Some; [apply Hc|done].
      - apply fmap_is_Some, rebuildPolicyData_is_Some; [apply Hc|done]. }
    destruct (IH c1) as (c' & Hrun & Hc' & Hzero').
    + by eapply step_consistent.
    + by eapply step_zero_unlisted.
    + exists c'. simpl. by rewrite Hstep.
Qed.

(** * The claims *)

(** ** Re-targeting a binding *)

(** C7.  A binding [B] whose record points at definition [A], reconciled with
    a value that targets another definition [D]: the call returns nil; [B]
    is no longer listed under [A], whose key is deleted when [B] was its last
    dependent and keeps the other dependents otherwise; [B] is listed under
    [D], whose set is created when absent; the other keys are as before; and
    [B]'s record holds the new value and no compiled validator. *)
Theorem reconcilePolicyBinding_retarget ns nm info old binding c :
  let B := getNamespaceName ns nm in
  let A := getNamespaceName "" (Spec_PolicyName old) in
  let D := getNamespaceName "" (Spec_PolicyName binding) in
  let c' := (reconcilePolicyBinding ns nm (Some binding) c).1 in
  bindingInfos c !! B = Some info →
  lastReconciledBinding info = Some old →
  A ≠ D →
  (reconcilePolicyBinding ns nm (Some binding) c).2 = None ∧
  (B ∉ dependentBindings c' A) ∧
  definitionsToBindings c' !! A =
    (if decide (dependentBindings c A ∖ {[B]} = ∅) then None
     else Some (dependentBindings c A ∖ {[B]})) ∧
  definitionsToBindings c' !! D = Some ({[B]} ∪ dependentBindings c D) ∧
  B ∈ dependentBindings c' D ∧
  (∀ k, k ≠ A → k ≠ D →
        definitionsToBindings c' !! k = definitionsToBindings c !! k) ∧
  bindingInfos c' !! B = Some (mkBindingInfo None (Some binding)).
Proof.
  intros B A D c' Hinfo Hold Hne.
  assert (recordedDefinitionNameOf c B = A) as Hrec.
  { unfold recordedDefinitionNameOf. by rewrite Hinfo; simpl; rewrite Hold. }
  assert (∀ k, definitionsToBindings c' !! k =
               if decide (k = D) then Some ({[B]} ∪ dependentBindings c D)
               else if decide (k = A)
                    then (if decide (dependentBindings c A ∖ {[B]} = ∅) then None
                          else Some (dependentBindings c A ∖ {[B]}))
                    else definitionsToBindings c !! k) as Hidx.
  { intros k. subst c'. rewrite reconcilePolicyBinding_d2b. fold B.
    rewrite Hrec. change (definitionNameOf (Some binding)) with D.
    rewrite decide_True by done.
    rewrite addToNewDefinition_lookup, dependentBindings_removeFromOldDefinition.
    rewrite (decide_False (P := D = A)) by done.
    destruct (decide (k = D)) as [->|HkD]; [done|].
    rewrite removeFromOldDefinition_lookup.
    destruct (decide (k = A)) as [->|HkA]; [|done].
    unfold dependentBindings.
    destruct (definitionsToBindings c !! A) as [deps|]; simpl; [done|].
    rewrite decide_True; [done|set_solver]. }
  split_and!.
  - apply reconcilePolicyBinding_frame.
  - unfold dependentBindings. rewrite Hidx, decide_False, decide_True by done.
    case_decide; simpl; set_solver.
  - by rewrite Hidx, decide_False, decide_True.
  - by rewrite Hidx, decide_True.
  - unfold dependentBindings at 1. rewrite Hidx, decide_True by done.
    simpl. set_solver.
  - intros k HkA HkD. by rewrite Hidx, !decide_False.
  - subst c'. by rewrite reconcilePolicyBinding_bindingInfos, lookup_insert_eq.
Qed.

(** ** Reconciling a definition *)

Lemma reachable_dependentsOfHaveRecords c nn :
  reachable env c → nn ≠ zeroNamespacedName → dependentsOfHaveRecords c nn.
Proof.
  intros Hc%reachable_consistent Hnn b Hb. by eapply consistent_listed_record.
Qed.

Lemma dependentsHaveRecords_of c nn :
  dependentsHaveRecords c → dependentsOfHaveRecords c nn.
Proof.
  intros Hrec b Hb. unfold dependentBindings in Hb.
  destruct (definitionsToBindings c !! nn) as [deps|] eqn:Hd; [|set_solver].
  by eapply Hrec.
Qed.

(** A call that finds the records it needs is the three preparatory steps
    followed by [storeDefinition]. *)
Lemma reconcilePolicyDefinition_unfold rm ns nm definition c :
  let nn := getNamespaceName ns nm in
  dependentsOfHaveRecords c nn →
  ∃ c1,
    reconcilePolicyDefinition env rm ns nm definition c =
      Some (storeDefinition env rm nn definition c1) ∧
    cachedPolicies c1 = [] ∧
    paramsCRDControllers c1 =
      paramsCRDControllers
        (releaseOldParamSource nn
           (default (mkDefinitionInfo None None) (definitionInfo c !! nn))
           (definition ≫= Spec_ParamKind) c) ∧
    cancelledContexts c1 =
      cancelledContexts
        (releaseOldParamSource nn
           (default (mkDefinitionInfo None None) (definitionInfo c !! nn))
           (definition ≫= Spec_ParamKind) c) ∧
    (∀ d, d ≠ nn → definitionInfo c1 !! d = definitionInfo c !! d) ∧
    definitionsToBindings c1 = definitionsToBindings c ∧
    startedLoops c1 = startedLoops c ∧
    compileCalls c1 = compileCalls c ∧
    observedDefinitions c1 =
      match definitionInfo c !! nn with
      | Some _ => observedDefinitions c
      | None => S (observedDefinitions c)
      end ∧
    (∀ b, bindingInfos c1 !! b =
          if decide (b ∈ dependentBindings c nn)
          then clearValidator <$> bindingInfos c !! b else bindingInfos c !! b).
Proof.
  intros nn Hdom.
  destruct (resetValidators_is_Some (rangeBindings env (dependentBindings c nn))
              (bindingInfos c)) as [infos Hreset].
  { intros key Hkey%elem_of_rangeBindings. by apply Hdom. }
  unfold reconcilePolicyDefinition, fetchDefinitionInfo. fold nn. simpl.
  destruct (definitionInfo c !! nn) as [info|] eqn:Hinfo; simpl.
  - set (c1 := releaseOldParamSource nn info _ _).
    destruct (releaseOldParamSource_frame nn info (definition ≫= Spec_ParamKind)
                (set_cachedPolicies [] c)) as (Hc1 & Hd1 & Hb1 & Hi1 & Hs1 & Hl1 & Ho1).
    fold c1 in Hc1, Hd1, Hb1, Hi1, Hs1, Hl1, Ho1. simpl in *.
    assert (dependentBindings c1 nn = dependentBindings c nn) as ->
      by (by apply dependentBindings_ext).
    rewrite Hb1, Hreset. simpl.
    eexists. split; [done|]. simpl.
    apply resetValidators_Some in Hreset as [_ Hlook].
    split_and!; try done.
    + subst c1. unfold releaseOldParamSource. simpl. by repeat case_match.
    + subst c1. unfold releaseOldParamSource. simpl. by repeat case_match.
    + intros d _. by rewrite Hd1.
    + intros b. rewrite Hlook.
      destruct (decide (b ∈ dependentBindings c nn)) as [Hin|Hnin].
      * by rewrite decide_True by (by apply elem_of_rangeBindings).
      * rewrite decide_False; [done|]. by rewrite elem_of_rangeBindings.
  - set (c1 := releaseOldParamSource nn _ _ _).
    assert (c1 = set_observedDefinitions (S (observedDefinitions c))
                   (set_definitionInfo (<[nn := mkDefinitionInfo None None]> (definitionInfo c))
                      (set_cachedPolicies [] c))) as -> by done.
    simpl. unfold dependentBindings at 1. simpl.
    change (default ∅ (definitionsToBindings c !! nn)) with (dependentBindings c nn).
    rewrite Hreset. simpl.
    eexists. split; [done|]. simpl.
    apply resetValidators_Some in Hreset as [_ Hlook].
    split_and!; try done.
    + intros d Hd. by rewrite lookup_insert_ne.
    + intros b. rewrite Hlook.
      destruct (decide (b ∈ dependentBindings c nn)) as [Hin|Hnin].
      * by rewrite decide_True by (by apply elem_of_rangeBindings).
      * rewrite decide_False; [done|]. by rewrite elem_of_rangeBindings.
Qed.


(** The entry of a kind other than the one the previous value declared, or of
    the kind the new value declares, is not released. *)
Lemma releaseOldParamSource_lookup nn info paramSource c k :
  paramSource = Some k ∨ lastReconciledValue info ≫= Spec_ParamKind ≠ Some k →
  paramsCRDControllers (releaseOldParamSource nn info paramSource c) !! k =
    paramsCRDControllers c !! k.
Proof.
  unfold releaseOldParamSource. intros Hk.
  destruct (lastReconciledValue info ≫= Spec_ParamKind) as [old|]; [|done].
  case_decide as Hchange; [|done].
  assert (k ≠ old) as Hne.
  { intros ->. destruct Hk as [->|?]; [|done]. by destruct Hchange. }
  destruct (paramsCRDControllers c !! old) as [oldParamInfo|]; [|done].
  case_decide; simpl; by rewrite ?lookup_delete_ne, ?lookup_insert_ne.
Qed.

(** What the release does when the new value declares no kind or another
    one. *)
Lemma releaseOldParamSource_released nn info paramSource c K :
  lastReconciledValue info ≫= Spec_ParamKind = Some K →
  paramSource ≠ Some K →
  let c' := releaseOldParamSource nn info paramSource c in
  match paramsCRDControllers c !! K with
  | None =>
      paramsCRDControllers c' = paramsCRDControllers c ∧
      cancelledContexts c' = cancelledContexts c
  | Some entry =>
      if decide (dependentDefinitions entry ∖ {[nn]} = ∅) then
        paramsCRDControllers c' = delete K (paramsCRDControllers c) ∧
        cancelledContexts c' = {[stop entry]} ∪ cancelledContexts c
      else
        paramsCRDControllers c' =
          <[K := mkParamInfo (controller entry) (stop entry)
                   (dependentDefinitions entry ∖ {[nn]})]>
            (paramsCRDControllers c) ∧
        cancelledContexts c' = cancelledContexts c
  end.
Proof.
  intros Hold Hnew. unfold releaseOldParamSource. rewrite Hold.
  rewrite decide_True by (destruct paramSource; naive_solver).
  destruct (paramsCRDControllers c !! K) as [entry|]; [|done].
  destruct (decide (size (dependentDefinitions entry ∖ {[nn]}) = 0)) as [Hz|Hz].
  - rewrite decide_True by (by apply size_zero_empty). done.
  - rewrite decide_False by (by rewrite <- size_zero_empty). done.
Qed.

(** C4.  A definition whose [paramKind.apiVersion] does not parse: the call
    (which needs the records of the bindings listed under the definition)
    returns nil, so the watch loop does not retry, and the record keeps the
    new value together with a configuration error. *)
Theorem reconcilePolicyDefinition_unparsable rm ns nm definition paramSource e c :
  let nn := getNamespaceName ns nm in
  Spec_ParamKind definition = Some paramSource →
  ParseGroupVersion env (APIVersion paramSource) = Err e →
  dependentsOfHaveRecords c nn →
  ∃ c',
    reconcilePolicyDefinition env rm ns nm (Some definition) c = Some (c', None) ∧
    definitionInfo c' !! nn =
      Some (mkDefinitionInfo (Some definition)
              (Some (errParseAPIVersion paramSource e))).
Proof.
  intros nn Hkind Hparse Hdom.
  destruct (reconcilePolicyDefinition_unfold rm ns nm (Some definition) c Hdom)
    as (c1 & -> & _). fold nn.
  unfold storeDefinition. rewrite Hkind, Hparse.
  eexists. split; [done|]. simpl. by rewrite lookup_insert_eq.
Qed.

(** C5.  A definition whose parameter kind parses but is not resolved: the
    call returns the error it records on the definition, so the watch loop
    retries.  A later call for the same identity that resolves (here from
    any state with the records the call needs, the state after the failure
    among them) returns nil, leaves the record without error, and leaves one
    entry for the kind: the one that was there, or else a new one with a loop
    started for it. *)
Theorem reconcilePolicyDefinition_unresolved_then_resolved
    rm1 rm2 ns nm definition paramSource gv e mapping c :
  let nn := getNamespaceName ns nm in
  let err := errFindResource (WithKind gv (Kind paramSource)) in
  Spec_ParamKind definition = Some paramSource →
  ParseGroupVersion env (APIVersion paramSource) = Ok gv →
  rm1 (mkGroupKind (gvGroup gv) (Kind paramSource)) (gvVersion gv) = Err e →
  rm2 (mkGroupKind (gvGroup gv) (Kind paramSource)) (gvVersion gv) = Ok mapping →
  dependentsOfHaveRecords c nn →
  (∃ c1,
     reconcilePolicyDefinition env rm1 ns nm (Some definition) c
       = Some (c1, Some err) ∧
     definitionInfo c1 !! nn = Some (mkDefinitionInfo (Some definition) (Some err)) ∧
     dependentsOfHaveRecords c1 nn) ∧
  (∀ c1, dependentsOfHaveRecords c1 nn →
     ∃ c2 entry,
       reconcilePolicyDefinition env rm2 ns nm (Some definition) c1
         = Some (c2, None) ∧
       definitionInfo c2 !! nn = Some (mkDefinitionInfo (Some definition) None) ∧
       paramsCRDControllers c2 !! paramSource = Some entry ∧
       match paramsCRDControllers c1 !! paramSource with
       | Some old => entry = old ∧ startedLoops c2 = startedLoops c1
       | None =>
           dependentDefinitions entry = {[nn]} ∧
           stop entry = ctlContext (controller entry) ∧
           startedLoops c2 = startedLoops c1 ++ [controller entry]
       end).
Proof.
  intros nn err Hkind Hparse Hrm1 Hrm2 Hdom. split.
  - pose proof (reconcilePolicyDefinition_is_Some rm1 ns nm (Some definition) c)
      as [_ [[c1' err'] Hrun]]; [done|].
    pose proof (reconcilePolicyDefinition_inv _ _ _ _ _ _ _ Hrun)
      as (_ & Hidx & _ & _ & Hlook & _).
    destruct (reconcilePolicyDefinition_unfold rm1 ns nm (Some definition) c Hdom)
      as (c1 & Hrun1 & _). fold nn in Hrun1. rewrite Hrun in Hrun1.
    unfold storeDefinition in Hrun1. rewrite Hkind, Hparse, Hrm1 in Hrun1.
    injection Hrun1 as -> ->. eexists. split; [done|]. split.
    + simpl. by rewrite lookup_insert_eq.
    + intros b. rewrite (dependentBindings_ext _ _ _ Hidx), Hlook. intros Hb.
      rewrite decide_True by done. by apply fmap_is_Some, Hdom.
  - clear c Hdom. intros c Hdom.
    destruct (reconcilePolicyDefinition_unfold rm2 ns nm (Some definition) c Hdom)
      as (c1 & -> & _ & Hparams & Hcancel & _ & _ & Hloops & _). fold nn.
    simpl in Hparams.
    assert (paramsCRDControllers c1 !! paramSource =
            paramsCRDControllers c !! paramSource) as Hentry.
    { rewrite Hparams, Hkind. apply releaseOldParamSource_lookup. by left. }
    unfold storeDefinition. rewrite Hkind, Hparse, Hrm2. simpl.
    rewrite Hentry.
    destruct (paramsCRDControllers c !! paramSource) as [old|] eqn:Hold.
    + exists (set_definitionInfo
                (<[nn := mkDefinitionInfo (Some definition) None]> (definitionInfo c1))
                c1), old.
      simpl. by rewrite lookup_insert_eq.
    + eexists _, _. split; [done|]. simpl.
      rewrite !lookup_insert_eq. split_and!; try done.
      by rewrite Hloops.
Qed.

(** ** Deleting a definition *)

(** The snapshot of a state without a record for [D] has no entry for [D]:
    its entries are, one for one, the definition records of the state. *)
Lemma latestPolicyData_without c D res c' :
  cachedPolicies c = [] → definitionInfo c !! D = None →
  latestPolicyData env c = Some (res, c') →
  Forall2 (λ entry data, entry.1 ≠ D ∧ pdDefinitionInfo data = entry.2)
    (rangeDefinitions env (definitionInfo c)) res.
Proof.
  unfold latestPolicyData. intros -> HD (_&_&_&_&_&_&_&Hall)%rebuildPolicyData_frame.
  eapply Forall2_impl_elem_of; [exact Hall|].
  intros [d info] data Hin%elem_of_rangeDefinitions ?. split; [|done].
  simpl. intros ->. congruence.
Qed.

Lemma reconcilePolicyDefinition_keeps_records rm ns nm definition c c' err :
  reconcilePolicyDefinition env rm ns nm definition c = Some (c', err) →
  dependentsHaveRecords c → dependentsHaveRecords c'.
Proof.
  intros (_ & Hidx & _ & _ & Hlook & _)%reconcilePolicyDefinition_inv Hrec k deps b.
  rewrite Hidx, Hlook. intros Hk Hb. specialize (Hrec k deps b Hk Hb).
  case_decide; [|done]. by apply fmap_is_Some.
Qed.

(** C9.  Deleting a definition [D] whose last value declared kind [K]: the
    call (which needs the records of the bindings listed under [D]) returns
    nil and removes the record of [D]; [D] leaves the dependents of the
    entry of [K], and an entry left without dependents is deleted and its
    context cancelled; the next [latestPolicyData] returns (in a state whose
    definitions hold values and whose listed bindings have records) and its
    snapshot has an entry for each remaining definition and none for [D]. *)
Theorem delete_definition_releases_watch rm ns nm info old K c :
  let D := getNamespaceName ns nm in
  definitionInfo c !! D = Some info →
  lastReconciledValue info = Some old →
  Spec_ParamKind old = Some K →
  dependentsOfHaveRecords c D →
  ∃ c',
    reconcilePolicyDefinition env rm ns nm None c = Some (c', None) ∧
    definitionInfo c' !! D = None ∧
    match paramsCRDControllers c !! K with
    | None =>
        paramsCRDControllers c' = paramsCRDControllers c ∧
        cancelledContexts c' = cancelledContexts c
    | Some entry =>
        if decide (dependentDefinitions entry ∖ {[D]} = ∅) then
          paramsCRDControllers c' = delete K (paramsCRDControllers c) ∧
          cancelledContexts c' = {[stop entry]} ∪ cancelledContexts c
        else
          paramsCRDControllers c' =
            <[K := mkParamInfo (controller entry) (stop entry)
                     (dependentDefinitions entry ∖ {[D]})]>
              (paramsCRDControllers c) ∧
          cancelledContexts c' = cancelledContexts c
    end ∧
    (definitionsHaveValues c → dependentsHaveRecords c →
       is_Some (latestPolicyData env c')) ∧
    ∀ res c'', latestPolicyData env c' = Some (res, c'') →
      Forall2 (λ entry data, entry.1 ≠ D ∧ pdDefinitionInfo data = entry.2)
        (rangeDefinitions env (definitionInfo c')) res.
Proof.
  intros D Hinfo Hold HK Hdom.
  pose proof (reconcilePolicyDefinition_is_Some rm ns nm None c)
    as [_ [[c' err] Hrun]]; [done|].
  pose proof (reconcilePolicyDefinition_inv _ _ _ _ _ _ _ Hrun)
    as (Hcache & _ & _ & _ & _ & Hother & cfg & Hrec & _).
  pose proof (reconcilePolicyDefinition_keeps_records _ _ _ _ _ _ _ Hrun) as Hkeeps.
  destruct (reconcilePolicyDefinition_unfold rm ns nm None c Hdom)
    as (c1 & Hrun1 & _ & Hparams & Hcancel & _). fold D in Hrun1.
  assert (err = None ∧ paramsCRDControllers c' = paramsCRDControllers c1 ∧
          cancelledContexts c' = cancelledContexts c1) as (-> & Hp & Hx).
  { rewrite Hrun in Hrun1. simpl in Hrun1. by injection Hrun1 as -> ->. }
  exists c'. split; [done|]. fold D in Hrec, Hother. simpl in Hrec.
  split; [done|]. split; [|split].
  - rewrite Hp, Hx, Hparams, Hcancel. fold D. rewrite Hinfo. simpl.
    apply (releaseOldParamSource_released D info None c K); [|done].
    by rewrite Hold.
  - intros Hvalues Hrecords. unfold latestPolicyData. rewrite Hcache.
    apply rebuildPolicyData_is_Some; [|by apply Hkeeps].
    intros d dinfo Hd. destruct (decide (d = D)) as [->|Hne]; [congruence|].
    rewrite Hother in Hd by done. eauto.
  - intros res c''. by apply latestPolicyData_without.
Qed.

(** ** The cache *)

(** C6.  Two reads with nothing between them: when the first returns a
    snapshot and leaves state [c'], the second returns the same snapshot and
    leaves [c'] as it is, the list of compiler calls included. *)
Theorem latestPolicyData_idempotent c res c' :
  latestPolicyData env c = Some (res, c') →
  latestPolicyData env c' = Some (res, c') ∧
  ∀ res' c'', latestPolicyData env c' = Some (res', c'') →
    res' = res ∧ compileCalls c'' = compileCalls c'.
Proof.
  intros Hfirst.
  assert (latestPolicyData env c' = Some (res, c')) as Hsecond.
  { unfold latestPolicyData in *.
    destruct (cachedPolicies c) as [|data cache] eqn:Hcache.
    - unfold rebuildPolicyData in Hfirst.
      destruct (buildPolicyData env _ c) as [[res0 c0]|] eqn:Hbuild; [|done].
      injection Hfirst as <- <-. simpl.
      destruct res0 as [|data res0]; [|done].
      pose proof (buildPolicyData_frame _ _ _ _ Hbuild) as [_ Hall].
      apply Forall2_nil_inv_r in Hall.
      rewrite Hall in Hbuild. injection Hbuild as <-.
      unfold rebuildPolicyData. simpl. by rewrite Hall.
    - injection Hfirst as <- <-. by rewrite Hcache. }
  split; [done|]. intros res' c''. rewrite Hsecond. by intros [= <- <-].
Qed.

Lemma NoDup_fst_unique {A B} (l : list (A * B)) x y1 y2 :
  NoDup l.*1 → (x, y1) ∈ l → (x, y2) ∈ l → y1 = y2.
Proof.
  induction l as [|[x' y'] l IH]; csimpl; [by intros _ ?%elem_of_nil|].
  intros [Hnotin Hnodup]%NoDup_cons [Heq1|H1]%elem_of_cons
    [Heq2|H2]%elem_of_cons.
  - congruence.
  - injection Heq1 as -> ->. destruct Hnotin.
    apply list_elem_of_fmap. by exists (x', y2).
  - injection Heq2 as -> ->. destruct Hnotin.
    apply list_elem_of_fmap. by exists (x', y1).
  - by apply IH.
Qed.

Lemma elem_of_callsOf c definitions d b :
  (d, b) ∈ callsOf env c definitions ↔
  ∃ info, (d, info) ∈ definitions ∧ b ∈ dependentBindings c d ∧
          needsCompile info (bindingInfos c) b.
Proof.
  unfold callsOf. rewrite list_elem_of_bind. split.
  - intros ([d' info] & Hin & Hdef).
    apply list_elem_of_fmap in Hin as (key & [= -> ->] & Hkey).
    apply list_elem_of_filter in Hkey as [Hneed Hkey%elem_of_rangeBindings].
    by exists info.
  - intros (info & Hdef & Hb & Hneed). exists (d, info). split; [|done].
    apply list_elem_of_fmap. exists b. split; [done|].
    apply list_elem_of_filter. split; [done|]. by apply elem_of_rangeBindings.
Qed.

Lemma NoDup_callsOf c definitions :
  NoDup definitions.*1 → NoDup (callsOf env c definitions).
Proof.
  intros Hnodup. unfold callsOf. apply NoDup_bind.
  - intros [d1 info1] [d2 info2] [d b] Hin1 Hin2
      (? & [= -> ->] & _)%list_elem_of_fmap (? & [= -> ->] & _)%list_elem_of_fmap.
    f_equal. by eapply NoDup_fst_unique.
  - intros [d info] _. apply NoDup_fmap_2; [by intros ?? [= ->]|].
    apply NoDup_filter, NoDup_rangeBindings.
  - by apply NoDup_fmap_1 in Hnodup.
Qed.

Lemma needsCompile_spec info (infos : gmap namespacedName (@bindingInfo Validator)) b :
  needsCompile info infos b ↔
  ∃ binfo, infos !! b = Some binfo ∧ validator binfo = None ∧
           configurationError info = None.
Proof.
  unfold needsCompile. destruct (infos !! b) as [binfo|].
  - rewrite bool_decide_spec. naive_solver.
  - naive_solver.
Qed.

(** C3.  A rebuild by [latestPolicyData] from a reachable state whose cache
    is absent.  It returns when the bindings listed in the index have
    records.  When it returns, the compiler calls it added are, each once,
    the pairs of a known definition without configuration error and a
    binding listed under it whose validator was absent; so none is made for
    a definition with a configuration error, and in the snapshot entry of
    such a definition, as in the state left behind, every binding is
    without validator. *)
Theorem latestPolicyData_compiles_exactly c :
  reachable env c → cachedPolicies c = [] →
  (dependentsHaveRecords c → is_Some (latestPolicyData env c)) ∧
  ∀ res c', latestPolicyData env c = Some (res, c') →
    ∃ calls,
      compileCalls c' = compileCalls c ++ calls ∧
      NoDup calls ∧
      (∀ d b, (d, b) ∈ calls ↔
         ∃ dinfo binfo,
           definitionInfo c !! d = Some dinfo ∧
           b ∈ dependentBindings c d ∧
           bindingInfos c !! b = Some binfo ∧
           validator binfo = None ∧
           configurationError dinfo = None) ∧
      (∀ d dinfo b, definitionInfo c !! d = Some dinfo →
         is_Some (configurationError dinfo) → (d, b) ∉ calls) ∧
      Forall2
        (λ entry data,
           pdDefinitionInfo data = entry.2 ∧
           Forall2 (λ key b, bindingInfos c' !! key = Some b)
             (rangeBindings env (dependentBindings c entry.1)) (pdBindings data) ∧
           (is_Some (configurationError entry.2) →
              Forall (λ b, validator b = None) (pdBindings data)))
        (rangeDefinitions env (definitionInfo c)) res.
Proof.
  intros Hc%reachable_consistent Hcache. unfold latestPolicyData. rewrite Hcache.
  split.
  { intros Hrec. apply rebuildPolicyData_is_Some; [apply Hc|done]. }
  intros res c' Hrun.
  pose proof (rebuildPolicyData_consistent _ _ _ Hrun Hc) as Hc'.
  apply rebuildPolicyData_spec in Hrun
    as ((_ & _ & Hdefs & Hidx & _) & _ & _ & Hsnap & Hcalls); [|apply Hc].
  exists (callsOf env c (rangeDefinitions env (definitionInfo c))).
  assert (∀ d b, (d, b) ∈ callsOf env c (rangeDefinitions env (definitionInfo c)) ↔
            ∃ dinfo binfo,
              definitionInfo c !! d = Some dinfo ∧
              b ∈ dependentBindings c d ∧
              bindingInfos c !! b = Some binfo ∧
              validator binfo = None ∧
              configurationError dinfo = None) as Hiff.
  { intros d b. rewrite elem_of_callsOf. split.
    - intros (dinfo & Hd%elem_of_rangeDefinitions & Hb
              & (binfo & ? & ? & ?)%needsCompile_spec).
      by exists dinfo, binfo.
    - intros (dinfo & binfo & Hd & Hb & ? & ? & ?). exists dinfo.
      split; [by apply elem_of_rangeDefinitions|]. split; [done|].
      apply needsCompile_spec. by exists binfo. }
  split_and!; try done.
  - apply NoDup_callsOf, NoDup_fst_rangeDefinitions.
  - intros d dinfo b Hd Herr (dinfo' & binfo & Hd' & _ & _ & _ & Hnone)%Hiff.
    rewrite Hd in Hd'. injection Hd' as <-. rewrite Hnone in Herr.
    by destruct Herr.
  - eapply Forall2_impl_elem_of; [exact Hsnap|].
    intros [d dinfo] data Hd%elem_of_rangeDefinitions (Hinfo & _ & Hbindings).
    simpl in *. split_and!; try done.
    intros Herr. eapply Forall2_Forall_r; [exact Hbindings|].
    apply Forall_forall. intros key Hkey%elem_of_rangeBindings b Hb.
    eapply (consistent_errored _ Hc' d dinfo key b); try done.
    + by rewrite Hdefs.
    + by rewrite (dependentBindings_ext _ _ _ Hidx).
Qed.

Lemma Forall2_elem_of_l {A B} (P : A → B → Prop) (l : list A) (k : list B) x :
  Forall2 P l k → x ∈ l → ∃ y, y ∈ k ∧ P x y.
Proof.
  intros Hall (i & Hx)%list_elem_of_lookup.
  destruct (Forall2_lookup_l _ _ _ _ _ Hall Hx) as (y & Hy & HP).
  exists y. split; [|done]. apply list_elem_of_lookup. by exists i.
Qed.

Lemma Forall2_elem_of_r {A B} (P : A → B → Prop) (l : list A) (k : list B) y :
  Forall2 P l k → y ∈ k → ∃ x, x ∈ l ∧ P x y.
Proof.
  intros Hall (i & Hy)%list_elem_of_lookup.
  destruct (Forall2_lookup_r _ _ _ _ _ Hall Hy) as (x & Hx & HP).
  exists x. split; [|done]. apply list_elem_of_lookup. by exists i.
Qed.

(** C10, as amended.  Deleting a known definition [D] in a reachable state
    (the call needs the records of the bindings listed under [D]) returns
    nil and, the cache apart, changes this much: the record of [D] is
    removed and the other definition records stay; the index is untouched,
    so the entry keyed by [D] survives with its set, which is not empty;
    every binding record keeps its last value, and exactly the bindings
    listed under [D] lose their compiled validator; the entries of parameter
    kinds other than the one [D] declared stay; no loop is started, no
    compiler call made.  The next read returns (when the listed bindings have
    records) and its snapshot has one entry for each remaining definition,
    none for [D]; the binding records an entry carries are those of the
    bindings listed under its own definition, none of them a binding listed
    under [D], so no record in the snapshot names [D].  Reconciling [D] again
    with a value returns, and when nothing else happened the snapshot after
    that has an entry for [D] with one binding record for each binding that
    was listed under [D] before the deletion, holding the last value it had
    then. *)
Theorem delete_definition_frame rm ns nm info c :
  let D := getNamespaceName ns nm in
  reachable env c →
  definitionInfo c !! D = Some info →
  dependentsOfHaveRecords c D →
  ∃ c',
    reconcilePolicyDefinition env rm ns nm None c = Some (c', None) ∧
    definitionInfo c' = delete D (definitionInfo c) ∧
    definitionsToBindings c' = definitionsToBindings c ∧
    (∀ dependents, definitionsToBindings c !! D = Some dependents →
       definitionsToBindings c' !! D = Some dependents ∧ dependents ≠ ∅) ∧
    (∀ b, bindingInfos c' !! b =
          if decide (b ∈ dependentBindings c D)
          then clearValidator <$> bindingInfos c !! b
          else bindingInfos c !! b) ∧
    (∀ k, lastReconciledValue info ≫= Spec_ParamKind ≠ Some k →
          paramsCRDControllers c' !! k = paramsCRDControllers c !! k) ∧
    startedLoops c' = startedLoops c ∧
    compileCalls c' = compileCalls c ∧
    observedDefinitions c' = observedDefinitions c ∧
    (dependentsHaveRecords c → is_Some (latestPolicyData env c')) ∧
    (∀ res c'', latestPolicyData env c' = Some (res, c'') →
       Forall2
         (λ entry data,
            entry.1 ≠ D ∧ pdDefinitionInfo data = entry.2 ∧
            Forall2
              (λ key b,
                 (key ∉ dependentBindings c D) ∧
                 bindingInfos c'' !! key = Some b ∧
                 definitionNameOf (lastReconciledBinding b) = entry.1)
              (rangeBindings env (dependentBindings c entry.1)) (pdBindings data))
         (rangeDefinitions env (definitionInfo c')) res ∧
       ∀ data b, data ∈ res → b ∈ pdBindings data →
         definitionNameOf (lastReconciledBinding b) ≠ D) ∧
    (∀ rm' definition,
       is_Some (reconcilePolicyDefinition env rm' ns nm (Some definition) c')) ∧
    (∀ rm' definition c2 err res c3,
       reconcilePolicyDefinition env rm' ns nm (Some definition) c' = Some (c2, err) →
       latestPolicyData env c2 = Some (res, c3) →
       ∃ data,
         data ∈ res ∧
         lastReconciledValue (pdDefinitionInfo data) = Some definition ∧
         Forall2
           (λ key b,
              ∃ before, bindingInfos c !! key = Some before ∧
                        lastReconciledBinding b = lastReconciledBinding before)
           (rangeBindings env (dependentBindings c D)) (pdBindings data)).
Proof.
  intros D Hc%reachable_consistent Hinfo Hdom.
  pose proof (reconcilePolicyDefinition_is_Some rm ns nm None c)
    as [_ [[c' err] Hrun]]; [done|].
  pose proof (reconcilePolicyDefinition_inv _ _ _ _ _ _ _ Hrun)
    as (Hcache & Hidx & Hcalls & _ & Hlook & Hother & cfg & Hrec & _).
  pose proof (reconcilePolicyDefinition_consistent _ _ _ _ _ _ _ Hrun Hc) as Hc'.
  destruct (reconcilePolicyDefinition_unfold rm ns nm None c Hdom)
    as (c1 & Hrun1 & _ & Hparams & _ & _ & _ & Hloops & _ & Hobs & _).
  fold D in Hrun1, Hrec, Hother, Hlook, Hparams, Hobs. simpl in Hrec.
  rewrite Hinfo in Hobs.
  assert (err = None ∧ paramsCRDControllers c' = paramsCRDControllers c1 ∧
          startedLoops c' = startedLoops c1 ∧
          observedDefinitions c' = observedDefinitions c1) as (-> & Hp & Hs & Ho).
  { rewrite Hrun in Hrun1. simpl in Hrun1. by injection Hrun1 as -> ->. }
  assert (∀ k, dependentBindings c' k = dependentBindings c k) as Hdeps0.
  { intros k. by apply dependentBindings_ext. }
  assert (definitionInfo c' = delete D (definitionInfo c)) as Hdefs'.
  { apply map_eq. intros d. destruct (decide (d = D)) as [->|Hne].
    - by rewrite lookup_delete_eq.
    - by rewrite lookup_delete_ne, Hother. }
  exists c'. split_and!; try congruence; try done.
  - intros deps HD. split; [by rewrite Hidx|]. by eapply (consistent_keys _ Hc).
  - intros k Hk. rewrite Hp, Hparams, Hinfo. simpl.
    apply releaseOldParamSource_lookup. by right.
  - intros Hrecords. unfold latestPolicyData. rewrite Hcache.
    apply rebuildPolicyData_is_Some; [apply Hc'|].
    by eapply reconcilePolicyDefinition_keeps_records.
  - intros res c'' Hread.
    assert (Forall2
         (λ entry data,
            entry.1 ≠ D ∧ pdDefinitionInfo data = entry.2 ∧
            Forall2
              (λ key b,
                 (key ∉ dependentBindings c D) ∧
                 bindingInfos c'' !! key = Some b ∧
                 definitionNameOf (lastReconciledBinding b) = entry.1)
              (rangeBindings env (dependentBindings c entry.1)) (pdBindings data))
         (rangeDefinitions env (definitionInfo c')) res) as Hall.
    { unfold latestPolicyData in Hread. rewrite Hcache in Hread.
      pose proof (rebuildPolicyData_consistent _ _ _ Hread Hc') as Hc''.
      apply rebuildPolicyData_spec in Hread
        as ((_ & _ & _ & Hidx'' & _) & _ & _ & Hsnap & _); [|apply Hc'].
      eapply Forall2_impl_elem_of; [exact Hsnap|].
      intros [d dinfo] data Hd%elem_of_rangeDefinitions (Hentry & _ & Hbindings).
      simpl in *.
      assert (d ≠ D) as Hne by (intros ->; congruence).
      split; [done|]. split; [done|]. rewrite Hdeps0 in Hbindings.
      eapply Forall2_impl_elem_of; [exact Hbindings|].
      intros key b Hkey%elem_of_rangeBindings Hb. simpl in Hb.
      split; [|split; [done|]].
      - intros HkeyD. apply (consistent_back _ Hc) in Hkey, HkeyD. congruence.
      - assert (key ∈ dependentBindings c'' d) as Hkey''.
        { by rewrite (dependentBindings_ext _ _ _ Hidx''), Hdeps0. }
        apply (consistent_back _ Hc'') in Hkey''.
        unfold recordedDefinitionNameOf in Hkey''. by rewrite Hb in Hkey''. }
    split; [exact Hall|].
    intros data b Hdata Hb.
    destruct (Forall2_elem_of_r _ _ _ data Hall Hdata)
      as ([d dinfo] & _ & Hne & _ & Hbindings). simpl in *.
    destruct (Forall2_elem_of_r _ _ _ b Hbindings Hb) as (key & _ & _ & _ & Htarget).
    congruence.
  - intros rm' definition. apply reconcilePolicyDefinition_is_Some.
    intros b Hb. rewrite Hdeps0 in Hb. rewrite Hlook, decide_True by done.
    by apply fmap_is_Some, Hdom.
  - intros rm' definition c2 err res c3 Hrun2 Hread.
    pose proof (reconcilePolicyDefinition_inv _ _ _ _ _ _ _ Hrun2)
      as (Hcache2 & Hidx2 & _ & _ & Hlook2 & _ & cfg2 & Hrec2 & _).
    pose proof (reconcilePolicyDefinition_consistent _ _ _ _ _ _ _ Hrun2 Hc') as Hc2.
    fold D in Hrec2, Hlook2. simpl in Hrec2.
    unfold latestPolicyData in Hread. rewrite Hcache2 in Hread.
    apply rebuildPolicyData_spec in Hread
      as (_ & _ & Hown & Hsnap & _); [|apply Hc2].
    destruct (Forall2_elem_of_l _ _ _ (D, mkDefinitionInfo (Some definition) cfg2)
                Hsnap) as (data & Hdata & Hentry & _ & Hbindings).
    { by apply elem_of_rangeDefinitions. }
    simpl in Hentry, Hbindings.
    exists data. split; [done|]. split; [by rewrite Hentry|].
    assert (dependentBindings c2 D = dependentBindings c D) as Hdeps.
    { unfold dependentBindings. by rewrite Hidx2, Hidx. }
    rewrite Hdeps in Hbindings.
    eapply Forall2_impl_elem_of; [exact Hbindings|].
    intros key b Hkey%elem_of_rangeBindings Hb. simpl in Hb.
    destruct (Hdom key Hkey) as [before Hbefore]. exists before. split; [done|].
    destruct (Hown D _ key Hrec2) as (_ & _ & Hslot); [by rewrite Hdeps|].
    rewrite Hslot, Hlook2, Hlook in Hb.
    assert (dependentBindings c' D = dependentBindings c D) as Hdeps'.
    { unfold dependentBindings. by rewrite Hidx. }
    rewrite Hdeps', !decide_True, Hbefore in Hb by done.
    simpl in Hb. injection Hb as <-. by rewrite compiledSlot_last.
Qed.

(** ** The index under accepted events *)

Lemma keysHaveDependentsb_spec c : keysHaveDependentsb c = true → keysHaveDependents c.
Proof.
  unfold keysHaveDependentsb. rewrite forallb_forall. intros Hall k deps Hk Hempty.
  specialize (Hall (k, deps)). simpl in Hall.
  rewrite <- list_elem_of_In, elem_of_map_to_list in Hall.
  specialize (Hall Hk). apply negb_true_iff in Hall.
  apply (bool_decide_eq_false_1 _) in Hall. apply Hall. by apply size_zero_empty.
Qed.

Lemma dependentsHaveRecordsb_spec c :
  dependentsHaveRecordsb c = true ↔ dependentsHaveRecords c.
Proof.
  unfold dependentsHaveRecordsb, dependentsHaveRecords.
  rewrite forallb_forall. split.
  - intros Hall k deps b Hk Hb. specialize (Hall (k, deps)). simpl in Hall.
    rewrite <- list_elem_of_In, elem_of_map_to_list in Hall.
    specialize (Hall Hk). rewrite forallb_forall in Hall.
    specialize (Hall b). rewrite <- list_elem_of_In, elem_of_elements in Hall.
    by apply (bool_decide_eq_true_1 _), Hall.
  - intros Hrec [k deps]. rewrite <- list_elem_of_In, elem_of_map_to_list.
    simpl. intros Hk. apply forallb_forall. intros b.
    rewrite <- list_elem_of_In, elem_of_elements. intros Hb.
    apply bool_decide_eq_true_2. by eapply Hrec.
Qed.

(** C2.  For every finite sequence of calls made of events the API server
    delivers (its validation rejects a binding whose [policyName] is empty),
    started from the new controller: no call panics, and after each call of
    the sequence the index has both invariants.  Every key has a set that is
    not empty, and every binding listed under a key has a record; that
    record holds a value, and the value names the key. *)
Theorem index_invariants_after_every_call events n :
  Forall accepted events →
  ∃ c,
    run env (take n events) newPolicyController = Some c ∧
    keysHaveDependents c ∧
    dependentsHaveRecords c ∧
    ∀ k dependents b,
      definitionsToBindings c !! k = Some dependents → b ∈ dependents →
      ∃ info v, bindingInfos c !! b = Some info ∧
                lastReconciledBinding info = Some v ∧
                definitionNameOf (Some v) = k.
Proof.
  intros Hacc.
  destruct (run_accepted (take n events) newPolicyController)
    as (c & Hrun & Hc & Hzero);
    [by apply Forall_take|apply newPolicyController_consistent|done|].
  pose proof (consistent_dependentsHaveRecords c Hc Hzero) as Hrec.
  exists c. split; [done|]. split; [apply Hc|]. split; [done|].
  intros k deps b Hk Hb.
  destruct (Hrec k deps b Hk Hb) as [info Hinfo].
  destruct (consistent_listed _ Hc b info Hinfo) as (v & Hv & _).
  exists info, v. split; [done|]. split; [done|].
  assert (b ∈ dependentBindings c k) as Hin.
  { unfold dependentBindings. by rewrite Hk. }
  apply (consistent_back _ Hc) in Hin. unfold recordedDefinitionNameOf in Hin.
  rewrite Hinfo in Hin. simpl in Hin. by rewrite Hv in Hin.
Qed.

(** X1.  Every run of accepted events from the new controller returns, and ends
    in a state with both invariants written on [definitionsToBindings]. *)
Theorem accepted_run_index_invariants events :
  Forall accepted events →
  ∃ c, run env events newPolicyController = Some c ∧
       keysHaveDependents c ∧ dependentsHaveRecords c.
Proof.
  intros Hadm.
  destruct (run_accepted events newPolicyController Hadm
              newPolicyController_consistent) as (c & Hrun & Hc & Hzero); [done|].
  exists c. split; [done|]. split; [apply Hc|].
  by apply consistent_dependentsHaveRecords.
Qed.

(** X2.  Without restriction on the events, the first invariant still holds in
    every reachable state, and a listed binding without a record can only be
    listed under the zero name. *)
Theorem reachable_index_invariants c :
  reachable env c →
  keysHaveDependents c ∧
  ∀ k dependents b,
    definitionsToBindings c !! k = Some dependents → b ∈ dependents →
    bindingInfos c !! b = None → k = zeroNamespacedName.
Proof.
  intros Hc%reachable_consistent. split; [apply Hc|].
  intros k deps b Hk Hb Hnone.
  destruct (decide (k = zeroNamespacedName)) as [|Hne]; [done|].
  assert (is_Some (bindingInfos c !! b)) as [info Hinfo]; [|congruence].
  eapply consistent_listed_record; [done| |done].
  unfold dependentBindings. by rewrite Hk.
Qed.

(** * Further properties *)

(** ** [reconcilePolicyBinding] *)

(** X3.  [reconcilePolicyBinding] never returns an error, and touches nothing but
    the cache (which it clears), the record of its binding and the index:
    the records of other bindings, the definition records, the parameter
    entries, the loops and the compiler calls are as before. *)
Theorem reconcilePolicyBinding_touches ns nm binding c :
  let c' := (reconcilePolicyBinding ns nm binding c).1 in
  (reconcilePolicyBinding ns nm binding c).2 = None ∧
  cachedPolicies c' = [] ∧
  (∀ b, b ≠ getNamespaceName ns nm → bindingInfos c' !! b = bindingInfos c !! b) ∧
  bindingInfos c' !! getNamespaceName ns nm =
    mkBindingInfo None <$> (Some <$> binding) ∧
  paramsCRDControllers c' = paramsCRDControllers c ∧
  definitionInfo c' = definitionInfo c ∧
  startedLoops c' = startedLoops c ∧
  cancelledContexts c' = cancelledContexts c ∧
  compileCalls c' = compileCalls c ∧
  observedDefinitions c' = observedDefinitions c.
Proof.
  intros c'.
  destruct (reconcilePolicyBinding_frame ns nm binding c)
    as (? & ? & ? & ? & ? & ? & ? & ?).
  split_and!; try done.
  - intros b Hb. subst c'. rewrite reconcilePolicyBinding_bindingInfos.
    destruct binding; by rewrite ?lookup_insert_ne, ?lookup_delete_ne.
  - subst c'. rewrite reconcilePolicyBinding_bindingInfos.
    destruct binding; simpl; by rewrite ?lookup_insert_eq, ?lookup_delete_eq.
Qed.

(** X4.  Reconciling a binding twice with the same value gives the state that
    reconciling it once gives. *)
Theorem reconcilePolicyBinding_twice ns nm binding c :
  let c1 := (reconcilePolicyBinding ns nm binding c).1 in
  (reconcilePolicyBinding ns nm binding c1).1 = c1.
Proof.
  intros c1. set (nn := getNamespaceName ns nm).
  assert (recordedDefinitionNameOf c1 nn = definitionNameOf binding) as Hrec.
  { subst c1. rewrite recordedDefinitionNameOf_reconcilePolicyBinding.
    by rewrite decide_True. }
  pose proof (reconcilePolicyBinding_frame ns nm binding c1)
    as (_ & Hcache & Hparams & Hdefs & Hloops & Hcancel & Hcalls & Hobs).
  pose proof (reconcilePolicyBinding_frame ns nm binding c)
    as (_ & Hcache1 & _).
  fold c1 in Hcache1.
  pose proof (reconcilePolicyBinding_bindingInfos ns nm binding c1) as Hinfos.
  pose proof (reconcilePolicyBinding_bindingInfos ns nm binding c) as Hinfos1.
  pose proof (reconcilePolicyBinding_d2b ns nm binding c1) as Hidx.
  fold nn c1 in Hinfos, Hinfos1, Hidx. simpl in Hidx.
  rewrite Hrec, decide_False in Hidx by (by intros ?).
  assert (definitionsToBindings (reconcilePolicyBinding ns nm binding c1).1
          = definitionsToBindings c1) as Hidx'.
  { rewrite Hidx. destruct binding as [v|]; [|done].
    apply map_eq. intros k. rewrite addToNewDefinition_lookup.
    case_decide as Hk; [|done]. subst k.
    assert (nn ∈ dependentBindings c1 (definitionNameOf (Some v))) as Hin.
    { subst c1. apply elem_of_dependentBindings_reconcilePolicyBinding.
      left. eauto. }
    unfold dependentBindings in *.
    destruct (definitionsToBindings c1 !! _) as [deps|]; simpl in *;
      [|set_solver].
    f_equal. set_solver. }
  assert (bindingInfos (reconcilePolicyBinding ns nm binding c1).1
          = bindingInfos c1) as Hinfos'.
  { rewrite Hinfos, Hinfos1. destruct binding.
    - by rewrite insert_insert_eq.
    - by rewrite delete_delete_eq. }
  destruct (reconcilePolicyBinding ns nm binding c1).1 as [], c1 as [];
    simpl in *. congruence.
Qed.

(** X5.  Deleting a binding that has no record changes nothing but the cache. *)
Theorem reconcilePolicyBinding_delete_unknown ns nm c :
  bindingInfos c !! getNamespaceName ns nm = None →
  (reconcilePolicyBinding ns nm None c).1 = set_cachedPolicies [] c.
Proof.
  intros Hnone. unfold reconcilePolicyBinding. simpl. rewrite Hnone. simpl.
  unfold set_bindingInfos, set_cachedPolicies. simpl.
  by rewrite delete_insert_eq, delete_id.
Qed.

(** X6.  In a reachable state every binding record holds a value and is listed
    under the definition that value names, no binding is listed under two
    definitions, and every definition record holds a value. *)
Theorem reachable_records_and_index c :
  reachable env c →
  (∀ b info, bindingInfos c !! b = Some info →
     ∃ v, lastReconciledBinding info = Some v ∧
          b ∈ dependentBindings c (getNamespaceName "" (Spec_PolicyName v))) ∧
  (∀ b k1 k2, b ∈ dependentBindings c k1 → b ∈ dependentBindings c k2 → k1 = k2) ∧
  (∀ d info, definitionInfo c !! d = Some info →
     is_Some (lastReconciledValue info)).
Proof.
  intros [Hk Hb Hl Hv He]%reachable_consistent. split_and!.
  - exact Hl.
  - intros b k1 k2 H1%Hb H2%Hb. congruence.
  - exact Hv.
Qed.

(** X7.  Deleting a binding whose record names a definition (a non-empty
    [policyName]) in a reachable state removes the record and leaves the
    binding listed under no definition; the listing of the other bindings
    is as before. *)
Theorem reconcilePolicyBinding_delete_unlists ns nm info v c :
  let nn := getNamespaceName ns nm in
  let c' := (reconcilePolicyBinding ns nm None c).1 in
  reachable env c →
  bindingInfos c !! nn = Some info →
  lastReconciledBinding info = Some v →
  Spec_PolicyName v ≠ "" →
  bindingInfos c' !! nn = None ∧
  (∀ k, nn ∉ dependentBindings c' k) ∧
  (∀ k b, b ≠ nn → b ∈ dependentBindings c' k ↔ b ∈ dependentBindings c k).
Proof.
  intros nn c' Hc%reachable_consistent Hinfo Hv Hname.
  assert (recordedDefinitionNameOf c nn = getNamespaceName "" (Spec_PolicyName v))
    as Hrec.
  { unfold recordedDefinitionNameOf. by rewrite Hinfo; simpl; rewrite Hv. }
  split_and!.
  - subst c'. by rewrite reconcilePolicyBinding_bindingInfos, lookup_delete_eq.
  - intros k. subst c'.
    rewrite elem_of_dependentBindings_reconcilePolicyBinding. fold nn.
    intros [(_ & _ & [? [=]])|[Hin Hnot]]. apply Hnot.
    apply (consistent_back _ Hc) in Hin. rewrite Hrec in *.
    split_and!; [done|done|]. simpl. intros [= ?]. done.
  - intros k b Hb. subst c'.
    rewrite elem_of_dependentBindings_reconcilePolicyBinding. fold nn.
    split; [intros [(? & _)|[? _]]; done|]. intros Hin. right.
    split; [done|]. by intros (? & _).
Qed.

(** ** [reconcilePolicyDefinition] *)

(** X8.  The call panics exactly when the index lists, under the identity being
    reconciled, a binding that has no record: line 188 then assigns through
    a nil pointer.  Nothing else in the function can fail. *)
Theorem reconcilePolicyDefinition_panics_iff rm ns nm definition c :
  reconcilePolicyDefinition env rm ns nm definition c = None ↔
  ∃ b, b ∈ dependentBindings c (getNamespaceName ns nm) ∧
       bindingInfos c !! b = None.
Proof.
  pose proof (reconcilePolicyDefinition_is_Some rm ns nm definition c) as Hiff.
  split.
  - intros Hnone.
    destruct (decide (set_Exists (λ b, bindingInfos c !! b = None)
                        (dependentBindings c (getNamespaceName ns nm))))
      as [(b & ? & ?)|Hall]; [by exists b|].
    destruct Hiff as [_ Hsome]. rewrite Hnone in Hsome.
    destruct Hsome as [? [=]]. intros b Hb.
    destruct (bindingInfos c !! b) eqn:Hlook; [done|].
    destruct Hall. by exists b.
  - intros (b & Hb & Hnone).
    destruct (reconcilePolicyDefinition env rm ns nm definition c) eqn:Hrun;
      [|done].
    destruct Hiff as [Hdom _]. destruct (Hdom (mk_is_Some _ _ eq_refl) b Hb).
    congruence.
Qed.

(** X9.  A returning call reports the definition to the metrics exactly when it
    found no record for the identity, a deletion of an unknown definition
    included. *)
Theorem reconcilePolicyDefinition_observes rm ns nm definition c c' err :
  reconcilePolicyDefinition env rm ns nm definition c = Some (c', err) →
  observedDefinitions c' =
    match definitionInfo c !! getNamespaceName ns nm with
    | Some _ => observedDefinitions c
    | None => S (observedDefinitions c)
    end.
Proof.
  intros Hrun.
  pose proof (reconcilePolicyDefinition_inv _ _ _ _ _ _ _ Hrun) as (_&_&_&Hdom&_).
  destruct (reconcilePolicyDefinition_unfold rm ns nm definition c Hdom)
    as (c1 & Hrun1 & _ & _ & _ & _ & _ & _ & _ & Hobs & _).
  assert ((c', err) = storeDefinition env rm (getNamespaceName ns nm) definition c1)
    as Heq by congruence.
  apply (f_equal fst) in Heq. simpl in Heq. rewrite <- Hobs, Heq.
  apply (storeDefinition_frame rm (getNamespaceName ns nm) definition c1).
Qed.

(** X10.  A returning call leaves the index, the compiler calls, the records of
    the other definitions and the records of the bindings not listed under
    the definition as they were, and touches no parameter entry other than
    those of the kind the definition declared before and the kind it
    declares now. *)
Theorem reconcilePolicyDefinition_touches rm ns nm definition c c' err :
  let nn := getNamespaceName ns nm in
  reconcilePolicyDefinition env rm ns nm definition c = Some (c', err) →
  cachedPolicies c' = [] ∧
  definitionsToBindings c' = definitionsToBindings c ∧
  compileCalls c' = compileCalls c ∧
  (∀ d, d ≠ nn → definitionInfo c' !! d = definitionInfo c !! d) ∧
  (∀ b, b ∉ dependentBindings c nn → bindingInfos c' !! b = bindingInfos c !! b) ∧
  (∀ k, ((definitionInfo c !! nn ≫= lastReconciledValue) ≫= Spec_ParamKind) ≠ Some k →
        definition ≫= Spec_ParamKind ≠ Some k →
        paramsCRDControllers c' !! k = paramsCRDControllers c !! k).
Proof.
  intros nn Hrun.
  pose proof (reconcilePolicyDefinition_inv _ _ _ _ _ _ _ Hrun)
    as (Hcache & Hidx & Hcalls & Hdom & Hlook & Hother & _).
  split_and!; try done.
  - intros b Hb. by rewrite Hlook, decide_False.
  - intros k Hold Hnew.
    destruct (reconcilePolicyDefinition_unfold rm ns nm definition c Hdom)
      as (c1 & Hrun1 & _ & Hparams & _). fold nn in Hrun1, Hparams.
    assert ((c', err) = storeDefinition env rm nn definition c1) as Heq
      by congruence.
    apply (f_equal fst) in Heq as Hc'. simpl in Hc'.
    assert (paramsCRDControllers c1 !! k = paramsCRDControllers c !! k) as <-.
    { rewrite Hparams. apply releaseOldParamSource_lookup. right.
      destruct (definitionInfo c !! nn); simpl in *; [done|]. by intros ?. }
    rewrite Hc'. unfold storeDefinition, startParamController.
    destruct definition as [v|]; simpl in *; [|done].
    repeat case_match; simpl; try done.
    rewrite lookup_insert_ne; [done|]. congruence.
Qed.

(** X11.  What a returning call for a value (not a deletion) reports and records.
    It returns an error exactly when the declared kind parses and the
    mapper fails on it, and the error returned is the one recorded.  It
    records an error exactly when the declared kind does not parse or is not
    resolved.  When it records none and a kind is declared, the kind has an
    entry. *)
Theorem reconcilePolicyDefinition_outcome rm ns nm definition c c' err :
  let nn := getNamespaceName ns nm in
  reconcilePolicyDefinition env rm ns nm (Some definition) c = Some (c', err) →
  ∃ cfg,
    definitionInfo c' !! nn = Some (mkDefinitionInfo (Some definition) cfg) ∧
    (is_Some err → err = cfg) ∧
    (is_Some err ↔
       ∃ k gv e, Spec_ParamKind definition = Some k ∧
                 ParseGroupVersion env (APIVersion k) = Ok gv ∧
                 rm (mkGroupKind (gvGroup gv) (Kind k)) (gvVersion gv) = Err e) ∧
    (is_Some cfg ↔
       ∃ k, Spec_ParamKind definition = Some k ∧
            match ParseGroupVersion env (APIVersion k) with
            | Err _ => True
            | Ok gv =>
                ∃ e, rm (mkGroupKind (gvGroup gv) (Kind k)) (gvVersion gv) = Err e
            end) ∧
    (∀ k, cfg = None → Spec_ParamKind definition = Some k →
          is_Some (paramsCRDControllers c' !! k)).
Proof.
  intros nn Hrun.
  pose proof (reconcilePolicyDefinition_inv _ _ _ _ _ _ _ Hrun) as (_&_&_&Hdom&_).
  destruct (reconcilePolicyDefinition_unfold rm ns nm (Some definition) c Hdom)
    as (c1 & Hrun1 & _). fold nn in Hrun1.
  assert ((c', err) = storeDefinition env rm nn (Some definition) c1) as Heq
    by congruence.
  apply (f_equal fst) in Heq as Hc'. apply (f_equal snd) in Heq as Herr.
  clear Hrun1 Heq. simpl in Hc', Herr.
  unfold storeDefinition, startParamController in Hc', Herr.
  destruct (Spec_ParamKind definition) as [k|] eqn:Hkind.
  - destruct (ParseGroupVersion env (APIVersion k)) as [gv|e] eqn:Hparse.
    + destruct (rm _ _) as [mapping|e] eqn:Hrm.
      * destruct (paramsCRDControllers _ !! k) as [entry|] eqn:Hentry;
          simpl in *; subst c' err; eexists; simpl; rewrite ?lookup_insert_eq;
          (split_and!; [done|by intros [? [=]]| | |]).
        -- split; [by intros [? [=]]|]. intros (k' & gv' & e & [= <-] & Hp & Hr).
           rewrite Hparse in Hp. injection Hp as <-. congruence.
        -- split; [by intros [? [=]]|]. intros (k' & [= <-] & Hm).
           rewrite Hparse in Hm. destruct Hm as [e ?]. congruence.
        -- intros k' _ [= <-]. by rewrite Hentry.
        -- split; [by intros [? [=]]|]. intros (k' & gv' & e & [= <-] & Hp & Hr).
           rewrite Hparse in Hp. injection Hp as <-. congruence.
        -- split; [by intros [? [=]]|]. intros (k' & [= <-] & Hm).
           rewrite Hparse in Hm. destruct Hm as [e ?]. congruence.
        -- intros k' _ [= <-]. by rewrite lookup_insert_eq.
      * simpl in *. subst c' err. eexists. simpl. rewrite lookup_insert_eq.
        split_and!; [done|by intros _| | |done].
        -- split; [|done]. intros _. by exists k, gv, e.
        -- split; [|done]. intros _. exists k. split; [done|].
           rewrite Hparse. by exists e.
    + simpl in *. subst c' err. eexists. simpl. rewrite lookup_insert_eq.
      split_and!; [done|by intros [? [=]]| | |done].
      * split; [by intros [? [=]]|]. intros (k' & gv' & e' & [= <-] & Hp & _).
        congruence.
      * split; [|done]. intros _. exists k. by rewrite Hparse.
  - simpl in *. subst c' err. eexists. simpl. rewrite lookup_insert_eq.
    split_and!; [done|by intros [? [=]]| | |done].
    + split; [by intros [? [=]]|]. by intros (k & ? & ? & [=] & _).
    + split; [by intros [? [=]]|]. by intros (k & [=] & _).
Qed.

(** ** [latestPolicyData] *)

(** X12.  A read that finds the cache absent returns one entry for each definition
    record, in some order, and stores the list it returns as the cache; a
    read that finds a cache returns it and changes nothing. *)
Theorem latestPolicyData_entries c res c' :
  latestPolicyData env c = Some (res, c') →
  match cachedPolicies c with
  | [] =>
      pdDefinitionInfo <$> res ≡ₚ (map_to_list (definitionInfo c)).*2 ∧
      length res = size (definitionInfo c) ∧
      cachedPolicies c' = res
  | cached => res = cached ∧ c' = c
  end.
Proof.
  unfold latestPolicyData. destruct (cachedPolicies c) as [|data cached].
  - intros (Hcache&_&_&_&_&_&_&Hall)%rebuildPolicyData_frame.
    assert (pdDefinitionInfo <$> res = (rangeDefinitions env (definitionInfo c)).*2)
      as Heq.
    { clear Hcache. induction Hall as [|[d info] data' ? ? Hhead _ IH]; [done|].
      rewrite !fmap_cons. simpl in Hhead. by rewrite Hhead, IH. }
    split_and!; [|
      |done].
    + by rewrite Heq, (rangeDefinitions_perm env).
    + rewrite <- (length_fmap pdDefinitionInfo), Heq, length_fmap,
        (rangeDefinitions_perm env). apply length_map_to_list.
  - by intros [= <- <-].
Qed.

(** X13.  A returning read of a reachable state changes no definition record, no
    index entry, no parameter entry and no loop.  Every binding record stays,
    with its last value, and a record that held a compiled validator holds
    the same one afterwards. *)
Theorem latestPolicyData_touches c res c' :
  reachable env c →
  latestPolicyData env c = Some (res, c') →
  definitionInfo c' = definitionInfo c ∧
  definitionsToBindings c' = definitionsToBindings c ∧
  paramsCRDControllers c' = paramsCRDControllers c ∧
  startedLoops c' = startedLoops c ∧
  cancelledContexts c' = cancelledContexts c ∧
  observedDefinitions c' = observedDefinitions c ∧
  (∀ b, bindingInfos c !! b = None → bindingInfos c' !! b = None) ∧
  (∀ b info, bindingInfos c !! b = Some info →
     ∃ info', bindingInfos c' !! b = Some info' ∧
              lastReconciledBinding info' = lastReconciledBinding info ∧
              (is_Some (validator info) → validator info' = validator info)).
Proof.
  intros Hc%reachable_consistent. unfold latestPolicyData.
  destruct (cachedPolicies c) as [|data cached].
  - intros Hrun. apply rebuildPolicyData_spec in Hrun
      as ((_&?&?&?&?&?&?) & Hun & Hown & _); [|apply Hc].
    assert (∀ b, bindingInfos c' !! b = bindingInfos c !! b ∨
                 ∃ info, bindingInfos c' !! b = compiledSlot env info <$> bindingInfos c !! b)
      as Hcases.
    { intros b.
      destruct (definitionInfo c !! recordedDefinitionNameOf c b) as [info|] eqn:Hd.
      - destruct (decide (b ∈ dependentBindings c (recordedDefinitionNameOf c b)))
          as [Hin|Hnin].
        + right. exists info. by apply (Hown _ _ _ Hd Hin).
        + left. apply Hun. intros d _ Hin.
          by rewrite (consistent_back _ Hc _ _ Hin) in Hnin.
      - left. apply Hun. intros d [info Hinfo] Hin.
        rewrite (consistent_back _ Hc _ _ Hin) in Hd. congruence. }
    split_and!; try done.
    + intros b Hnone. destruct (Hcases b) as [->|[info ->]]; [done|].
      by rewrite Hnone.
    + intros b info Hinfo. destruct (Hcases b) as [Heq|[dinfo Heq]];
        rewrite Heq, Hinfo; simpl; eexists; (split; [done|]).
      * done.
      * rewrite compiledSlot_last, compiledSlot_validator. split; [done|].
        intros [v Hv]. rewrite bool_decide_eq_false_2; [done|].
        rewrite Hv. by intros [? _].
  - intros [= _ <-]. split_and!; try done. intros b info ->. eauto.
Qed.

(** *** No compiled validator is stale *)

Lemma reconcilePolicyBinding_validatorsAreCurrent ns nm binding c :
  validatorsAreCurrent env c →
  validatorsAreCurrent env (reconcilePolicyBinding ns nm binding c).1.
Proof.
  intros Hcur b binfo v.
  destruct (reconcilePolicyBinding_frame ns nm binding c)
    as (_ & _ & _ & -> & _).
  rewrite reconcilePolicyBinding_bindingInfos,
    recordedDefinitionNameOf_reconcilePolicyBinding.
  destruct (decide (b = getNamespaceName ns nm)) as [->|Hne].
  - destruct binding.
    + rewrite lookup_insert_eq. by intros [= <-].
    + by rewrite lookup_delete_eq.
  - intros Hb. apply Hcur.
    destruct binding; by rewrite ?lookup_insert_ne, ?lookup_delete_ne in Hb.
Qed.

Lemma reconcilePolicyDefinition_validatorsAreCurrent rm ns nm definition c c' err :
  reconcilePolicyDefinition env rm ns nm definition c = Some (c', err) →
  consistent c → validatorsAreCurrent env c → validatorsAreCurrent env c'.
Proof.
  intros (_ & Hidx & _ & _ & Hlook & Hother & _)%reconcilePolicyDefinition_inv
    Hc Hcur b binfo v.
  set (nn := getNamespaceName ns nm) in *.
  assert (recordedDefinitionNameOf c' b = recordedDefinitionNameOf c b) as ->.
  { apply recordedDefinitionNameOf_ext. rewrite Hlook. case_decide; [|done].
    by destruct (bindingInfos c !! b). }
  rewrite Hlook.
  destruct (decide (b ∈ dependentBindings c nn)) as [Hin|Hnin].
  - destruct (bindingInfos c !! b); [|done]. by intros [= <-].
  - intros Hb Hv. destruct (Hcur b binfo v Hb Hv) as (dinfo & Hd & ? & ?).
    exists dinfo. split; [|done]. rewrite Hother; [done|].
    intros Heq. apply Hnin. rewrite <- Heq.
    destruct (consistent_listed _ Hc b binfo Hb) as (v' & Hv' & Hlisted).
    unfold recordedDefinitionNameOf. by rewrite Hb; simpl; rewrite Hv'.
Qed.

Lemma rebuildPolicyData_validatorsAreCurrent c res c' :
  rebuildPolicyData env c = Some (res, c') →
  consistent c → validatorsAreCurrent env c → validatorsAreCurrent env c'.
Proof.
  intros Hrun Hc Hcur b binfo' v.
  apply rebuildPolicyData_spec in Hrun
    as ((_ & _ & Hdefs & Hidx & _) & Hun & Hown & _); [|apply Hc].
  rewrite Hdefs.
  destruct (definitionInfo c !! recordedDefinitionNameOf c b) as [info|] eqn:Hd.
  - destruct (decide (b ∈ dependentBindings c (recordedDefinitionNameOf c b)))
      as [Hin|Hnin].
    + destruct (Hown _ _ _ Hd Hin) as (_ & _ & Heq).
      assert (recordedDefinitionNameOf c' b = recordedDefinitionNameOf c b) as ->.
      { apply recordedDefinitionNameOf_ext. rewrite Heq.
        destruct (bindingInfos c !! b); [|done]. simpl.
        by rewrite compiledSlot_last. }
      rewrite Heq, Hd.
      destruct (bindingInfos c !! b) as [binfo|] eqn:Hb; [|done]. simpl.
      intros [= <-]. rewrite compiledSlot_validator.
      case_bool_decide as Hneed.
      * intros Hv. exists info. by destruct Hneed.
      * intros Hv. destruct (Hcur b binfo v Hb Hv) as (dinfo & Hd' & ? & ?).
        rewrite Hd in Hd'. injection Hd' as <-. by exists info.
    + assert (bindingInfos c' !! b = bindingInfos c !! b) as Heq.
      { apply Hun. intros d _ Hin.
        by rewrite (consistent_back _ Hc _ _ Hin) in Hnin. }
      assert (recordedDefinitionNameOf c' b = recordedDefinitionNameOf c b) as ->.
      { apply recordedDefinitionNameOf_ext. by rewrite Heq. }
      rewrite Heq, Hd. intros Hb Hv.
      destruct (Hcur b binfo' v Hb Hv) as (dinfo & Hd' & ? & ?).
      rewrite Hd in Hd'. injection Hd' as <-. by exists info.
  - assert (bindingInfos c' !! b = bindingInfos c !! b) as Heq.
    { apply Hun. intros d [info Hinfo] Hin.
      rewrite (consistent_back _ Hc _ _ Hin) in Hd. congruence. }
    assert (recordedDefinitionNameOf c' b = recordedDefinitionNameOf c b) as ->.
    { apply recordedDefinitionNameOf_ext. by rewrite Heq. }
    rewrite Heq. intros Hb Hv.
    destruct (Hcur b binfo' v Hb Hv) as (dinfo & Hd' & _). congruence.
Qed.

Lemma step_validatorsAreCurrent e c c' :
  step env e c = Some c' →
  consistent c → validatorsAreCurrent env c → validatorsAreCurrent env c'.
Proof.
  destruct e as [rm ns nm definition|ns nm binding| |]; simpl.
  - destruct (reconcilePolicyDefinition env rm ns nm definition c)
      as [[c1 err]|] eqn:Hrun; [|done].
    intros [= <-]. by eapply reconcilePolicyDefinition_validatorsAreCurrent.
  - intros [= <-] _. apply reconcilePolicyBinding_validatorsAreCurrent.
  - unfold latestPolicyData. destruct (cachedPolicies c).
    + destruct (rebuildPolicyData env c) as [[res c1]|] eqn:Hrun; [|done].
      intros [= <-]. by eapply rebuildPolicyData_validatorsAreCurrent.
    + by intros [= <-].
  - destruct (rebuildPolicyData env c) as [[res c1]|] eqn:Hrun; [|done].
    intros [= <-]. by eapply rebuildPolicyData_validatorsAreCurrent.
Qed.

Lemma run_validatorsAreCurrent events c c' :
  run env events c = Some c' →
  consistent c → validatorsAreCurrent env c → validatorsAreCurrent env c'.
Proof.
  revert c. induction events as [|e events IH]; intros c; simpl.
  - by intros [= <-].
  - destruct (step env e c) as [c1|] eqn:Hstep; [|done]. simpl.
    intros Hrun Hc Hcur. eapply IH; [done| |].
    + by eapply step_consistent.
    + by eapply step_validatorsAreCurrent.
Qed.

(** X14.  In a reachable state a binding record that holds a compiled validator
    targets a known definition without configuration error, and the
    validator is what the compiler returns for the value now stored for that
    definition: a change of the definition or of the binding never leaves an
    old validator behind. *)
Theorem reachable_validators_current c b binfo v :
  reachable env c →
  bindingInfos c !! b = Some binfo → validator binfo = Some v →
  ∃ target dinfo,
    lastReconciledBinding binfo = Some target ∧
    definitionInfo c !! getNamespaceName "" (Spec_PolicyName target) = Some dinfo ∧
    configurationError dinfo = None ∧
    Compile env (lastReconciledValue dinfo) = Some v.
Proof.
  intros Hreach Hb Hv. pose proof (reachable_consistent _ Hreach) as Hc.
  destruct Hreach as [events Hrun].
  assert (validatorsAreCurrent env c) as Hcur.
  { eapply run_validatorsAreCurrent;
      [done|apply newPolicyController_consistent|by intros ?]. }
  destruct (Hcur b binfo v Hb Hv) as (dinfo & Hd & ? & ?).
  destruct (consistent_listed _ Hc b binfo Hb) as (target & Htarget & _).
  exists target, dinfo. split_and!; try done.
  unfold recordedDefinitionNameOf in Hd.
  by rewrite Hb in Hd; simpl in Hd; rewrite Htarget in Hd.
Qed.

(** ** The parameter entries and their loops *)

(** What [storeDefinition] does to the entries and the loops: nothing, or one
    new entry for the declared kind, which had none, with a loop under the
    next context. *)
Lemma storeDefinition_params rm nn definition c :
  let c' := (storeDefinition env rm nn definition c).1 in
  cancelledContexts c' = cancelledContexts c ∧
  ((paramsCRDControllers c' = paramsCRDControllers c ∧
    startedLoops c' = startedLoops c) ∨
   (∃ K ctl,
      definition ≫= Spec_ParamKind = Some K ∧
      paramsCRDControllers c !! K = None ∧
      ctlContext ctl = length (startedLoops c) ∧
      paramsCRDControllers c' =
        <[K := mkParamInfo ctl (length (startedLoops c)) {[nn]}]>
          (paramsCRDControllers c) ∧
      startedLoops c' = startedLoops c ++ [ctl])).
Proof.
  unfold storeDefinition, startParamController.
  destruct definition as [v|]; simpl; [|by split; [|left]].
  destruct (Spec_ParamKind v) as [K|] eqn:HK; simpl; [|by split; [|left]].
  destruct (ParseGroupVersion env (APIVersion K)); simpl; [|by split; [|left]].
  destruct (rm _ _) as [mapping|]; simpl; [|by split; [|left]].
  destruct (paramsCRDControllers c !! K) eqn:Hentry; simpl; [by split; [|left]|].
  split; [done|]. right.
  exists K, (mkParamController (length (startedLoops c)) (Resource mapping)
               (ParamKindString env K +:+ "-controller")).
  by split_and!.
Qed.

Lemma loopsAccounted_ext c c' :
  paramsCRDControllers c' = paramsCRDControllers c →
  startedLoops c' = startedLoops c →
  cancelledContexts c' = cancelledContexts c →
  loopsAccounted c → loopsAccounted c'.
Proof.
  intros Hp Hs Hx [H1 H2 H3 H4 H5].
  split; rewrite ?Hp, ?Hs, ?Hx; done.
Qed.

Lemma releaseOldParamSource_loopsAccounted nn info paramSource c :
  loopsAccounted c → loopsAccounted (releaseOldParamSource nn info paramSource c).
Proof.
  intros Hacc. pose proof Hacc as [H1 H2 H3 H4 H5].
  unfold releaseOldParamSource.
  destruct (lastReconciledValue info ≫= Spec_ParamKind) as [K|]; [|done].
  case_decide; [|done].
  destruct (paramsCRDControllers c !! K) as [entry|] eqn:Hentry; [|done].
  destruct (H3 _ _ Hentry) as [Hrun Hlive].
  case_decide.
  - split; simpl.
    + done.
    + intros i [->%elem_of_singleton|Hi]%elem_of_union; [|by apply H2].
      by apply lookup_lt_Some in Hrun.
    + intros k entry' [Hne Hk]%lookup_delete_Some.
      destruct (H3 _ _ Hk) as [? ?]. split; [done|].
      intros [Heq%elem_of_singleton|?]%elem_of_union; [|done].
      apply Hne. symmetry. by eapply H4.
    + intros k1 k2 e1 e2 [_ Hk1]%lookup_delete_Some [_ Hk2]%lookup_delete_Some.
      by apply H4.
    + intros i ctl Hi Hnot.
      destruct (H5 i ctl Hi) as (k & entry' & Hk & Hstop); [set_solver|].
      exists k, entry'. split; [|done]. apply lookup_delete_Some. split; [|done].
      intros <-. rewrite Hentry in Hk. injection Hk as <-. set_solver.
  - split; simpl.
    + done.
    + done.
    + intros k entry' [[<- <-]|[Hne Hk]]%lookup_insert_Some; simpl; [done|].
      by eapply H3.
    + intros k1 k2 e1 e2 [[<- <-]|[Hne1 Hk1]]%lookup_insert_Some
        [[<- <-]|[Hne2 Hk2]]%lookup_insert_Some; simpl; try done.
      * intros Heq. by eapply H4.
      * intros Heq. by eapply H4.
      * by apply H4.
    + intros i ctl Hi Hnot.
      destruct (H5 i ctl Hi Hnot) as (k & entry' & Hk & Hstop).
      destruct (decide (k = K)) as [->|Hne].
      * rewrite Hentry in Hk. injection Hk as <-.
        eexists K, _. by rewrite lookup_insert_eq.
      * exists k, entry'. by rewrite lookup_insert_ne.
Qed.

Lemma storeDefinition_loopsAccounted rm nn definition c :
  loopsAccounted c → loopsAccounted (storeDefinition env rm nn definition c).1.
Proof.
  intros Hacc. pose proof Hacc as [H1 H2 H3 H4 H5].
  destruct (storeDefinition_params rm nn definition c)
    as [Hx [[Hp Hs]|(K & ctl & _ & Hnone & Hctx & Hp & Hs)]].
  - by eapply loopsAccounted_ext.
  - split; rewrite ?Hp, ?Hs, ?Hx.
    + intros i ctl' [Hi|[Hge Hlast]]%lookup_app_Some; [by apply H1|].
      apply list_lookup_singleton_Some in Hlast as [Hz <-]. lia.
    + intros i Hi%H2. rewrite length_app. lia.
    + intros k entry [[<- <-]|[Hne Hk]]%lookup_insert_Some; simpl.
      * split.
        -- rewrite lookup_app_r, Nat.sub_diag by done. done.
        -- intros Hin%H2. lia.
      * destruct (H3 _ _ Hk) as [Hrun ?]. split; [|done].
        by apply lookup_app_l_Some.
    + intros k1 k2 e1 e2 [[<- <-]|[Hne1 Hk1]]%lookup_insert_Some
        [[<- <-]|[Hne2 Hk2]]%lookup_insert_Some; simpl; try done.
      * intros Heq. destruct (H3 _ _ Hk2) as [Hrun%lookup_lt_Some _]. lia.
      * intros Heq. destruct (H3 _ _ Hk1) as [Hrun%lookup_lt_Some _]. lia.
      * by apply H4.
    + intros i ctl' [Hi|[Hge Hlast]]%lookup_app_Some Hnot.
      * destruct (H5 i ctl' Hi Hnot) as (k & entry & Hk & Hstop).
        exists k, entry. split; [|done]. rewrite lookup_insert_ne; [done|].
        intros <-. congruence.
      * apply list_lookup_singleton_Some in Hlast as [Hz <-].
        eexists K, _. rewrite lookup_insert_eq. split; [done|]. simpl. lia.
Qed.

Lemma reconcilePolicyDefinition_loopsAccounted rm ns nm definition c c' err :
  reconcilePolicyDefinition env rm ns nm definition c = Some (c', err) →
  loopsAccounted c → loopsAccounted c'.
Proof.
  intros Hrun Hacc.
  pose proof (reconcilePolicyDefinition_inv _ _ _ _ _ _ _ Hrun) as (_&_&_&Hdom&_).
  destruct (reconcilePolicyDefinition_unfold rm ns nm definition c Hdom)
    as (c1 & Hrun1 & _ & Hparams & Hcancel & _ & _ & Hloops & _).
  assert ((c', err) = storeDefinition env rm (getNamespaceName ns nm) definition c1)
    as Heq by congruence.
  apply (f_equal fst) in Heq. simpl in Heq. rewrite Heq.
  apply storeDefinition_loopsAccounted.
  eapply loopsAccounted_ext;
    [exact Hparams|..|by apply releaseOldParamSource_loopsAccounted].
  - rewrite Hloops. symmetry. apply releaseOldParamSource_frame.
  - exact Hcancel.
Qed.

Lemma step_loopsAccounted e c c' :
  step env e c = Some c' → loopsAccounted c → loopsAccounted c'.
Proof.
  destruct e as [rm ns nm definition|ns nm binding| |]; simpl.
  - destruct (reconcilePolicyDefinition env rm ns nm definition c)
      as [[c1 err]|] eqn:Hrun; [|done].
    intros [= <-]. by eapply reconcilePolicyDefinition_loopsAccounted.
  - intros [= <-].
    destruct (reconcilePolicyBinding_frame ns nm binding c)
      as (_ & _ & ? & _ & ? & ? & _).
    by apply loopsAccounted_ext.
  - unfold latestPolicyData. destruct (cachedPolicies c).
    + destruct (rebuildPolicyData env c) as [[res c1]|] eqn:Hrun; [|done].
      intros [= <-]. apply rebuildPolicyData_frame in Hrun as (_&?&_&_&?&?&_).
      by apply loopsAccounted_ext.
    + by intros [= <-].
  - destruct (rebuildPolicyData env c) as [[res c1]|] eqn:Hrun; [|done].
    intros [= <-]. apply rebuildPolicyData_frame in Hrun as (_&?&_&_&?&?&_).
    by apply loopsAccounted_ext.
Qed.

Lemma run_loopsAccounted events c c' :
  run env events c = Some c' → loopsAccounted c → loopsAccounted c'.
Proof.
  revert c. induction events as [|e events IH]; intros c; simpl.
  - by intros [= <-].
  - destruct (step env e c) as [c1|] eqn:Hstep; [|done]. simpl.
    intros Hrun Hacc. eapply IH; [done|]. by eapply step_loopsAccounted.
Qed.

(** X15.  In a reachable state the loops and the entries account for each other:
    the context of the [i]-th started loop is [i]; an entry holds a started
    loop whose context is not cancelled; two entries never hold the same
    loop; and every started loop is either cancelled or held by an entry, so
    none runs unowned. *)
Theorem reachable_loops_accounted c :
  reachable env c →
  (∀ k entry, paramsCRDControllers c !! k = Some entry →
     startedLoops c !! stop entry = Some (controller entry) ∧
     ctlContext (controller entry) = stop entry ∧
     stop entry ∉ cancelledContexts c) ∧
  (∀ k1 k2 entry1 entry2,
     paramsCRDControllers c !! k1 = Some entry1 →
     paramsCRDControllers c !! k2 = Some entry2 →
     stop entry1 = stop entry2 → k1 = k2) ∧
  (∀ i ctl, startedLoops c !! i = Some ctl →
     i ∈ cancelledContexts c ∨
     ∃ k entry, paramsCRDControllers c !! k = Some entry ∧ controller entry = ctl) ∧
  (∀ i, i ∈ cancelledContexts c → i < length (startedLoops c)).
Proof.
  intros [events Hrun].
  assert (loopsAccounted c) as [H1 H2 H3 H4 H5].
  { eapply run_loopsAccounted; [done|]. split; simpl; try done; set_solver. }
  split_and!.
  - intros k entry Hk. destruct (H3 _ _ Hk) as [Hrun' ?].
    split_and!; try done. by apply H1 in Hrun'.
  - exact H4.
  - intros i ctl Hi. destruct (decide (i ∈ cancelledContexts c)) as [|Hnot];
      [by left|right].
    destruct (H5 i ctl Hi Hnot) as (k & entry & Hk & Hstop).
    exists k, entry. split; [done|]. destruct (H3 _ _ Hk) as [Hrun' _].
    rewrite Hstop in Hrun'. congruence.
  - exact H2.
Qed.

Lemma releaseOldParamSource_dependents nn info paramSource c k entry d :
  paramsCRDControllers (releaseOldParamSource nn info paramSource c) !! k
    = Some entry →
  d ∈ dependentDefinitions entry →
  dependentDefinitions entry ≠ ∅ ∧
  ∃ entry0,
    paramsCRDControllers c !! k = Some entry0 ∧
    d ∈ dependentDefinitions entry0 ∧
    (d = nn → lastReconciledValue info ≫= Spec_ParamKind = Some k →
     paramSource = Some k).
Proof.
  unfold releaseOldParamSource. intros Hk Hd.
  split; [set_solver|].
  destruct (lastReconciledValue info ≫= Spec_ParamKind) as [K|];
    [|exists entry; by split_and!].
  case_decide as Hchange.
  - destruct (paramsCRDControllers c !! K) as [entryK|] eqn:HK.
    + case_decide; simpl in Hk.
      * apply lookup_delete_Some in Hk as [Hne Hk]. exists entry.
        split_and!; [done|done|]. by intros _ [= ->].
      * apply lookup_insert_Some in Hk as [[<- <-]|[Hne Hk]]; simpl in *.
        -- exists entryK. split_and!; [done|set_solver|]. set_solver.
        -- exists entry. split_and!; [done|done|]. by intros _ [= ->].
    + exists entry. split_and!; [done|done|]. intros _ [= ->]. congruence.
  - exists entry. split_and!; [done|done|]. intros _ [= ->].
    destruct paramSource as [k'|]; [|by destruct Hchange; left].
    destruct (decide (k' = k)) as [->|]; [done|].
    destruct Hchange. right. congruence.
Qed.

Lemma releaseOldParamSource_entriesHaveDependents nn info paramSource c :
  entriesHaveDependents c →
  entriesHaveDependents (releaseOldParamSource nn info paramSource c).
Proof.
  intros Hent k entry. unfold releaseOldParamSource.
  destruct (lastReconciledValue info ≫= Spec_ParamKind) as [K|]; [|by apply Hent].
  case_decide; [|by apply Hent].
  destruct (paramsCRDControllers c !! K) as [entryK|] eqn:HK; [|by apply Hent].
  case_decide as Hsize; simpl.
  - intros [_ Hk]%lookup_delete_Some. by eapply Hent.
  - intros [[<- <-]|[_ Hk]]%lookup_insert_Some; simpl; [|by eapply Hent].
    by rewrite <- size_zero_empty.
Qed.

Lemma reconcilePolicyDefinition_entries rm ns nm definition c c' err :
  reconcilePolicyDefinition env rm ns nm definition c = Some (c', err) →
  entriesHaveDependents c → dependentsDeclareKind c →
  entriesHaveDependents c' ∧ dependentsDeclareKind c'.
Proof.
  intros Hrun Hent Hdecl.
  pose proof (reconcilePolicyDefinition_inv _ _ _ _ _ _ _ Hrun)
    as (_ & _ & _ & Hdom & _ & Hother & cfg & Hrec & _).
  set (nn := getNamespaceName ns nm) in *.
  destruct (reconcilePolicyDefinition_unfold rm ns nm definition c Hdom)
    as (c1 & Hrun1 & _ & Hparams & _). fold nn in Hrun1, Hparams.
  assert ((c', err) = storeDefinition env rm nn definition c1) as Heq
    by congruence.
  apply (f_equal fst) in Heq. simpl in Heq.
  set (info0 := default (mkDefinitionInfo None None) (definitionInfo c !! nn)) in *.
  set (new := definition ≫= Spec_ParamKind) in *.
  (* an entry that survived the release *)
  assert (∀ k entry d,
            paramsCRDControllers c1 !! k = Some entry →
            d ∈ dependentDefinitions entry →
            ∃ info v, definitionInfo c' !! d = Some info ∧
                      lastReconciledValue info = Some v ∧
                      Spec_ParamKind v = Some k) as Hold.
  { intros k entry d Hk Hd. rewrite Hparams in Hk.
    destruct (releaseOldParamSource_dependents _ _ _ _ _ _ _ Hk Hd)
      as (_ & entry0 & Hk0 & Hd0 & Hnn).
    destruct (Hdecl _ _ _ Hk0 Hd0) as (info & v & Hinfo & Hv & Hkind).
    destruct (decide (d = nn)) as [->|Hne].
    - assert (new = Some k) as Hnew.
      { apply Hnn; [done|]. subst info0. rewrite Hinfo. simpl.
        by rewrite Hv. }
      subst new. destruct definition as [v'|]; [|done]. simpl in Hnew.
      rewrite Hrec. simpl. eauto.
    - rewrite Hother by done. eauto. }
  destruct (storeDefinition_params rm nn definition c1)
    as [_ [[Hp _]|(K & ctl & Hnew & Hnone & _ & Hp & _)]];
    rewrite <- Heq in Hp.
  - split.
    + intros k entry. rewrite Hp, Hparams.
      by apply releaseOldParamSource_entriesHaveDependents.
    + intros k entry d. rewrite Hp. apply Hold.
  - split.
    + intros k entry. rewrite Hp.
      intros [[<- <-]|[_ Hk]]%lookup_insert_Some; simpl; [set_solver|].
      rewrite Hparams in Hk.
      by eapply releaseOldParamSource_entriesHaveDependents.
    + intros k entry d. rewrite Hp.
      intros [[<- <-]|[_ Hk]]%lookup_insert_Some; simpl; [|by eapply Hold].
      intros ->%elem_of_singleton.
      destruct definition as [v'|]; [|done]. simpl in Hnew.
      rewrite Hrec. simpl. eauto.
Qed.

Lemma entries_ext c c' :
  paramsCRDControllers c' = paramsCRDControllers c →
  definitionInfo c' = definitionInfo c →
  entriesHaveDependents c ∧ dependentsDeclareKind c →
  entriesHaveDependents c' ∧ dependentsDeclareKind c'.
Proof.
  intros Hp Hd [Hent Hdecl]. split.
  - intros k entry. rewrite Hp. apply Hent.
  - intros k entry d. rewrite Hp, Hd. apply Hdecl.
Qed.

Lemma step_entries e c c' :
  step env e c = Some c' →
  entriesHaveDependents c ∧ dependentsDeclareKind c →
  entriesHaveDependents c' ∧ dependentsDeclareKind c'.
Proof.
  destruct e as [rm ns nm definition|ns nm binding| |]; simpl.
  - destruct (reconcilePolicyDefinition env rm ns nm definition c)
      as [[c1 err]|] eqn:Hrun; [|done].
    intros [= <-] [? ?]. by eapply reconcilePolicyDefinition_entries.
  - intros [= <-].
    destruct (reconcilePolicyBinding_frame ns nm binding c)
      as (_ & _ & ? & ? & _).
    by apply entries_ext.
  - unfold latestPolicyData. destruct (cachedPolicies c).
    + destruct (rebuildPolicyData env c) as [[res c1]|] eqn:Hrun; [|done].
      intros [= <-]. apply rebuildPolicyData_frame in Hrun as (_&?&?&_).
      by apply entries_ext.
    + by intros [= <-].
  - destruct (rebuildPolicyData env c) as [[res c1]|] eqn:Hrun; [|done].
    intros [= <-]. apply rebuildPolicyData_frame in Hrun as (_&?&?&_).
    by apply entries_ext.
Qed.

Lemma run_entries events c c' :
  run env events c = Some c' →
  entriesHaveDependents c ∧ dependentsDeclareKind c →
  entriesHaveDependents c' ∧ dependentsDeclareKind c'.
Proof.
  revert c. induction events as [|e events IH]; intros c; simpl.
  - by intros [= <-].
  - destruct (step env e c) as [c1|] eqn:Hstep; [|done]. simpl.
    intros Hrun Hent. eapply IH; [done|]. by eapply step_entries.
Qed.

(** X16.  In a reachable state every parameter entry has at least one dependent,
    and each of its dependents is a known definition whose stored value
    declares the kind of the entry: no entry outlives the definitions it is
    held for. *)
Theorem reachable_entries_have_declarers c k entry :
  reachable env c →
  paramsCRDControllers c !! k = Some entry →
  dependentDefinitions entry ≠ ∅ ∧
  ∀ d, d ∈ dependentDefinitions entry →
    ∃ info v, definitionInfo c !! d = Some info ∧
              lastReconciledValue info = Some v ∧
              Spec_ParamKind v = Some k.
Proof.
  intros [events Hrun] Hk.
  destruct (run_entries _ _ _ Hrun) as [Hent Hdecl].
  { split; by intros ?. }
  split; [by eapply Hent|]. intros d Hd. by eapply Hdecl.
Qed.

(** ** The cache agrees with the state *)

Lemma rebuildPolicyData_current c res c' :
  consistent c → validatorsAreCurrent env c →
  rebuildPolicyData env c = Some (res, c') →
  Forall2 (currentEntry env c') (rangeDefinitions env (definitionInfo c')) res.
Proof.
  intros Hc Hcur Hrun.
  pose proof (rebuildPolicyData_consistent _ _ _ Hrun Hc) as Hc'.
  pose proof (rebuildPolicyData_validatorsAreCurrent _ _ _ Hrun Hc Hcur) as Hcur'.
  apply rebuildPolicyData_spec in Hrun
    as ((_ & Hparams & Hdefs & Hidx & _) & _ & Hown & Hsnap & _); [|apply Hc].
  rewrite Hdefs.
  eapply Forall2_impl_elem_of; [exact Hsnap|].
  intros [d dinfo] data Hd%elem_of_rangeDefinitions (Hinfo & Hctl & Hbindings).
  simpl in *. split; [done|]. split; [by rewrite Hparams|].
  rewrite (dependentBindings_ext _ _ _ Hidx). simpl.
  eapply Forall2_impl_elem_of; [exact Hbindings|].
  intros key b Hkey%elem_of_rangeBindings Hb. simpl in *. split; [done|].
  assert (key ∈ dependentBindings c' d) as Hkey'
    by (by rewrite (dependentBindings_ext _ _ _ Hidx)).
  destruct (configurationError dinfo) as [e|] eqn:Herr.
  - eapply (consistent_errored _ Hc' d dinfo key b); try done;
      by rewrite ?Hdefs, ?Herr.
  - destruct (validator b) as [v|] eqn:Hv.
    + destruct (Hcur' key b v Hb Hv) as (dinfo' & Hd' & _ & Hcompile).
      rewrite (consistent_back _ Hc' _ _ Hkey'), Hdefs, Hd in Hd'.
      injection Hd' as <-. done.
    + destruct (Hown d dinfo key Hd Hkey) as (_ & [before Hbefore] & Hslot).
      rewrite Hb, Hbefore in Hslot. simpl in Hslot. injection Hslot as ->.
      rewrite compiledSlot_validator in Hv.
      case_bool_decide as Hneed; [done|].
      by destruct Hneed.
Qed.

Lemma step_cacheIsCurrent e c c' :
  step env e c = Some c' →
  consistent c → validatorsAreCurrent env c → cacheIsCurrent env c →
  cacheIsCurrent env c'.
Proof.
  destruct e as [rm ns nm definition|ns nm binding| |]; simpl.
  - destruct (reconcilePolicyDefinition env rm ns nm definition c)
      as [[c1 err]|] eqn:Hrun; [|done].
    intros [= <-] _ _ _. left.
    by apply reconcilePolicyDefinition_inv in Hrun as (? & _).
  - intros [= <-] _ _ _. left. apply reconcilePolicyBinding_frame.
  - unfold latestPolicyData. destruct (cachedPolicies c) eqn:Hcache.
    + destruct (rebuildPolicyData env c) as [[res c1]|] eqn:Hrun; [|done].
      intros [= <-] Hc Hcur _. right.
      pose proof (rebuildPolicyData_frame _ _ _ Hrun) as (-> & _).
      by eapply rebuildPolicyData_current.
    + by intros [= <-].
  - destruct (rebuildPolicyData env c) as [[res c1]|] eqn:Hrun; [|done].
    intros [= <-] Hc Hcur _. right.
    pose proof (rebuildPolicyData_frame _ _ _ Hrun) as (-> & _).
    by eapply rebuildPolicyData_current.
Qed.

Lemma run_cacheIsCurrent events c c' :
  run env events c = Some c' →
  consistent c → validatorsAreCurrent env c → cacheIsCurrent env c →
  consistent c' ∧ validatorsAreCurrent env c' ∧ cacheIsCurrent env c'.
Proof.
  revert c. induction events as [|e events IH]; intros c; simpl.
  - by intros [= <-].
  - destruct (step env e c) as [c1|] eqn:Hstep; [|done]. simpl.
    intros Hrun Hc Hcur Hcache. eapply IH; [done| | |].
    + by eapply step_consistent.
    + by eapply step_validatorsAreCurrent.
    + by eapply step_cacheIsCurrent.
Qed.

(** X17.  What [latestPolicyData] returns in a reachable state, from the cache or
    from a rebuild, agrees with the state it leaves: one entry for each
    definition record, with that record, the controller of the entry of the
    declared kind if there is one, and the records of the bindings listed
    under the definition; a binding's validator is absent when the
    definition has a configuration error, and otherwise is what the compiler
    returns for the stored value of the definition.  A reader never gets a
    snapshot that a reconcile has outdated. *)
Theorem latestPolicyData_current c res c' :
  reachable env c →
  latestPolicyData env c = Some (res, c') →
  Forall2 (currentEntry env c') (rangeDefinitions env (definitionInfo c')) res.
Proof.
  intros [events Hrun] Hread.
  destruct (run_cacheIsCurrent _ _ _ Hrun) as (Hc & Hcur & Hcache).
  { apply newPolicyController_consistent. }
  { by intros ?. }
  { by left. }
  unfold latestPolicyData in Hread.
  destruct (cachedPolicies c) as [|data cached] eqn:Hcached.
  - by eapply rebuildPolicyData_current.
  - injection Hread as <- <-. destruct Hcache as [Hnil|Hall]; [congruence|].
    by rewrite Hcached in Hall.
Qed.

(** ** A retried reconcile *)

Lemma releaseOldParamSource_same nn info c :
  releaseOldParamSource nn info (lastReconciledValue info ≫= Spec_ParamKind) c = c.
Proof.
  unfold releaseOldParamSource.
  destruct (lastReconciledValue info ≫= Spec_ParamKind) as [K|]; [|done].
  rewrite decide_False; [done|]. by intros [?|?].
Qed.

Lemma storeDefinition_twice rm nn definition c :
  storeDefinition env rm nn (Some definition)
    (storeDefinition env rm nn (Some definition) c).1
  = storeDefinition env rm nn (Some definition) c.
Proof.
  unfold storeDefinition, startParamController.
  destruct (Spec_ParamKind definition) as [K|]; simpl.
  - destruct (ParseGroupVersion env (APIVersion K)); simpl.
    + destruct (rm _ _) as [mapping|]; simpl.
      * destruct (paramsCRDControllers c !! K) eqn:Hentry; simpl.
        -- rewrite Hentry. unfold set_definitionInfo. simpl.
           by rewrite insert_insert_eq.
        -- rewrite lookup_insert_eq. unfold set_definitionInfo, set_startedLoops,
             set_paramsCRDControllers. simpl. by rewrite insert_insert_eq.
      * unfold set_definitionInfo. simpl. by rewrite !insert_insert_eq.
    + unfold set_definitionInfo. simpl. by rewrite !insert_insert_eq.
  - unfold set_definitionInfo. simpl. by rewrite insert_insert_eq.
Qed.

(** X18.  A call for a value, repeated on the state it left and with a mapper that
    answers the same, returns the same error and leaves the state as it is:
    a retry starts no second loop, reports nothing more to the metrics and
    changes no record. *)
Theorem reconcilePolicyDefinition_twice rm ns nm definition c c1 err :
  reconcilePolicyDefinition env rm ns nm (Some definition) c = Some (c1, err) →
  reconcilePolicyDefinition env rm ns nm (Some definition) c1 = Some (c1, err).
Proof.
  intros Hrun. set (nn := getNamespaceName ns nm).
  pose proof (reconcilePolicyDefinition_inv _ _ _ _ _ _ _ Hrun)
    as (Hcache & Hidx & _ & Hdom & Hlook & _ & cfg & Hrec & _).
  fold nn in Hdom, Hlook, Hrec. simpl in Hrec.
  destruct (reconcilePolicyDefinition_unfold rm ns nm (Some definition) c Hdom)
    as (c0 & Hrun0 & _). fold nn in Hrun0.
  assert ((c1, err) = storeDefinition env rm nn (Some definition) c0) as Hstore
    by congruence.
  assert (dependentBindings c1 nn = dependentBindings c nn) as Hdeps
    by (by apply dependentBindings_ext).
  unfold reconcilePolicyDefinition, fetchDefinitionInfo. fold nn. simpl.
  rewrite Hrec.
  change (Some definition ≫= Spec_ParamKind) with
    (lastReconciledValue (mkDefinitionInfo (Some definition) cfg) ≫= Spec_ParamKind).
  rewrite releaseOldParamSource_same.
  unfold dependentBindings at 1. simpl.
  change (default ∅ (definitionsToBindings c1 !! nn)) with (dependentBindings c1 nn).
  destruct (resetValidators_is_Some (rangeBindings env (dependentBindings c1 nn))
              (bindingInfos c1)) as [infos Hreset].
  { intros key Hkey%elem_of_rangeBindings. rewrite Hdeps in Hkey.
    rewrite Hlook, decide_True by done. by apply fmap_is_Some, Hdom. }
  rewrite Hreset. simpl.
  apply resetValidators_Some in Hreset as [_ Hinfos].
  assert (infos = bindingInfos c1) as ->.
  { apply map_eq. intros b. rewrite Hinfos. case_decide as Hin; [|done].
    apply elem_of_rangeBindings in Hin. rewrite Hdeps in Hin.
    rewrite Hlook, decide_True by done.
    by destruct (bindingInfos c !! b). }
  assert (set_bindingInfos (bindingInfos c1) (set_cachedPolicies [] c1) = c1) as ->.
  { destruct c1. simpl in *. by rewrite Hcache. }
  apply (f_equal fst) in Hstore as Hc1. simpl in Hc1.
  f_equal. rewrite Hstore, Hc1. apply storeDefinition_twice.
Qed.

(** ** Where a call can panic *)

(** X19.  In a reachable state a call can only panic on the identity whose
    namespace and name are both empty: [reconcilePolicyDefinition] returns
    for every other identity, and [latestPolicyData] returns when no
    definition record has that identity. *)
Theorem reachable_calls_return c :
  reachable env c →
  (∀ rm ns nm definition,
     getNamespaceName ns nm ≠ zeroNamespacedName →
     is_Some (reconcilePolicyDefinition env rm ns nm definition c)) ∧
  (definitionInfo c !! zeroNamespacedName = None →
   is_Some (latestPolicyData env c)).
Proof.
  intros Hc%reachable_consistent. split.
  - intros rm ns nm definition Hne. apply reconcilePolicyDefinition_is_Some.
    intros b Hb. by eapply consistent_listed_record.
  - intros Hzero. unfold latestPolicyData. destruct (cachedPolicies c); [|done].
    unfold rebuildPolicyData.
    destruct (buildPolicyData_is_Some (rangeDefinitions env (definitionInfo c)) c)
      as [[res c'] ->]; [| |done].
    + intros d info Hin%elem_of_rangeDefinitions. by eapply (consistent_values _ Hc).
    + intros d info b Hin%elem_of_rangeDefinitions Hb.
      eapply consistent_listed_record; [done..|]. intros ->. congruence.
Qed.

(** ** The index after a binding reconcile, the entries after a change of kind *)

(** X20.  The index after any call of [reconcilePolicyBinding] for binding [B]:
    a binding is listed under a definition afterwards exactly when it is [B]
    and the definition is the one the new value names, or it was listed
    there before and is not [B] leaving the definition its record pointed
    at for another one. *)
Theorem reconcilePolicyBinding_index ns nm binding c b k :
  let B := getNamespaceName ns nm in
  let c' := (reconcilePolicyBinding ns nm binding c).1 in
  b ∈ dependentBindings c' k ↔
    (b = B ∧ is_Some binding ∧ k = definitionNameOf binding) ∨
    (b ∈ dependentBindings c k ∧
     ¬ (b = B ∧ k = recordedDefinitionNameOf c B ∧ k ≠ definitionNameOf binding)).
Proof.
  intros B c'. subst c'.
  rewrite elem_of_dependentBindings_reconcilePolicyBinding. fold B.
  split.
  - intros [(-> & -> & ?)|[Hin Hnot]]; [by left|right].
    split; [done|]. intros (-> & -> & ?). by apply Hnot.
  - intros [(-> & ? & ->)|[Hin Hnot]]; [by left|right].
    split; [done|]. intros (-> & -> & ?). by apply Hnot.
Qed.

(** X21.  A returning call for definition [D] whose stored value declared kind [K]
    and whose new value (or nil) does not: [D] leaves the dependents of the
    entry of [K]; the entry stays with the remaining dependents, or, when
    there are none, is deleted and its context cancelled.  No other context
    is cancelled. *)
Theorem reconcilePolicyDefinition_leaves_kind rm ns nm definition info old K c c' err :
  let D := getNamespaceName ns nm in
  reconcilePolicyDefinition env rm ns nm definition c = Some (c', err) →
  definitionInfo c !! D = Some info →
  lastReconciledValue info = Some old →
  Spec_ParamKind old = Some K →
  definition ≫= Spec_ParamKind ≠ Some K →
  match paramsCRDControllers c !! K with
  | None =>
      paramsCRDControllers c' !! K = None ∧
      cancelledContexts c' = cancelledContexts c
  | Some entry =>
      if decide (dependentDefinitions entry ∖ {[D]} = ∅) then
        paramsCRDControllers c' !! K = None ∧
        cancelledContexts c' = {[stop entry]} ∪ cancelledContexts c
      else
        paramsCRDControllers c' !! K =
          Some (mkParamInfo (controller entry) (stop entry)
                  (dependentDefinitions entry ∖ {[D]})) ∧
        cancelledContexts c' = cancelledContexts c
  end.
Proof.
  intros D Hrun Hinfo Hold HK Hnew.
  pose proof (reconcilePolicyDefinition_inv _ _ _ _ _ _ _ Hrun) as (_&_&_&Hdom&_).
  destruct (reconcilePolicyDefinition_unfold rm ns nm definition c Hdom)
    as (c1 & Hrun1 & _ & Hparams & Hcancel & _). fold D in Hrun1, Hparams, Hcancel.
  assert ((c', err) = storeDefinition env rm D definition c1) as Heq by congruence.
  apply (f_equal fst) in Heq. simpl in Heq.
  destruct (storeDefinition_params rm D definition c1) as [Hx Hcases].
  rewrite <- Heq in Hx, Hcases.
  assert (paramsCRDControllers c' !! K = paramsCRDControllers c1 !! K) as HK'.
  { destruct Hcases as [[-> _]|(K' & ctl & HK'' & _ & _ & -> & _)]; [done|].
    rewrite lookup_insert_ne; [done|]. congruence. }
  rewrite HK', Hx, Hparams, Hcancel, Hinfo. simpl.
  pose proof (releaseOldParamSource_released D info (definition ≫= Spec_ParamKind)
                c K) as Hrel.
  simpl in Hrel. rewrite Hold in Hrel. specialize (Hrel HK Hnew).
  destruct (paramsCRDControllers c !! K) as [entry|] eqn:Hentry.
  - case_decide; destruct Hrel as [-> ->].
    + by rewrite lookup_delete_eq.
    + by rewrite lookup_insert_eq.
  - by destruct Hrel as [-> ->].
Qed.

End Properties.

(** * The claims on sample runs *)

Lemma stateAfter_reachable events :
  is_Some (run sampleEnvironment events newPolicyController) →
  reachable sampleEnvironment (stateAfter events).
Proof.
  intros [c Hrun]. exists events. unfold stateAfter. by rewrite Hrun.
Defined.

(** C1.  Two definitions are reconciled with the same parameter kind, both
    calls returning nil.  The entry of the kind then has the first
    definition as its only dependent: the second one is missing.  Deleting
    the first definition empties the dependents, so the entry is deleted and
    its context cancelled although the second definition, still known,
    declares the kind. *)
Theorem second_declarer_is_not_a_dependent :
  let rm := mapperKnowing "ConfigMap" in
  let p1 := getNamespaceName "" "p1" in
  let p2 := getNamespaceName "" "p2" in
  let c1 := stateAfter (take 1 twoDeclarers) in
  let c2 := stateAfter twoDeclarers in
  let c3 := stateAfter firstDeclarerDeleted in
  reconcilePolicyDefinition sampleEnvironment rm "" "p1"
    (Some (policyDeclaring configMap)) newPolicyController = Some (c1, None) ∧
  reconcilePolicyDefinition sampleEnvironment rm "" "p2"
    (Some (policyDeclaring configMap)) c1 = Some (c2, None) ∧
  dependentDefinitions <$> paramsCRDControllers c2 !! configMap = Some {[p1]} ∧
  (∀ entry, paramsCRDControllers c2 !! configMap = Some entry →
            p2 ∉ dependentDefinitions entry) ∧
  reconcilePolicyDefinition sampleEnvironment rm "" "p1" None c2 = Some (c3, None) ∧
  paramsCRDControllers c3 !! configMap = None ∧
  cancelledContexts c3 = {[0]} ∧
  definitionInfo c3 !! p2 =
    Some (mkDefinitionInfo (Some (policyDeclaring configMap)) None).
Proof.
  intros rm p1 p2 c1 c2 c3.
  assert (dependentDefinitions <$> paramsCRDControllers c2 !! configMap
          = Some {[p1]}) as Hdeps by (vm_compute; reflexivity).
  split_and!; try (vm_compute; reflexivity).
  intros entry Hentry. rewrite Hentry in Hdeps. injection Hdeps as ->.
  apply not_elem_of_singleton. by intros [= ?].
Qed.

(** Outside the accepted events.  A binding whose [policyName] is empty is
    reconciled and then deleted.  Its old and its new definition name are
    both the zero name, so line 298 sees no change and the binding stays
    listed under the zero name while its record is gone. *)
Lemma deleted_binding_stays_listed :
  let b := getNamespaceName "" "b" in
  let c := stateAfter unnamedTargetDeleted in
  run sampleEnvironment unnamedTargetDeleted newPolicyController = Some c ∧
  definitionsToBindings c !! zeroNamespacedName = Some {[b]} ∧
  bindingInfos c !! b = None ∧
  ¬ dependentsHaveRecords c.
Proof.
  intros b c. split_and!; try (vm_compute; reflexivity).
  intros Hrec%dependentsHaveRecordsb_spec. vm_compute in Hrec. discriminate.
Qed.

(** C10, the claim as first stated.  After the example of section 8 the
    binding holds a compiled validator; deleting its definition returns nil
    and leaves the binding record without it, so the binding records are not
    all unchanged. *)
Lemma delete_changes_binding_record :
  let b := getNamespaceName "" "binding-1" in
  let c := stateAfter boundAndRead in
  ∃ c',
    reconcilePolicyDefinition sampleEnvironment (mapperKnowing "ConfigMap")
      "" "policy-A" None c = Some (c', None) ∧
    bindingInfos c !! b =
      Some (mkBindingInfo (Some ["object.spec.replicas <= 5"])
              (Some (bindingTo "policy-A"))) ∧
    bindingInfos c' !! b = Some (mkBindingInfo None (Some (bindingTo "policy-A"))) ∧
    bindingInfos c' ≠ bindingInfos c.
Proof.
  intros b c.
  exists (stateAfter (boundAndRead ++
            [ReconcileDefinition (mapperKnowing "ConfigMap") "" "policy-A" None])).
  split_and!; try (vm_compute; reflexivity).
  intros Heq. apply (f_equal (λ m, validator <$> m !! b)) in Heq.
  vm_compute in Heq. discriminate.
Qed.

(** ** Witnesses *)

(** C2 on a binding that is bound, moved to another definition and deleted,
    after its second call. *)
Lemma index_invariants_after_every_call_witness :
  let events := [ReconcileBinding "" "b" (Some (bindingTo "A"));
                 ReconcileBinding "" "b" (Some (bindingTo "D"));
                 ReconcileBinding "" "b" None] in
  Forall accepted events ∧
  ∃ c, run sampleEnvironment (take 2 events) newPolicyController = Some c ∧
       keysHaveDependents c ∧ dependentsHaveRecords c.
Proof.
  intros events.
  assert (Forall accepted events) as Hacc.
  { repeat (apply Forall_cons; split); try apply Forall_nil; simpl;
      try exact I; intros Heq; discriminate Heq. }
  split; [exact Hacc|].
  destruct (index_invariants_after_every_call sampleEnvironment events 2 Hacc)
    as (c & Hrun & Hkeys & Hrec & _).
  exists c. exact (conj Hrun (conj Hkeys Hrec)).
Defined.

(** C3 on [oneBroken]: the rebuild compiles for the binding of the sound
    definition and not for the binding of the broken one. *)
Lemma latestPolicyData_compiles_exactly_witness :
  let c := stateAfter oneBroken in
  let A := getNamespaceName "" "policy-A" in
  let B := getNamespaceName "" "policy-B" in
  reachable sampleEnvironment c ∧ cachedPolicies c = [] ∧
  dependentsHaveRecords c ∧
  ∃ res c',
    latestPolicyData sampleEnvironment c = Some (res, c') ∧
    ∀ b, (B, b) ∉ drop (length (compileCalls c)) (compileCalls c').
Proof.
  intros c A B.
  assert (reachable sampleEnvironment c) as Hreach.
  { apply stateAfter_reachable. vm_compute. exact (ex_intro _ _ eq_refl). }
  assert (cachedPolicies c = []) as Hcache by (vm_compute; reflexivity).
  assert (dependentsHaveRecords c) as Hrec.
  { apply dependentsHaveRecordsb_spec. vm_compute. reflexivity. }
  split; [exact Hreach|]. split; [exact Hcache|]. split; [exact Hrec|].
  destruct (latestPolicyData_compiles_exactly sampleEnvironment c Hreach Hcache)
    as [Hsome Hspec].
  destruct (Hsome Hrec) as [[res c'] Hrun].
  exists res, c'. split; [exact Hrun|].
  destruct (Hspec res c' Hrun) as (calls & Hcalls & _ & _ & Hnone & _).
  intros b. rewrite Hcalls, drop_app_length.
  apply (Hnone B (mkDefinitionInfo (Some (policyDeclaring malformedKind))
                    (Some (errParseAPIVersion malformedKind
                             (errorString "unexpected GroupVersion string"))))).
  - vm_compute. reflexivity.
  - exact (ex_intro _ _ eq_refl).
Defined.

(** C4 on a definition whose [apiVersion] has two slashes. *)
Lemma reconcilePolicyDefinition_unparsable_witness :
  let c := stateAfter [ReconcileBinding "" "binding-2" (Some (bindingTo "policy-B"))] in
  let B := getNamespaceName "" "policy-B" in
  let e := errorString "unexpected GroupVersion string" in
  ParseGroupVersion sampleEnvironment (APIVersion malformedKind) = Err e ∧
  dependentsOfHaveRecords c B ∧
  ∃ c',
    reconcilePolicyDefinition sampleEnvironment mapperKnowingNothing "" "policy-B"
      (Some (policyDeclaring malformedKind)) c = Some (c', None) ∧
    definitionInfo c' !! B =
      Some (mkDefinitionInfo (Some (policyDeclaring malformedKind))
              (Some (errParseAPIVersion malformedKind e))).
Proof.
  intros c B e.
  assert (ParseGroupVersion sampleEnvironment (APIVersion malformedKind) = Err e)
    as Hparse by (vm_compute; reflexivity).
  assert (dependentsOfHaveRecords c B) as Hdom.
  { apply dependentsHaveRecords_of, dependentsHaveRecordsb_spec.
    vm_compute. reflexivity. }
  split; [exact Hparse|]. split; [exact Hdom|].
  exact (reconcilePolicyDefinition_unparsable sampleEnvironment mapperKnowingNothing
           "" "policy-B" (policyDeclaring malformedKind) malformedKind e c
           eq_refl Hparse Hdom).
Defined.

(** C5 with a mapper that knows no kind, then one that knows the kind. *)
Lemma reconcilePolicyDefinition_unresolved_then_resolved_witness :
  let c := stateAfter [ReconcileBinding "" "binding-1" (Some (bindingTo "policy-A"))] in
  let A := getNamespaceName "" "policy-A" in
  let gv := mkGroupVersion "" "v1" in
  let err := errFindResource (WithKind gv "ConfigMap") in
  ParseGroupVersion sampleEnvironment (APIVersion configMap) = Ok gv ∧
  dependentsOfHaveRecords c A ∧
  ∃ c1 c2 entry,
    reconcilePolicyDefinition sampleEnvironment mapperKnowingNothing "" "policy-A"
      (Some (policyDeclaring configMap)) c = Some (c1, Some err) ∧
    definitionInfo c1 !! A =
      Some (mkDefinitionInfo (Some (policyDeclaring configMap)) (Some err)) ∧
    reconcilePolicyDefinition sampleEnvironment (mapperKnowing "ConfigMap") "" "policy-A"
      (Some (policyDeclaring configMap)) c1 = Some (c2, None) ∧
    definitionInfo c2 !! A =
      Some (mkDefinitionInfo (Some (policyDeclaring configMap)) None) ∧
    paramsCRDControllers c2 !! configMap = Some entry.
Proof.
  intros c A gv err.
  assert (ParseGroupVersion sampleEnvironment (APIVersion configMap) = Ok gv)
    as Hparse by (vm_compute; reflexivity).
  assert (dependentsOfHaveRecords c A) as Hdom.
  { apply dependentsHaveRecords_of, dependentsHaveRecordsb_spec.
    vm_compute. reflexivity. }
  split; [exact Hparse|]. split; [exact Hdom|].
  destruct (reconcilePolicyDefinition_unresolved_then_resolved sampleEnvironment
              mapperKnowingNothing (mapperKnowing "ConfigMap") "" "policy-A"
              (policyDeclaring configMap) configMap gv
              (errorString "no matches for kind")
              (mkRESTMapping (mkGroupVersionResource "" "v1" "ConfigMaps")) c
              eq_refl Hparse eq_refl eq_refl Hdom)
    as [(c1 & Hrun1 & Hrec1 & Hdom1) Hlater].
  destruct (Hlater c1 Hdom1) as (c2 & entry & Hrun2 & Hrec2 & Hentry & _).
  exists c1, c2, entry.
  exact (conj Hrun1 (conj Hrec1 (conj Hrun2 (conj Hrec2 Hentry)))).
Defined.

(** C6 on the first read of the example of section 8. *)
Lemma latestPolicyData_idempotent_witness :
  let c := stateAfter (take 2 boundAndRead) in
  let c' := stateAfter boundAndRead in
  latestPolicyData sampleEnvironment c = Some (cachedPolicies c', c') ∧
  latestPolicyData sampleEnvironment c' = Some (cachedPolicies c', c').
Proof.
  intros c c'.
  assert (latestPolicyData sampleEnvironment c = Some (cachedPolicies c', c'))
    as Hfirst by (vm_compute; reflexivity).
  split; [exact Hfirst|].
  exact (proj1 (latestPolicyData_idempotent sampleEnvironment c _ c' Hfirst)).
Defined.

(** C7 on a binding moved from definition A to definition D. *)
Lemma reconcilePolicyBinding_retarget_witness :
  let c := stateAfter [ReconcileBinding "" "b" (Some (bindingTo "A"));
                       ReconcileBinding "" "b2" (Some (bindingTo "A"))] in
  let b := getNamespaceName "" "b" in
  let c' := (reconcilePolicyBinding "" "b" (Some (bindingTo "D")) c).1 in
  bindingInfos c !! b = Some (mkBindingInfo None (Some (bindingTo "A"))) ∧
  getNamespaceName "" "A" ≠ getNamespaceName "" "D" ∧
  (b ∉ dependentBindings c' (getNamespaceName "" "A")) ∧
  b ∈ dependentBindings c' (getNamespaceName "" "D") ∧
  bindingInfos c' !! b = Some (mkBindingInfo None (Some (bindingTo "D"))).
Proof.
  intros c b c'.
  assert (bindingInfos c !! b = Some (mkBindingInfo None (Some (bindingTo "A"))))
    as Hinfo by (vm_compute; reflexivity).
  assert (getNamespaceName "" "A" ≠ getNamespaceName "" "D") as Hne.
  { intros Heq. discriminate Heq. }
  split; [exact Hinfo|]. split; [exact Hne|].
  destruct (reconcilePolicyBinding_retarget "" "b" _ (bindingTo "A")
              (bindingTo "D") c Hinfo eq_refl Hne)
    as (_ & Hgone & _ & _ & Hthere & _ & Hrecord).
  exact (conj Hgone (conj Hthere Hrecord)).
Defined.


(** C9 on the definition of the example of section 8, the only dependent of
    its kind. *)
Lemma delete_definition_releases_watch_witness :
  let c := stateAfter boundAndRead in
  let A := getNamespaceName "" "policy-A" in
  definitionInfo c !! A =
    Some (mkDefinitionInfo (Some (policyDeclaring configMap)) None) ∧
  dependentsOfHaveRecords c A ∧
  ∃ c',
    reconcilePolicyDefinition sampleEnvironment (mapperKnowing "ConfigMap")
      "" "policy-A" None c = Some (c', None) ∧
    definitionInfo c' !! A = None ∧
    ∀ res c'', latestPolicyData sampleEnvironment c' = Some (res, c'') →
      Forall2 (λ entry data, entry.1 ≠ A ∧ pdDefinitionInfo data = entry.2)
        (rangeDefinitions sampleEnvironment (definitionInfo c')) res.
Proof.
  intros c A.
  assert (definitionInfo c !! A =
            Some (mkDefinitionInfo (Some (policyDeclaring configMap)) None))
    as Hinfo by (vm_compute; reflexivity).
  assert (dependentsOfHaveRecords c A) as Hdom.
  { apply dependentsHaveRecords_of, dependentsHaveRecordsb_spec.
    vm_compute. reflexivity. }
  split; [exact Hinfo|]. split; [exact Hdom|].
  destruct (delete_definition_releases_watch sampleEnvironment
              (mapperKnowing "ConfigMap") "" "policy-A" _
              (policyDeclaring configMap) configMap c Hinfo eq_refl eq_refl Hdom)
    as (c' & Hrun & Hgone & _ & _ & Hsnap).
  exists c'. exact (conj Hrun (conj Hgone Hsnap)).
Defined.

(** C10 as amended, on [oneBroken]: the sound definition is deleted, its
    binding stays listed, and the other definition stays with its binding. *)
Lemma delete_definition_frame_witness :
  let c := stateAfter oneBroken in
  let A := getNamespaceName "" "policy-A" in
  let b1 := getNamespaceName "" "binding-1" in
  reachable sampleEnvironment c ∧
  definitionInfo c !! A =
    Some (mkDefinitionInfo (Some (policyDeclaring configMap)) None) ∧
  dependentsOfHaveRecords c A ∧
  ∃ c',
    reconcilePolicyDefinition sampleEnvironment (mapperKnowing "ConfigMap")
      "" "policy-A" None c = Some (c', None) ∧
    definitionInfo c' = delete A (definitionInfo c) ∧
    definitionsToBindings c' = definitionsToBindings c ∧
    (definitionsToBindings c' !! A = Some {[b1]} ∧ ({[b1]} : gset namespacedName) ≠ ∅) ∧
    is_Some (latestPolicyData sampleEnvironment c') ∧
    ∀ res c'', latestPolicyData sampleEnvironment c' = Some (res, c'') →
      ∀ data b, data ∈ res → b ∈ pdBindings data →
        definitionNameOf (lastReconciledBinding b) ≠ A.
Proof.
  intros c A b1.
  assert (reachable sampleEnvironment c) as Hreach.
  { apply stateAfter_reachable. vm_compute. exact (ex_intro _ _ eq_refl). }
  assert (definitionInfo c !! A =
            Some (mkDefinitionInfo (Some (policyDeclaring configMap)) None))
    as Hinfo by (vm_compute; reflexivity).
  assert (dependentsHaveRecords c) as Hrec.
  { apply dependentsHaveRecordsb_spec. vm_compute. reflexivity. }
  assert (dependentsOfHaveRecords c A) as Hdom.
  { apply dependentsHaveRecords_of. exact Hrec. }
  assert (definitionsToBindings c !! A = Some {[b1]}) as Hlisted
    by (vm_compute; reflexivity).
  split; [exact Hreach|]. split; [exact Hinfo|]. split; [exact Hdom|].
  destruct (delete_definition_frame sampleEnvironment
              (mapperKnowing "ConfigMap") "" "policy-A" _ c Hreach Hinfo Hdom)
    as (c' & Hrun & Hdefs & Hidx & Hkept & _ & _ & _ & _ & _ & Hreturns & Hsnap & _).
  exists c'.
  split; [exact Hrun|]. split; [exact Hdefs|]. split; [exact Hidx|].
  split; [exact (Hkept _ Hlisted)|]. split; [exact (Hreturns Hrec)|].
  intros res c'' Hread. exact (proj2 (Hsnap res c'' Hread)).
Defined.

(** ** Witnesses of the further properties *)

Lemma accepted_run_index_invariants_witness :
  Forall accepted (oneBroken ++ [LatestPolicyData]) ∧
  ∃ c, run sampleEnvironment (oneBroken ++ [LatestPolicyData]) newPolicyController
         = Some c ∧
       keysHaveDependents c ∧ dependentsHaveRecords c.
Proof.
  assert (Forall accepted (oneBroken ++ [LatestPolicyData])) as Hacc.
  { repeat (apply Forall_cons; split); try apply Forall_nil; simpl;
      try exact I; intros Heq; discriminate Heq. }
  split; [exact Hacc|].
  exact (accepted_run_index_invariants sampleEnvironment _ Hacc).
Defined.

Lemma reachable_index_invariants_witness :
  let c := stateAfter unnamedTargetDeleted in
  reachable sampleEnvironment c ∧ keysHaveDependents c ∧
  ∀ k dependents b,
    definitionsToBindings c !! k = Some dependents → b ∈ dependents →
    bindingInfos c !! b = None → k = zeroNamespacedName.
Proof.
  intros c.
  assert (reachable sampleEnvironment c) as Hreach.
  { apply stateAfter_reachable. vm_compute. exact (ex_intro _ _ eq_refl). }
  split; [exact Hreach|].
  exact (reachable_index_invariants sampleEnvironment c Hreach).
Defined.

Lemma reconcilePolicyBinding_delete_unknown_witness :
  let c := stateAfter boundAndRead in
  bindingInfos c !! getNamespaceName "" "binding-9" = None ∧
  (reconcilePolicyBinding "" "binding-9" None c).1 = set_cachedPolicies [] c.
Proof.
  intros c.
  assert (bindingInfos c !! getNamespaceName "" "binding-9" = None) as Hnone
    by (vm_compute; reflexivity).
  split; [exact Hnone|].
  exact (reconcilePolicyBinding_delete_unknown "" "binding-9" c Hnone).
Defined.

Lemma reachable_records_and_index_witness :
  let c := stateAfter oneBroken in
  reachable sampleEnvironment c ∧
  ∀ b k1 k2, b ∈ dependentBindings c k1 → b ∈ dependentBindings c k2 → k1 = k2.
Proof.
  intros c.
  assert (reachable sampleEnvironment c) as Hreach.
  { apply stateAfter_reachable. vm_compute. exact (ex_intro _ _ eq_refl). }
  split; [exact Hreach|].
  exact (proj1 (proj2 (reachable_records_and_index sampleEnvironment c Hreach))).
Defined.

Lemma reconcilePolicyBinding_delete_unlists_witness :
  let c := stateAfter oneBroken in
  let nn := getNamespaceName "" "binding-1" in
  let c' := (reconcilePolicyBinding "" "binding-1" None c).1 in
  reachable sampleEnvironment c ∧
  bindingInfos c !! nn = Some (mkBindingInfo None (Some (bindingTo "policy-A"))) ∧
  bindingInfos c' !! nn = None ∧
  ∀ k, nn ∉ dependentBindings c' k.
Proof.
  intros c nn c'.
  assert (reachable sampleEnvironment c) as Hreach.
  { apply stateAfter_reachable. vm_compute. exact (ex_intro _ _ eq_refl). }
  assert (bindingInfos c !! nn =
          Some (mkBindingInfo None (Some (bindingTo "policy-A")))) as Hinfo
    by (vm_compute; reflexivity).
  assert (Spec_PolicyName (bindingTo "policy-A") ≠ "") as Hname.
  { intros Heq. discriminate Heq. }
  split; [exact Hreach|]. split; [exact Hinfo|].
  destruct (reconcilePolicyBinding_delete_unlists sampleEnvironment "" "binding-1"
              _ (bindingTo "policy-A") c Hreach Hinfo eq_refl Hname)
    as (Hgone & Hunlisted & _).
  exact (conj Hgone Hunlisted).
Defined.

Lemma reconcilePolicyDefinition_observes_witness :
  let c := stateAfter boundAndRead in
  ∃ c',
    reconcilePolicyDefinition sampleEnvironment mapperKnowingNothing "" "policy-Z"
      None c = Some (c', None) ∧
    definitionInfo c !! getNamespaceName "" "policy-Z" = None ∧
    observedDefinitions c' = S (observedDefinitions c).
Proof.
  intros c.
  exists (stateAfter (boundAndRead ++
            [ReconcileDefinition mapperKnowingNothing "" "policy-Z" None])).
  assert (reconcilePolicyDefinition sampleEnvironment mapperKnowingNothing ""
            "policy-Z" None c =
          Some (stateAfter (boundAndRead ++
                  [ReconcileDefinition mapperKnowingNothing "" "policy-Z" None]),
                None)) as Hrun by (vm_compute; reflexivity).
  assert (definitionInfo c !! getNamespaceName "" "policy-Z" = None) as Hnone
    by (vm_compute; reflexivity).
  split; [exact Hrun|]. split; [exact Hnone|].
  pose proof (reconcilePolicyDefinition_observes sampleEnvironment _ _ _ _ _ _ _ Hrun)
    as Hobs.
  rewrite Hnone in Hobs. exact Hobs.
Defined.

Lemma reconcilePolicyDefinition_touches_witness :
  let c := stateAfter oneBroken in
  let c' := stateAfter (oneBroken ++
              [ReconcileDefinition (mapperKnowing "ConfigMap") "" "policy-B"
                 (Some (policyDeclaring configMap))]) in
  reconcilePolicyDefinition sampleEnvironment (mapperKnowing "ConfigMap") ""
    "policy-B" (Some (policyDeclaring configMap)) c = Some (c', None) ∧
  definitionsToBindings c' = definitionsToBindings c ∧
  ∀ d, d ≠ getNamespaceName "" "policy-B" →
       definitionInfo c' !! d = definitionInfo c !! d.
Proof.
  intros c c'.
  assert (reconcilePolicyDefinition sampleEnvironment (mapperKnowing "ConfigMap") ""
            "policy-B" (Some (policyDeclaring configMap)) c = Some (c', None))
    as Hrun by (vm_compute; reflexivity).
  split; [exact Hrun|].
  destruct (reconcilePolicyDefinition_touches sampleEnvironment _ _ _ _ _ _ _ Hrun)
    as (_ & Hidx & _ & Hother & _).
  exact (conj Hidx Hother).
Defined.

Lemma reconcilePolicyDefinition_outcome_witness :
  let c := stateAfter oneBroken in
  let c' := stateAfter (oneBroken ++
              [ReconcileDefinition mapperKnowingNothing "" "policy-A"
                 (Some (policyDeclaring configMap))]) in
  let err := Some (errFindResource (mkGroupVersionKind "" "v1" "ConfigMap")) in
  reconcilePolicyDefinition sampleEnvironment mapperKnowingNothing ""
    "policy-A" (Some (policyDeclaring configMap)) c = Some (c', err) ∧
  ∃ cfg,
    definitionInfo c' !! getNamespaceName "" "policy-A"
      = Some (mkDefinitionInfo (Some (policyDeclaring configMap)) cfg) ∧
    err = cfg.
Proof.
  intros c c' err.
  assert (reconcilePolicyDefinition sampleEnvironment mapperKnowingNothing ""
            "policy-A" (Some (policyDeclaring configMap)) c = Some (c', err))
    as Hrun by (vm_compute; reflexivity).
  split; [exact Hrun|].
  destruct (reconcilePolicyDefinition_outcome sampleEnvironment _ _ _ _ _ _ _ Hrun)
    as (cfg & Hrec & Herr & _).
  exists cfg. split; [exact Hrec|]. apply Herr. exact (ex_intro _ _ eq_refl).
Defined.

Lemma latestPolicyData_entries_witness :
  let c := stateAfter oneBroken in
  let c' := stateAfter (oneBroken ++ [LatestPolicyData]) in
  latestPolicyData sampleEnvironment c = Some (cachedPolicies c', c') ∧
  cachedPolicies c = [] ∧
  length (cachedPolicies c') = size (definitionInfo c).
Proof.
  intros c c'.
  assert (latestPolicyData sampleEnvironment c = Some (cachedPolicies c', c'))
    as Hrun by (vm_compute; reflexivity).
  assert (cachedPolicies c = []) as Hcache by (vm_compute; reflexivity).
  split; [exact Hrun|]. split; [exact Hcache|].
  pose proof (latestPolicyData_entries sampleEnvironment _ _ _ Hrun) as Hent.
  rewrite Hcache in Hent. exact (proj1 (proj2 Hent)).
Defined.

Lemma latestPolicyData_touches_witness :
  let c := stateAfter oneBroken in
  let c' := stateAfter (oneBroken ++ [LatestPolicyData]) in
  reachable sampleEnvironment c ∧
  latestPolicyData sampleEnvironment c = Some (cachedPolicies c', c') ∧
  definitionInfo c' = definitionInfo c ∧
  definitionsToBindings c' = definitionsToBindings c.
Proof.
  intros c c'.
  assert (reachable sampleEnvironment c) as Hreach.
  { apply stateAfter_reachable. vm_compute. exact (ex_intro _ _ eq_refl). }
  assert (latestPolicyData sampleEnvironment c = Some (cachedPolicies c', c'))
    as Hrun by (vm_compute; reflexivity).
  split; [exact Hreach|]. split; [exact Hrun|].
  destruct (latestPolicyData_touches sampleEnvironment _ _ _ Hreach Hrun)
    as (Hdefs & Hidx & _).
  exact (conj Hdefs Hidx).
Defined.

Lemma reachable_validators_current_witness :
  let c := stateAfter boundAndRead in
  let b := mkBindingInfo (Some ["object.spec.replicas <= 5"])
             (Some (bindingTo "policy-A")) in
  reachable sampleEnvironment c ∧
  bindingInfos c !! getNamespaceName "" "binding-1" = Some b ∧
  ∃ target dinfo,
    lastReconciledBinding b = Some target ∧
    definitionInfo c !! getNamespaceName "" (Spec_PolicyName target) = Some dinfo ∧
    configurationError dinfo = None ∧
    Compile sampleEnvironment (lastReconciledValue dinfo)
      = Some ["object.spec.replicas <= 5"].
Proof.
  intros c b.
  assert (reachable sampleEnvironment c) as Hreach.
  { apply stateAfter_reachable. vm_compute. exact (ex_intro _ _ eq_refl). }
  assert (bindingInfos c !! getNamespaceName "" "binding-1" = Some b) as Hb
    by (vm_compute; reflexivity).
  split; [exact Hreach|]. split; [exact Hb|].
  exact (reachable_validators_current sampleEnvironment c _ b _ Hreach Hb eq_refl).
Defined.

Lemma reachable_loops_accounted_witness :
  let c := stateAfter firstDeclarerDeleted in
  reachable sampleEnvironment c ∧
  length (startedLoops c) = 1 ∧
  ∀ i ctl, startedLoops c !! i = Some ctl →
    i ∈ cancelledContexts c ∨
    ∃ k entry, paramsCRDControllers c !! k = Some entry ∧ controller entry = ctl.
Proof.
  intros c.
  assert (reachable sampleEnvironment c) as Hreach.
  { apply stateAfter_reachable. vm_compute. exact (ex_intro _ _ eq_refl). }
  split; [exact Hreach|]. split; [vm_compute; reflexivity|].
  exact (proj1 (proj2 (proj2 (reachable_loops_accounted sampleEnvironment c Hreach)))).
Defined.

Lemma reachable_entries_have_declarers_witness :
  let c := stateAfter twoDeclarers in
  let entry := mkParamInfo
                 (mkParamController 0 (mkGroupVersionResource "" "v1" "ConfigMaps")
                    "v1/ConfigMap-controller") 0 {[getNamespaceName "" "p1"]} in
  reachable sampleEnvironment c ∧
  paramsCRDControllers c !! configMap = Some entry ∧
  ∀ d, d ∈ dependentDefinitions entry →
    ∃ info v, definitionInfo c !! d = Some info ∧
              lastReconciledValue info = Some v ∧
              Spec_ParamKind v = Some configMap.
Proof.
  intros c entry.
  assert (reachable sampleEnvironment c) as Hreach.
  { apply stateAfter_reachable. vm_compute. exact (ex_intro _ _ eq_refl). }
  assert (paramsCRDControllers c !! configMap = Some entry) as Hentry
    by (vm_compute; reflexivity).
  split; [exact Hreach|]. split; [exact Hentry|].
  exact (proj2 (reachable_entries_have_declarers sampleEnvironment c _ _
                  Hreach Hentry)).
Defined.

Lemma latestPolicyData_current_witness :
  let c := stateAfter oneBroken in
  let c' := stateAfter (oneBroken ++ [LatestPolicyData]) in
  reachable sampleEnvironment c ∧
  latestPolicyData sampleEnvironment c = Some (cachedPolicies c', c') ∧
  Forall2 (currentEntry sampleEnvironment c')
    (rangeDefinitions sampleEnvironment (definitionInfo c')) (cachedPolicies c').
Proof.
  intros c c'.
  assert (reachable sampleEnvironment c) as Hreach.
  { apply stateAfter_reachable. vm_compute. exact (ex_intro _ _ eq_refl). }
  assert (latestPolicyData sampleEnvironment c = Some (cachedPolicies c', c'))
    as Hrun by (vm_compute; reflexivity).
  split; [exact Hreach|]. split; [exact Hrun|].
  exact (latestPolicyData_current sampleEnvironment _ _ _ Hreach Hrun).
Defined.

Lemma reconcilePolicyDefinition_twice_witness :
  let c := stateAfter oneBroken in
  let c1 := stateAfter (oneBroken ++
              [ReconcileDefinition mapperKnowingNothing "" "policy-A"
                 (Some (policyDeclaring configMap))]) in
  let err := Some (errFindResource (mkGroupVersionKind "" "v1" "ConfigMap")) in
  reconcilePolicyDefinition sampleEnvironment mapperKnowingNothing ""
    "policy-A" (Some (policyDeclaring configMap)) c = Some (c1, err) ∧
  reconcilePolicyDefinition sampleEnvironment mapperKnowingNothing ""
    "policy-A" (Some (policyDeclaring configMap)) c1 = Some (c1, err).
Proof.
  intros c c1 err.
  assert (reconcilePolicyDefinition sampleEnvironment mapperKnowingNothing ""
            "policy-A" (Some (policyDeclaring configMap)) c = Some (c1, err))
    as Hrun by (vm_compute; reflexivity).
  split; [exact Hrun|].
  exact (reconcilePolicyDefinition_twice sampleEnvironment _ _ _ _ _ _ _ Hrun).
Defined.

Lemma reachable_calls_return_witness :
  let c := stateAfter oneBroken in
  reachable sampleEnvironment c ∧
  definitionInfo c !! zeroNamespacedName = None ∧
  is_Some (latestPolicyData sampleEnvironment c).
Proof.
  intros c.
  assert (reachable sampleEnvironment c) as Hreach.
  { apply stateAfter_reachable. vm_compute. exact (ex_intro _ _ eq_refl). }
  assert (definitionInfo c !! zeroNamespacedName = None) as Hzero
    by (vm_compute; reflexivity).
  split; [exact Hreach|]. split; [exact Hzero|].
  exact (proj2 (reachable_calls_return sampleEnvironment c Hreach) Hzero).
Defined.

Lemma reconcilePolicyDefinition_leaves_kind_witness :
  let c := stateAfter boundAndRead in
  let c' := stateAfter (boundAndRead ++
              [ReconcileDefinition (mapperKnowing "ConfigMap") "" "policy-A"
                 (Some (mkPolicy None []))]) in
  reconcilePolicyDefinition sampleEnvironment (mapperKnowing "ConfigMap") ""
    "policy-A" (Some (mkPolicy None [])) c = Some (c', None) ∧
  definitionInfo c !! getNamespaceName "" "policy-A"
    = Some (mkDefinitionInfo (Some (policyDeclaring configMap)) None) ∧
  paramsCRDControllers c' !! configMap = None ∧
  cancelledContexts c' = {[0]} ∪ cancelledContexts c.
Proof.
  intros c c'.
  assert (reconcilePolicyDefinition sampleEnvironment (mapperKnowing "ConfigMap") ""
            "policy-A" (Some (mkPolicy None [])) c = Some (c', None)) as Hrun
    by (vm_compute; reflexivity).
  assert (definitionInfo c !! getNamespaceName "" "policy-A"
            = Some (mkDefinitionInfo (Some (policyDeclaring configMap)) None))
    as Hinfo by (vm_compute; reflexivity).
  assert (Some (mkPolicy None []) ≫= Spec_ParamKind ≠ Some configMap) as Hnew.
  { intros Heq. discriminate Heq. }
  split; [exact Hrun|]. split; [exact Hinfo|].
  pose proof (reconcilePolicyDefinition_leaves_kind sampleEnvironment _ _ _ _ _ _
                configMap _ _ _ Hrun Hinfo eq_refl eq_refl Hnew) as Hleave.
  assert (paramsCRDControllers c !! configMap =
          Some (mkParamInfo
                  (mkParamController 0 (mkGroupVersionResource "" "v1" "ConfigMaps")
                     "v1/ConfigMap-controller") 0
                  {[getNamespaceName "" "policy-A"]}))
    as Hold by (vm_compute; reflexivity).
  rewrite Hold in Hleave. simpl in Hleave.
  rewrite decide_True in Hleave by (apply difference_diag_L). exact Hleave.
Defined.
